(** * Restaurant-AI: the extraction pipeline, embedded and verified

    A shallow embedding of the server side of the pipeline:

    - [server/services/schemaValidator.ts]  (module [SchemaValidationService]),
    - [server/services/webScraper.ts]       (module [WebScrapingService]),
    - [server/services/dataExtractor.ts]    (module [DataExtractionService]),
    - [server/storage.ts]                   (module [MemStorage]),
    - [server/services/agents.ts] and [server/services/orchestrator.ts]
      (modules [Agents] and [PipelineOrchestrator]).

    The services work on untyped JavaScript data ([data: any]), so the
    embedding starts with a small model of JavaScript values and of the
    operators the services apply to them.  All definitions come first, the
    theorems follow in the second half of the file. *)

From Stdlib Require Import ZArith QArith Qround String Ascii List Lia.
From Stdlib Require Import PrimFloat SpecFloat FloatOps.
From stdpp Require Import gmap strings list pretty.

#[local] Set Warnings "-register-all".

Local Open Scope string_scope.
Local Open Scope list_scope.

(** ** JavaScript values *)

(** The numbers of the records are rationals: the records are JSON data,
    which has neither NaN nor infinities, and every arithmetic step of the
    validator is exact on them (see [Math_round] below).  The rates that the
    agents compute are IEEE doubles (see [Agents.rate]).  Strings are
    sequences of code units below 256.  An object is the list of its own
    properties in insertion order. *)
Inductive JSValue : Type :=
| JUndefined
| JNull
| JBool (b : bool)
| JNum (q : Q)
| JStr (s : string)
| JArr (elems : list JSValue)
| JObj (props : list (string * JSValue)).

(** A page loaded by cheerio, through the queries the services make on it. *)
Record Dom := {
  (** [$(selector).first().text()]; [None] when no element matches. *)
  first_text : string -> option string;
  (** [$(selector).first().attr(name)]; [None] is [undefined]. *)
  first_attr : string -> string -> option string;
  (** [$(selector).text()], the texts of all matches together. *)
  all_text : string -> string;
  (** [$(selector).html()], of the first match; [None] is [null]. *)
  first_html : string -> option string;
  (** [$.html()] *)
  html : string;
}.

(** The issues of a [z.ZodError]; [received] is set for [invalid_type]
    issues only. *)
Inductive IssueCode :=
| invalid_type | too_small | too_big | invalid_string
| invalid_enum_value | invalid_union.

Record ZodIssue := {
  code : IssueCode;
  path : list string;
  received : option string;
  message : string;
}.

(** The functions of the JavaScript runtime and of the libraries that the
    services call and whose code is not part of the repository. *)
Class Host := {
  (** [Number(s)] on a string; [None] is NaN. *)
  StringToNumber : string -> option Q;
  (** [String(n)] on a number. *)
  NumberToString : Q -> string;
  (** zod's [z.string().email()] and [z.string().url()] checks. *)
  zod_isEmail : string -> bool;
  zod_isUrl : string -> bool;
  (** [JSON.parse]; [None] is a SyntaxError. *)
  JSON_parse : string -> option JSValue;
  (** The message of the SyntaxError that [JSON.parse] throws on a text,
      which differs from engine to engine. *)
  SyntaxError_message : string -> string;
  (** [cheerio.load] of a string, which the parser takes whatever it
      holds. *)
  cheerio_load : string -> Dom;
  (** [cheerio.load] of a value that is not a string, with the queries of
      [scrapeRestaurant] on what it gives: a document, or the message of
      the error thrown on the way (on [null], or on an array of numbers,
      say). *)
  cheerio_load_value : JSValue -> Dom + string;
  (** [date.toISOString()], the date in milliseconds. *)
  Date_toISOString : Z -> string;
  (** [error.message] of a [z.ZodError]: its issues, serialized. *)
  ZodError_message : list ZodIssue -> string;
}.

Module JS.

Definition is_undefined (v : JSValue) : bool :=
  match v with JUndefined => true | _ => false end.

Definition is_null (v : JSValue) : bool :=
  match v with JNull => true | _ => false end.

(** [v === s] for a string literal [s]. *)
Definition is_string (s : string) (v : JSValue) : bool :=
  match v with JStr t => String.eqb t s | _ => false end.

(** ToBoolean. *)
Definition truthy (v : JSValue) : bool :=
  match v with
  | JUndefined | JNull => false
  | JBool b => b
  | JNum q => negb (Qeq_bool q 0)
  | JStr s => negb (String.eqb s "")
  | JArr _ | JObj _ => true
  end.

(** [a || b] on values (no effect in [b] in any use below). *)
Definition or (a b : JSValue) : JSValue := if truthy a then a else b.

Fixpoint assoc (key : string) (props : list (string * JSValue)) : option JSValue :=
  match props with
  | [] => None
  | (k, v) :: rest => if String.eqb k key then Some v else assoc key rest
  end.

(** [key in obj] for an object's own properties. *)
Definition has_own (key : string) (props : list (string * JSValue)) : bool :=
  match assoc key props with Some _ => true | None => false end.

(** [obj[key] = v]: overwrite in place, or append a new property. *)
Fixpoint set (key : string) (v : JSValue) (props : list (string * JSValue))
  : list (string * JSValue) :=
  match props with
  | [] => [(key, v)]
  | (k, w) :: rest =>
      if String.eqb k key then (k, v) :: rest else (k, w) :: set key v rest
  end.

(** The own enumerable properties of a value, as a spread [...v] sees them. *)
Definition own_props (v : JSValue) : list (string * JSValue) :=
  match v with
  | JObj props => props
  | JArr l => imap (fun i x => (pretty i, x)) l
  | JStr s => imap (fun i c => (pretty i, JStr (String c EmptyString))) (list_ascii_of_string s)
  | _ => []
  end.

(** [{...a, ...b}] on two property lists. *)
Definition spread (a b : list (string * JSValue)) : list (string * JSValue) :=
  fold_left (fun acc kv => set (fst kv) (snd kv) acc) b a.

(** [v[key]] on a value that is neither [undefined] nor [null].  Of the
    inherited properties only [length] is modelled; no key the services
    read ([name], [city], ...) is a member of a built-in prototype. *)
Definition prop (v : JSValue) (key : string) : JSValue :=
  match v with
  | JObj props => default JUndefined (assoc key props)
  | JStr s => if String.eqb key "length"
              then JNum (inject_Z (Z.of_nat (String.length s))) else JUndefined
  | JArr l => if String.eqb key "length"
              then JNum (inject_Z (Z.of_nat (List.length l))) else JUndefined
  | _ => JUndefined
  end.

(** Whether [String(v)] returns, as in a template literal or in [join].
    An object is converted by the [toString] it inherits, unless it has a
    property of that name of its own, which is no function in a value of
    JSON: the conversion then throws a TypeError.  An array converts its
    elements, [undefined] and [null] apart. *)
Fixpoint converts (v : JSValue) : bool :=
  match v with
  | JObj props => negb (has_own "toString" props)
  | JArr elems => forallb converts elems
  | _ => true
  end.

(** [typeof v === 'string'] *)
Definition typeof_string (v : JSValue) : bool :=
  match v with JStr _ => true | _ => false end.

(** [Object.keys(v)] on a value that is neither [undefined] nor [null]. *)
Definition Object_keys (v : JSValue) : list string :=
  match v with
  | JObj props => map fst props
  | JArr l => map (fun i : nat => pretty i) (seq 0 (List.length l))
  | JStr s => map (fun i : nat => pretty i) (seq 0 (String.length s))
  | _ => []
  end.

(** *** Strings *)

(** White space, the class [\s], on code units below 256. *)
Definition is_space (c : ascii) : bool :=
  let n := nat_of_ascii c in
  (Nat.leb 9 n && Nat.leb n 13) || Nat.eqb n 32 || Nat.eqb n 160.

Definition is_digit (c : ascii) : bool :=
  let n := nat_of_ascii c in Nat.leb 48 n && Nat.leb n 57.

Fixpoint filter_chars (keep : ascii -> bool) (s : string) : string :=
  match s with
  | EmptyString => EmptyString
  | String c rest =>
      if keep c then String c (filter_chars keep rest) else filter_chars keep rest
  end.

Fixpoint forall_chars (p : ascii -> bool) (s : string) : bool :=
  match s with
  | EmptyString => true
  | String c rest => p c && forall_chars p rest
  end.

Fixpoint startsWith (s pre : string) : bool :=
  match pre, s with
  | EmptyString, _ => true
  | String p pre', String c s' => Ascii.eqb c p && startsWith s' pre'
  | String _ _, EmptyString => false
  end.

Fixpoint drop (n : nat) (s : string) : string :=
  match n, s with
  | O, _ => s
  | S n', String _ s' => drop n' s'
  | S _, EmptyString => EmptyString
  end.

(** [s.includes(sub)] *)
Fixpoint includes (s sub : string) : bool :=
  startsWith s sub ||
  match s with
  | EmptyString => false
  | String _ s' => includes s' sub
  end.

(** [toLowerCase] on one code unit below 256: the letters A-Z and the
    capital letters of Latin-1 (192-222 without the sign 215). *)
Definition lower_char (c : ascii) : ascii :=
  let n := nat_of_ascii c in
  if (Nat.leb 65 n && Nat.leb n 90)
     || (Nat.leb 192 n && Nat.leb n 222 && negb (Nat.eqb n 215))
  then ascii_of_nat (n + 32) else c.

(** [toUpperCase] on a character of the class [\w]. *)
Definition upper_char (c : ascii) : ascii :=
  let n := nat_of_ascii c in
  if Nat.leb 97 n && Nat.leb n 122 then ascii_of_nat (n - 32) else c.

(** [s.replace(/^\w/, c => c.toUpperCase())] *)
Definition capitalize (s : string) : string :=
  match s with
  | EmptyString => EmptyString
  | String c rest => String (upper_char c) rest
  end.

Fixpoint toLowerCase (s : string) : string :=
  match s with
  | EmptyString => EmptyString
  | String c rest => String (lower_char c) (toLowerCase rest)
  end.

Fixpoint trimStart (s : string) : string :=
  match s with
  | EmptyString => EmptyString
  | String c rest => if is_space c then trimStart rest else s
  end.

Fixpoint rev_string (acc s : string) : string :=
  match s with
  | EmptyString => acc
  | String c rest => rev_string (String c acc) rest
  end.

Definition trimEnd (s : string) : string :=
  rev_string "" (trimStart (rev_string "" s)).

Definition trim (s : string) : string := trimEnd (trimStart s).

(** [s.split(sep)] for a one-character separator: never the empty list. *)
Fixpoint split (sep : ascii) (s : string) : list string :=
  match s with
  | EmptyString => [EmptyString]
  | String c rest =>
      if Ascii.eqb c sep then EmptyString :: split sep rest
      else match split sep rest with
           | [] => [String c EmptyString]
           | w :: ws => String c w :: ws
           end
  end.

(** [parts.join(sep)] *)
Fixpoint join (sep : string) (parts : list string) : string :=
  match parts with
  | [] => ""
  | [p] => p
  | p :: rest => p +:+ sep +:+ join sep rest
  end.

(** *** Conversions that need the host *)

Section Conversions.
Context `{Host}.

(** ToString. *)
Fixpoint ToString (v : JSValue) : string :=
  match v with
  | JUndefined => "undefined"
  | JNull => "null"
  | JBool true => "true"
  | JBool false => "false"
  | JNum q => NumberToString q
  | JStr s => s
  | JArr l =>
      join "," ((fix each (l : list JSValue) : list string :=
                   match l with
                   | [] => []
                   | JUndefined :: l' | JNull :: l' => "" :: each l'
                   | x :: l' => ToString x :: each l'
                   end) l)
  | JObj _ => "[object Object]"
  end.

(** ToNumber; [None] is NaN. *)
Definition ToNumber (v : JSValue) : option Q :=
  match v with
  | JUndefined => None
  | JNull => Some 0%Q
  | JBool true => Some 1%Q
  | JBool false => Some 0%Q
  | JNum q => Some q
  | JStr s => StringToNumber s
  | JArr _ | JObj _ => StringToNumber (ToString v)
  end.

(** [v < n] and [v > n] against a number literal: a comparison with NaN
    is false. *)
Definition lt_num (v : JSValue) (n : Q) : bool :=
  match ToNumber v with
  | Some q => negb (Qle_bool n q)
  | None => false
  end.

Definition gt_num (v : JSValue) (n : Q) : bool :=
  match ToNumber v with
  | Some q => negb (Qle_bool q n)
  | None => false
  end.

(** [v === n] for a number literal [n]. *)
Definition is_num (n : Q) (v : JSValue) : bool :=
  match v with JNum q => Qeq_bool q n | _ => false end.

End Conversions.

(** [Math.round] on an exact value: the nearest integer, a tie going up. *)
Definition Math_round (x : Q) : Z := Qfloor (x + (1 # 2)).

(** The double of an integer counter or of a number of milliseconds: the
    integer itself up to 2^53, the nearest double beyond. *)
Definition double (z : Z) : float :=
  SF2Prim (binary_normalize prec emax z 0 false).

End JS.

(** ** zod, as far as [schemaValidator.ts] uses it

    The schema of the validator is built from zod's combinators; the
    embedding keeps the combinators as a datatype and interprets them with
    [parse], following zod 3: every check of a value is run and every issue
    is collected, an object schema drops the keys it does not declare, and
    a union returns its first option that parses. *)
Module Zod.

Inductive StringCheck := Min (n : nat) | Email | Url.

Inductive ZodType :=
| ZString (checks : list StringCheck)
| ZNumber (min max : option Z)
| ZBoolean
| ZEnum (values : list string)
| ZOptional (inner : ZodType)
| ZArray (element : ZodType) (minLength : option nat)
| ZRecord (value : ZodType)
| ZUnion (options : list ZodType)
| ZObject (shape : list (string * ZodType)).

Inductive SafeParse :=
| Success (data : JSValue)
| Failure (issues : list ZodIssue).

Definition getParsedType (v : JSValue) : string :=
  match v with
  | JUndefined => "undefined"
  | JNull => "null"
  | JBool _ => "boolean"
  | JNum _ => "number"
  | JStr _ => "string"
  | JArr _ => "array"
  | JObj _ => "object"
  end.

(** The messages of zod's default error map. *)
Definition wrong_type (expected : string) (p : list string) (v : JSValue) : ZodIssue :=
  {| code := invalid_type; path := p; received := Some (getParsedType v);
     message := if JS.is_undefined v then "Required"
                else "Expected " +:+ expected +:+ ", received " +:+ getParsedType v |}.

Definition issue (c : IssueCode) (p : list string) (msg : string) : ZodIssue :=
  {| code := c; path := p; received := None; message := msg |}.

Definition issues_of (r : SafeParse) : list ZodIssue :=
  match r with Success _ => [] | Failure l => l end.

(** The parsed properties of an object: a property whose parsed value is
    [undefined] is kept only if the key was present in the input. *)
Fixpoint kept_props (rs : list (string * bool * SafeParse)) : list (string * JSValue) :=
  match rs with
  | [] => []
  | (k, present, Success v) :: rest =>
      if negb (JS.is_undefined v) || present
      then (k, v) :: kept_props rest else kept_props rest
  | (_, _, Failure _) :: rest => kept_props rest
  end.

Definition merge_object (rs : list (string * bool * SafeParse)) : SafeParse :=
  match concat (map (fun r => issues_of (snd r)) rs) with
  | [] => Success (JObj (kept_props rs))
  | l => Failure l
  end.

Fixpoint parsed_elems (rs : list SafeParse) : list JSValue :=
  match rs with
  | [] => []
  | Success v :: rest => v :: parsed_elems rest
  | Failure _ :: rest => parsed_elems rest
  end.

Definition merge_array (pre : list ZodIssue) (rs : list SafeParse) : SafeParse :=
  match pre ++ concat (map issues_of rs) with
  | [] => Success (JArr (parsed_elems rs))
  | l => Failure l
  end.

Section Parse.
Context `{Host}.

Definition string_check (p : list string) (s : string) (c : StringCheck)
  : list ZodIssue :=
  match c with
  | Min n =>
      if Nat.ltb (String.length s) n
      then [issue too_small p
              ("String must contain at least " +:+ pretty n +:+ " character(s)")]
      else []
  | Email => if zod_isEmail s then [] else [issue invalid_string p "Invalid email"]
  | Url => if zod_isUrl s then [] else [issue invalid_string p "Invalid url"]
  end.

Definition number_check (p : list string) (q : Q) (min max : option Z)
  : list ZodIssue :=
  match min with
  | Some lo =>
      if Qle_bool (inject_Z lo) q then []
      else [issue too_small p
              ("Number must be greater than or equal to " +:+ pretty lo)]
  | None => []
  end ++
  match max with
  | Some hi =>
      if Qle_bool q (inject_Z hi) then []
      else [issue too_big p
              ("Number must be less than or equal to " +:+ pretty hi)]
  | None => []
  end.

Fixpoint parse (s : ZodType) (p : list string) (v : JSValue) : SafeParse :=
  match s with
  | ZString checks =>
      match v with
      | JStr str =>
          match concat (map (string_check p str) checks) with
          | [] => Success v
          | l => Failure l
          end
      | _ => Failure [wrong_type "string" p v]
      end
  | ZNumber min max =>
      match v with
      | JNum q =>
          match number_check p q min max with
          | [] => Success v
          | l => Failure l
          end
      | _ => Failure [wrong_type "number" p v]
      end
  | ZBoolean =>
      match v with
      | JBool _ => Success v
      | _ => Failure [wrong_type "boolean" p v]
      end
  | ZEnum values =>
      match v with
      | JStr str =>
          if existsb (String.eqb str) values then Success v
          else Failure [issue invalid_enum_value p
                          ("Invalid enum value. Expected "
                           +:+ JS.join " | " (map (fun x => "'" +:+ x +:+ "'") values)
                           +:+ ", received '" +:+ str +:+ "'")]
      | _ => Failure [wrong_type (JS.join " | " (map (fun x => "'" +:+ x +:+ "'") values)) p v]
      end
  | ZOptional inner =>
      match v with
      | JUndefined => Success JUndefined
      | _ => parse inner p v
      end
  | ZArray element minLength =>
      match v with
      | JArr elems =>
          merge_array
            (match minLength with
             | Some n =>
                 if Nat.ltb (List.length elems) n
                 then [issue too_small p
                         ("Array must contain at least " +:+ pretty n +:+ " element(s)")]
                 else []
             | None => []
             end)
            ((fix each (i : nat) (l : list JSValue) : list SafeParse :=
                match l with
                | [] => []
                | x :: l' => parse element (p ++ [pretty i]) x :: each (S i) l'
                end) 0%nat elems)
      | _ => Failure [wrong_type "array" p v]
      end
  | ZRecord value =>
      match v with
      | JObj props =>
          merge_object
            (map (fun kv => (fst kv, true, parse value (p ++ [fst kv]) (snd kv))) props)
      | _ => Failure [wrong_type "object" p v]
      end
  | ZUnion options =>
      (fix first (os : list ZodType) : SafeParse :=
         match os with
         | [] => Failure [issue invalid_union p "Invalid input"]
         | o :: os' =>
             match parse o p v with
             | Success w => Success w
             | Failure _ => first os'
             end
         end) options
  | ZObject shape =>
      match v with
      | JObj props =>
          merge_object
            ((fix fields (sh : list (string * ZodType))
                : list (string * bool * SafeParse) :=
                match sh with
                | [] => []
                | (k, f) :: sh' =>
                    (k, JS.has_own k props,
                     parse f (p ++ [k]) (default JUndefined (JS.assoc k props)))
                    :: fields sh'
                end) shape)
      | _ => Failure [wrong_type "object" p v]
      end
  end.

End Parse.

(** [schema.deepPartial()]: every field of every object becomes optional,
    through arrays and optionals; strings, numbers, enums, records and
    unions stay as they are, with their checks. *)
Fixpoint deepPartialify (s : ZodType) : ZodType :=
  match s with
  | ZObject shape =>
      ZObject ((fix fields (sh : list (string * ZodType)) :=
                  match sh with
                  | [] => []
                  | (k, f) :: sh' => (k, ZOptional (deepPartialify f)) :: fields sh'
                  end) shape)
  | ZArray element minLength => ZArray (deepPartialify element) minLength
  | ZOptional inner => ZOptional (deepPartialify inner)
  | _ => s
  end.

End Zod.

(** ** Exceptions *)

(** What a [throw] carries: a [z.ZodError] with its issues, or another
    [Error] (a [TypeError], an [Error] of the services) with its message. *)
Inductive Exn :=
| ZodError (issues : list ZodIssue)
| JsError (message : string).

(** [error.message] *)
Definition error_message `{Host} (e : Exn) : string :=
  match e with
  | ZodError issues => ZodError_message issues
  | JsError msg => msg
  end.

Inductive Completion (A : Type) :=
| Normal (a : A)
| Throw (e : Exn).
Arguments Normal {A} a.
Arguments Throw {A} e.

#[export] Instance Completion_ret : MRet Completion := fun _ a => Normal a.
#[export] Instance Completion_bind : MBind Completion :=
  fun _ _ f c => match c with Normal a => f a | Throw e => Throw e end.

Module JSExn.

(** [v.key] or [v[key]]: a TypeError on [undefined] and [null]. *)
Definition get (v : JSValue) (key : string) : Completion JSValue :=
  match v with
  | JUndefined | JNull =>
      Throw (JsError ("Cannot read properties of " +:+ Zod.getParsedType v
                      +:+ " (reading '" +:+ key +:+ "')"))
  | _ => Normal (JS.prop v key)
  end.

(** A call [receiver.method(...)] of a [String.prototype] method on the
    value [v] of the expression [receiver]: a TypeError unless [v] is a
    string, on the read of the method for [undefined] and [null], on the
    call otherwise. *)
Definition as_string (receiver method : string) (v : JSValue) : Completion string :=
  match v with
  | JStr s => Normal s
  | JUndefined | JNull =>
      Throw (JsError ("Cannot read properties of " +:+ Zod.getParsedType v
                      +:+ " (reading '" +:+ method +:+ "')"))
  | _ => Throw (JsError (receiver +:+ "." +:+ method +:+ " is not a function"))
  end.

(** A call [receiver.method(...)] of an [Array.prototype] method on the
    value [v] of the expression [receiver]: a TypeError unless [v] is an
    array. *)
Definition as_array (receiver method : string) (v : JSValue)
  : Completion (list JSValue) :=
  match v with
  | JArr elems => Normal elems
  | JUndefined | JNull =>
      Throw (JsError ("Cannot read properties of " +:+ Zod.getParsedType v
                      +:+ " (reading '" +:+ method +:+ "')"))
  | _ => Throw (JsError (receiver +:+ "." +:+ method +:+ " is not a function"))
  end.

(** [`${v}`], for what it throws. *)
Definition to_text (v : JSValue) : Completion unit :=
  if JS.converts v then Normal tt
  else Throw (JsError "Cannot convert object to primitive value").

(** [elems.join(sep)], for what it throws: every element is converted,
    [undefined] and [null] apart. *)
Fixpoint join (elems : list JSValue) : Completion unit :=
  match elems with
  | [] => Normal tt
  | elem :: rest =>
      match to_text elem with
      | Normal _ => join rest
      | Throw e => Throw e
      end
  end.

(** [schema.parse(data)]: the parsed data, or a thrown [ZodError]. *)
Definition parse `{Host} (s : Zod.ZodType) (data : JSValue) : Completion JSValue :=
  match Zod.parse s [] data with
  | Zod.Success v => Normal v
  | Zod.Failure issues => Throw (ZodError issues)
  end.

End JSExn.

(** ** [schemaValidator.ts] *)
Module SchemaValidationService.
Import Zod.

Definition addressSchema : ZodType :=
  ZObject [
    ("street", ZOptional (ZString []));
    ("city", ZString [Min 1]);
    ("state", ZString [Min 1]);
    ("postalCode", ZOptional (ZString []));
    ("country", ZString [Min 1]);
    ("coordinates",
      ZOptional (ZObject [("lat", ZNumber None None); ("lng", ZNumber None None)]))
  ].

Definition contactInfoSchema : ZodType :=
  ZObject [
    ("phone", ZOptional (ZString []));
    ("email", ZOptional (ZString [Email]));
    ("website", ZOptional (ZString [Url]))
  ].

Definition ratingsSchema : ZodType :=
  ZObject [
    ("average", ZOptional (ZNumber (Some 0%Z) (Some 5%Z)));
    ("total", ZOptional (ZNumber (Some 0%Z) None));
    ("sources",
      ZRecord (ZObject [
        ("rating", ZNumber (Some 0%Z) (Some 5%Z));
        ("count", ZNumber (Some 0%Z) None)
      ]))
  ].

Definition operatingHoursSchema : ZodType :=
  ZRecord (ZUnion [
    ZObject [("open", ZString []); ("close", ZString [])];
    ZObject [("closed", ZBoolean)]
  ]).

Definition restaurantDataSchema : ZodType :=
  ZObject [
    ("restaurantId", ZOptional (ZString []));
    ("name", ZString [Min 1]);
    ("address", addressSchema);
    ("cuisineTypes", ZArray (ZString []) (Some 1%nat));
    ("contactInfo", contactInfoSchema);
    ("ratings", ratingsSchema);
    ("operatingHours", operatingHoursSchema);
    ("priceRange", ZEnum ["budget"; "mid-range"; "fine-dining"; "luxury"]);
    ("amenities", ZArray (ZString []) None);
    ("dataSources",
      ZArray (ZObject [
        ("source", ZString []);
        ("url", ZOptional (ZString []));
        ("extractedAt", ZString []);
        ("reliability", ZNumber (Some 0%Z) (Some 1%Z))
      ]) None)
  ].

Record ValidationResult := {
  isValid : bool;
  validatedData : option JSValue;
  errors : list string;
  completeness : Z;
  accuracy : Z;
  missingFields : list string;
  warnings : list string;
}.

Definition set_valid (d : JSValue) (r : ValidationResult) : ValidationResult :=
  {| isValid := true; validatedData := Some d; errors := errors r;
     completeness := completeness r; accuracy := accuracy r;
     missingFields := missingFields r; warnings := warnings r |}.

Definition set_completeness (c : Z) (r : ValidationResult) : ValidationResult :=
  {| isValid := isValid r; validatedData := validatedData r; errors := errors r;
     completeness := c; accuracy := accuracy r;
     missingFields := missingFields r; warnings := warnings r |}.

Definition set_accuracy (a : Z) (r : ValidationResult) : ValidationResult :=
  {| isValid := isValid r; validatedData := validatedData r; errors := errors r;
     completeness := completeness r; accuracy := a;
     missingFields := missingFields r; warnings := warnings r |}.

Definition set_warnings (w : list string) (r : ValidationResult) : ValidationResult :=
  {| isValid := isValid r; validatedData := validatedData r; errors := errors r;
     completeness := completeness r; accuracy := accuracy r;
     missingFields := missingFields r; warnings := w |}.

Definition set_errors (e : list string) (r : ValidationResult) : ValidationResult :=
  {| isValid := isValid r; validatedData := validatedData r; errors := e;
     completeness := completeness r; accuracy := accuracy r;
     missingFields := missingFields r; warnings := warnings r |}.

Definition set_missingFields (m : list string) (r : ValidationResult)
  : ValidationResult :=
  {| isValid := isValid r; validatedData := validatedData r; errors := errors r;
     completeness := completeness r; accuracy := accuracy r;
     missingFields := m; warnings := warnings r |}.

(** The callback of the [reduce] in [hasField]:
    [current && current[key] !== undefined && current[key] !== null
     && current[key] !== ''].
    On a truthy [current] the result is the boolean of the three
    comparisons, on a falsy one it is [current] itself. *)
Definition hasField_step (current : JSValue) (key : string) : JSValue :=
  if JS.truthy current then
    JBool (negb (JS.is_undefined (JS.prop current key))
           && negb (JS.is_null (JS.prop current key))
           && negb (JS.is_string "" (JS.prop current key)))
  else current.

(** [path.split('.').reduce(step, obj) !== undefined] *)
Definition hasField (obj : JSValue) (path : string) : bool :=
  negb (JS.is_undefined (fold_left hasField_step (JS.split "." path) obj)).

Definition requiredFields : list string :=
  [ "name"; "address.city"; "address.state"; "address.country";
    "cuisineTypes"; "contactInfo"; "ratings"; "operatingHours";
    "priceRange"; "amenities"; "dataSources" ].

Definition optionalFields : list string :=
  [ "address.street"; "address.postalCode"; "address.coordinates";
    "contactInfo.phone"; "contactInfo.email"; "contactInfo.website";
    "ratings.average"; "ratings.total" ].

(** The two [for] loops: one point for each field that [hasField] finds. *)
Definition score (data : JSValue) (fields : list string) : nat :=
  fold_left (fun n field => if hasField data field then S n else n) fields 0%nat.

(** The score is computed in floating point and rounded with [Math.round].
    The exact value is (requiredScore / 11) * 70 + (optionalScore / 8) * 30;
    it is a tie only for requiredScore 0 or 11, where the floating-point
    value is exact too, and otherwise it is at least 1/44 away from a tie,
    so rounding the exact value gives the integer the code returns. *)
Definition calculateCompleteness (data : JSValue) : Z :=
  let requiredScore := score data requiredFields in
  let optionalScore := score data optionalFields in
  let requiredPercentage :=
    (inject_Z (Z.of_nat requiredScore)
     / inject_Z (Z.of_nat (List.length requiredFields)) * 70)%Q in
  let optionalPercentage :=
    (inject_Z (Z.of_nat optionalScore)
     / inject_Z (Z.of_nat (List.length optionalFields)) * 30)%Q in
  JS.Math_round (requiredPercentage + optionalPercentage)%Q.

(** [/^(\+91|0)?[6-9]\d{9}$/] after the removal of white space and
    hyphens: an optional prefix [+91] or [0], then a digit from 6 to 9 and
    nine more digits. *)
Definition ten_digits (s : string) : bool :=
  match s with
  | String c rest =>
      Nat.leb 54 (nat_of_ascii c) && Nat.leb (nat_of_ascii c) 57
      && Nat.eqb (String.length rest) 9 && JS.forall_chars JS.is_digit rest
  | EmptyString => false
  end.

Definition phoneRegex_test (s : string) : bool :=
  ten_digits s
  || (JS.startsWith s "+91" && ten_digits (JS.drop 3 s))
  || (JS.startsWith s "0" && ten_digits (JS.drop 1 s)).

Definition isValidPhoneNumber (phone : JSValue) : Completion bool :=
  s ← JSExn.as_string "phone" "replace" phone;
  mret (phoneRegex_test
          (JS.filter_chars (fun c => negb (JS.is_space c || Ascii.eqb c "-")) s)).

(** [[^\s@]+]: a non-empty run without white space and without [@]. *)
Definition plain (s : string) : bool :=
  negb (String.eqb s "")
  && JS.forall_chars (fun c => negb (JS.is_space c || Ascii.eqb c "@")) s.

(** [[^\s@]+\.[^\s@]+$] on the part after the [@]: some dot splits it into
    two plain parts. *)
Fixpoint dotted (before s : string) : bool :=
  match s with
  | EmptyString => false
  | String c rest =>
      (Ascii.eqb c "." && plain (JS.rev_string "" before) && plain rest)
      || dotted (String c before) rest
  end.

(** [/^[^\s@]+@[^\s@]+\.[^\s@]+$/]: the local part ends at the first [@],
    since no later part may hold one. *)
Fixpoint emailRegex_test (before s : string) : bool :=
  match s with
  | EmptyString => false
  | String c rest =>
      if Ascii.eqb c "@"
      then plain (JS.rev_string "" before) && dotted "" rest
      else emailRegex_test (String c before) rest
  end.

Section Service.
Context `{Host}.

(** [emailRegex.test(email)]: [test] converts its argument to a string. *)
Definition isValidEmail (email : JSValue) : bool :=
  emailRegex_test "" (JS.ToString email).

(** [cleanPhone.startsWith('91') || cleanPhone.match(/^[6-9]\d{9}$/)],
    as the condition it is used for; [cleanPhone] is the phone without
    white space, hyphens and plus signs. *)
Definition isIndianPhoneNumber (phone : JSValue) : Completion bool :=
  s ← JSExn.as_string "phone" "replace" phone;
  let cleanPhone :=
    JS.filter_chars
      (fun c => negb (JS.is_space c || Ascii.eqb c "-" || Ascii.eqb c "+")) s in
  mret (JS.startsWith cleanPhone "91" || ten_digits cleanPhone).

Definition penalty (cond : bool) (amount : Z) (accuracyScore : Z) : Z :=
  if cond then (accuracyScore - amount)%Z else accuracyScore.

Definition calculateAccuracy (data : JSValue) : Completion Z :=
  let accuracyScore := 100%Z in
  (* Name validation *)
  name ← JSExn.get data "name";
  let accuracyScore :=
    penalty (negb (JS.truthy name) || JS.lt_num (JS.prop name "length") 2)
            10 accuracyScore in
  (* Address validation *)
  address ← JSExn.get data "address";
  let accuracyScore :=
    penalty (negb (JS.truthy address)
             || negb (JS.truthy (JS.prop address "city"))
             || negb (JS.truthy (JS.prop address "state")))
            15 accuracyScore in
  (* Contact info validation *)
  contactInfo ← JSExn.get data "contactInfo";
  phone ← JSExn.get contactInfo "phone";
  badPhone ← (if JS.truthy phone
              then ok ← isValidPhoneNumber phone; mret (negb ok)
              else mret false);
  let accuracyScore := penalty badPhone 5 accuracyScore in
  email ← JSExn.get contactInfo "email";
  let accuracyScore :=
    penalty (JS.truthy email && negb (isValidEmail email)) 5 accuracyScore in
  (* Cuisine types validation *)
  cuisineTypes ← JSExn.get data "cuisineTypes";
  let accuracyScore :=
    penalty (negb (JS.truthy cuisineTypes)
             || JS.is_num 0 (JS.prop cuisineTypes "length"))
            10 accuracyScore in
  (* Rating validation *)
  ratings ← JSExn.get data "ratings";
  average ← JSExn.get ratings "average";
  let accuracyScore :=
    penalty (JS.truthy average && (JS.lt_num average 0 || JS.gt_num average 5))
            5 accuracyScore in
  (* Operating hours validation *)
  operatingHours ← JSExn.get data "operatingHours";
  let accuracyScore :=
    penalty (negb (JS.truthy operatingHours)
             || Nat.eqb (List.length (JS.Object_keys operatingHours)) 0)
            10 accuracyScore in
  mret (Z.max 0 (Z.min 100 accuracyScore)).

Definition push (cond : bool) (w : string) (warnings : list string) : list string :=
  if cond then warnings ++ [w] else warnings.

Definition generateWarnings (data : JSValue) : Completion (list string) :=
  let warnings := [] in
  name ← JSExn.get data "name";
  let warnings :=
    push (JS.truthy name && JS.gt_num (JS.prop name "length") 100)
         "Restaurant name is unusually long" warnings in
  cuisineTypes ← JSExn.get data "cuisineTypes";
  let warnings :=
    push (JS.truthy cuisineTypes && JS.gt_num (JS.prop cuisineTypes "length") 10)
         "Too many cuisine types specified" warnings in
  contactInfo ← JSExn.get data "contactInfo";
  phone ← JSExn.get contactInfo "phone";
  foreign ← (if JS.truthy phone
             then ok ← isIndianPhoneNumber phone; mret (negb ok)
             else mret false);
  let warnings := push foreign "Phone number may not be Indian format" warnings in
  address ← JSExn.get data "address";
  coordinates ← JSExn.get address "coordinates";
  let warnings :=
    push (negb (JS.truthy coordinates)) "Missing geographical coordinates" warnings in
  ratings ← JSExn.get data "ratings";
  average ← JSExn.get ratings "average";
  total ← JSExn.get ratings "total";
  let warnings :=
    push (JS.truthy average && negb (JS.truthy total))
         "Average rating provided without total count" warnings in
  mret warnings.

(** The paths of the issues that report an absent value. *)
Definition extractMissingFields (issues : list ZodIssue) : list string :=
  map (fun err => JS.join "." (path err))
      (List.filter (fun err =>
                 match code err, received err with
                 | invalid_type, Some r => String.eqb r "undefined"
                 | _, _ => false
                 end) issues).

Definition initial : ValidationResult :=
  {| isValid := false; validatedData := None; errors := [];
     completeness := 0; accuracy := 0; missingFields := []; warnings := [] |}.

(** The [try] block: the result record as the block leaves it, with the
    exception that ended the block, if any. *)
Definition try_block (data : JSValue) (result : ValidationResult)
  : ValidationResult * option Exn :=
  match JSExn.parse restaurantDataSchema data with
  | Throw e => (result, Some e)
  | Normal validatedData =>
      let result := set_valid validatedData result in
      let result := set_completeness (calculateCompleteness validatedData) result in
      match calculateAccuracy validatedData with
      | Throw e => (result, Some e)
      | Normal a =>
          let result := set_accuracy a result in
          match generateWarnings validatedData with
          | Throw e => (result, Some e)
          | Normal w => (set_warnings w result, None)
          end
      end
  end.

(** The inner [try]/[catch]: completeness of the data parsed against the
    relaxed schema, 0 if that parse throws. *)
Definition partial_completeness (data : JSValue) : Z :=
  let partialSchema := deepPartialify restaurantDataSchema in
  match JSExn.parse partialSchema data with
  | Normal partialData => calculateCompleteness partialData
  | Throw _ => 0%Z
  end.

(** The [catch] block. *)
Definition catch_block (data : JSValue) (result : ValidationResult) (error : Exn)
  : Completion ValidationResult :=
  match error with
  | ZodError issues =>
      let result :=
        set_errors
          (map (fun err => JS.join "." (path err) +:+ ": " +:+ message err) issues)
          result in
      let result := set_missingFields (extractMissingFields issues) result in
      let result := set_completeness (partial_completeness data) result in
      Normal result
  | JsError msg => Normal (set_errors [msg] result)
  end.

(** The promise that [validateRestaurantData] returns: fulfilled with a
    result ([Normal]) or rejected with what the body threw ([Throw]). *)
Definition validateRestaurantData (data : JSValue) : Completion ValidationResult :=
  match try_block data initial with
  | (result, None) => Normal result
  | (result, Some error) => catch_block data result error
  end.

End Service.

End SchemaValidationService.

(** ** [webScraper.ts] and [dataExtractor.ts]: the selector strategies *)

(** The pattern both services repeat: try the selectors in order and return
    the trimmed text of the first match that passes the test. *)
Fixpoint first_match (dom : Dom) (accept : string -> bool) (selectors : list string)
  : option string :=
  match selectors with
  | [] => None
  | selector :: rest =>
      match first_text dom selector with
      | Some t =>
          let text := JS.trim t in
          if accept text then Some text else first_match dom accept rest
      | None => first_match dom accept rest
      end
  end.

(** [text && text.length > 10] *)
Definition long_text (text : string) : bool :=
  negb (String.eqb text "") && Nat.ltb 10 (String.length text).

(** The double quote, for the selectors that hold one. *)
Definition dq : string := String (ascii_of_nat 34) EmptyString.

Definition ld_json_selector : string :=
  "script[type=" +:+ dq +:+ "application/ld+json" +:+ dq +:+ "]".

(** The address of one JSON-LD block, as both services read it:
    [JSON.parse], then [data.address] as a string or as an object.  A
    SyntaxError of the parse and a TypeError of [data.address] are thrown
    here and caught by the callers.  [from_object] is the branch for an
    address object, where the two services differ. *)
Definition ld_json_address `{Host} (from_object : JSValue -> option string)
  (jsonLd : string) : Completion (option string) :=
  data ← match JSON_parse jsonLd with
         | Some data => Normal data
         | None => Throw (JsError (SyntaxError_message jsonLd))
         end;
  address ← JSExn.get data "address";
  if JS.truthy address then
    match address with
    | JStr s => mret (Some s)
    | _ => mret (from_object address)
    end
  else mret None.

(** [try { ... } catch (e) { /* ignore */ }] around a block that may return
    a value from the function. *)
Definition ignore_errors {A} (c : Completion (option A)) : option A :=
  match c with Normal r => r | Throw _ => None end.

Module WebScrapingService.

(** The part of [ScrapedData] that the pipeline and the properties read;
    phone, email, hours, menu items, images and social links are left out. *)
Record ScrapedData := {
  title : string;
  description : option string;
  address : option string;
  website : string;
  rawContent : string;
}.

Definition title_selectors : list string :=
  [ "h1"; "title"; "[data-testid=" +:+ dq +:+ "restaurant-name" +:+ dq +:+ "]";
    ".restaurant-name"; ".title"; "h1.name"; ".main-title" ].

Definition extractTitle (dom : Dom) : string :=
  match first_match dom
          (fun text => negb (String.eqb text "") && Nat.ltb (String.length text) 200)
          title_selectors with
  | Some text => text
  | None =>
      if negb (String.eqb (all_text dom "title") "") then all_text dom "title"
      else "Unknown Restaurant"
  end.

Definition description_selectors : list string :=
  [ "[name=" +:+ dq +:+ "description" +:+ dq +:+ "]";
    "[property=" +:+ dq +:+ "og:description" +:+ dq +:+ "]";
    ".description"; ".about"; ".restaurant-description"; "p.description" ].

(** [element.attr('content') || element.text()] of the first match, kept
    when its trimmed form is longer than 20. *)
Fixpoint extractDescription_from (dom : Dom) (selectors : list string) : option string :=
  match selectors with
  | [] => None
  | selector :: rest =>
      match first_text dom selector with
      | Some t =>
          let text :=
            match first_attr dom selector "content" with
            | Some c => if negb (String.eqb c "") then c else t
            | None => t
            end in
          if negb (String.eqb text "") && Nat.ltb 20 (String.length (JS.trim text))
          then Some (JS.trim text)
          else extractDescription_from dom rest
      | None => extractDescription_from dom rest
      end
  end.

Definition extractDescription (dom : Dom) : option string :=
  extractDescription_from dom description_selectors.

Definition address_selectors : list string :=
  [ "[itemtype*=" +:+ dq +:+ "PostalAddress" +:+ dq +:+ "]";
    ".address"; ".location"; ".restaurant-address";
    "[data-testid=" +:+ dq +:+ "address" +:+ dq +:+ "]"; ".contact-address" ].

Section Service.
Context `{Host}.

(** [`${streetAddress || ''} ${addressLocality || ''}`.trim()], when one of
    the two is there. *)
Definition address_object (address : JSValue) : option string :=
  if JS.truthy (JS.prop address "streetAddress")
     || JS.truthy (JS.prop address "addressLocality")
  then Some (JS.trim (JS.ToString (JS.or (JS.prop address "streetAddress") (JStr ""))
                      +:+ " "
                      +:+ JS.ToString (JS.or (JS.prop address "addressLocality") (JStr ""))))
  else None.

Definition extractAddress (dom : Dom) : option string :=
  match first_match dom long_text address_selectors with
  | Some text => Some text
  | None =>
      (* Look for structured data *)
      match first_html dom ld_json_selector with
      | Some jsonLd =>
          if negb (String.eqb jsonLd "")
          then ignore_errors (ld_json_address address_object jsonLd)
          else None
      | None => None
      end
  end.

(** The extraction half of [scrapeRestaurant], after the page has come. *)
Definition scrape_page (url : string) (dom : Dom) : ScrapedData :=
  {| title := extractTitle dom;
     description := extractDescription dom;
     address := extractAddress dom;
     website := url;
     rawContent := html dom |}.

End Service.

End WebScrapingService.

(** The heuristics of [dataExtractor.ts] that are built on regular
    expressions over the page text.  They are kept abstract: no property
    below depends on what they find, so each holds whatever they return. *)
Class Heuristics := {
  parseIndianAddress : string -> JSValue;
  extractContactInfo : Dom -> JSValue;
  extractRatings : Dom -> JSValue;
  extractOperatingHours : Dom -> JSValue;
  extractPriceRange : Dom -> JSValue;
}.

Module DataExtractionService.

Definition name_selectors : list string :=
  [ "h1.restaurant-name"; "h1";
    "[data-testid=" +:+ dq +:+ "restaurant-name" +:+ dq +:+ "]";
    ".restaurant-title"; "title" ].

Definition extractName (dom : Dom) : string :=
  match first_match dom
          (fun text => negb (String.eqb text "")
                       && Nat.ltb 0 (String.length text)
                       && Nat.ltb (String.length text) 200)
          name_selectors with
  | Some text => text
  | None => "Unknown Restaurant"
  end.

Definition address_selectors : list string :=
  [ ".address"; ".location";
    "[itemtype*=" +:+ dq +:+ "PostalAddress" +:+ dq +:+ "]";
    "[data-testid=" +:+ dq +:+ "address" +:+ dq +:+ "]"; ".contact-address" ].

Definition amenityKeywords : list string :=
  [ "wifi"; "parking"; "ac"; "air conditioning"; "delivery"; "takeaway";
    "credit card"; "cash only"; "outdoor seating"; "bar"; "live music";
    "kids friendly"; "pet friendly"; "wheelchair accessible"; "vegan";
    "vegetarian"; "halal"; "buffet"; "catering"; "private dining" ].

(** [[...new Set(l)]]: the first occurrence of each string, in order. *)
Fixpoint unique (seen l : list string) : list string :=
  match l with
  | [] => []
  | x :: rest =>
      if existsb (String.eqb x) seen then unique seen rest
      else x :: unique (x :: seen) rest
  end.

Definition extractAmenities (dom : Dom) : list string :=
  let bodyText := JS.toLowerCase (all_text dom "body") in
  unique []
    (map JS.capitalize
         (List.filter (fun keyword => JS.includes bodyText keyword) amenityKeywords)).

Definition cuisineKeywords : list (string * list string) :=
  [ ("North Indian", ["north indian"; "punjabi"; "dal"; "naan"; "tandoor"; "butter chicken"]);
    ("South Indian", ["south indian"; "dosa"; "idli"; "sambar"; "vada"; "uttapam"]);
    ("Chinese", ["chinese"; "chow mein"; "fried rice"; "manchurian"; "hakka"]);
    ("Italian", ["italian"; "pizza"; "pasta"; "lasagna"; "spaghetti"]);
    ("Continental", ["continental"; "continental food"]);
    ("Fast Food", ["fast food"; "burger"; "sandwich"; "fries"]);
    ("Vegetarian", ["vegetarian"; "veg only"; "pure veg"]);
    ("Bakery", ["bakery"; "cakes"; "pastries"; "bread"; "cookies"]);
    ("Street Food", ["street food"; "chaat"; "pani puri"; "bhel puri"]);
    ("Seafood", ["seafood"; "fish"; "prawns"; "crab"; "lobster"]) ].

Definition extractCuisineTypes (dom : Dom) (restaurantName : string) : list string :=
  let text := JS.toLowerCase (all_text dom "body" +:+ " " +:+ restaurantName) in
  let cuisines :=
    map fst
        (List.filter (fun entry => existsb (fun keyword => JS.includes text keyword)
                                           (snd entry))
                     cuisineKeywords) in
  if Nat.ltb 0 (List.length cuisines) then cuisines
  else ["Indian"] (* Default to Indian if none found *).

Section Service.
Context `{Host} `{Heuristics}.

(** [`${streetAddress} ${addressLocality || ''} ${postalCode || ''}`.trim()],
    when there is a street address. *)
Definition address_object (address : JSValue) : option string :=
  if JS.truthy (JS.prop address "streetAddress")
  then Some (JS.trim (JS.ToString (JS.prop address "streetAddress")
                      +:+ " "
                      +:+ JS.ToString (JS.or (JS.prop address "addressLocality") (JStr ""))
                      +:+ " "
                      +:+ JS.ToString (JS.or (JS.prop address "postalCode") (JStr ""))))
  else None.

(** [None] is [null]. *)
Definition findAddressText (dom : Dom) : option string :=
  match first_match dom long_text address_selectors with
  | Some text => Some text
  | None =>
      (* Check structured data *)
      match first_html dom ld_json_selector with
      | Some jsonLd =>
          if negb (String.eqb jsonLd "")
          then ignore_errors (ld_json_address address_object jsonLd)
          else None
      | None => None
      end
  end.

Definition extractAddress (dom : Dom) : JSValue :=
  match findAddressText dom with
  | Some addressText =>
      if negb (String.eqb addressText "") then parseIndianAddress addressText
      else JObj [("city", JStr "Unknown"); ("state", JStr "Unknown");
                 ("country", JStr "India")]
  | None =>
      JObj [("city", JStr "Unknown"); ("state", JStr "Unknown");
            ("country", JStr "India")]
  end.

(** [extractRestaurantData], given the reading of the clock for the
    provenance entry: the properties of the record it returns. *)
Definition extractRestaurantData (htmlContent sourceUrl : string) (now : Z)
  : list (string * JSValue) :=
  let dom := cheerio_load htmlContent in
  let name := extractName dom in
  [
    ("dataSources",
      JArr [JObj [("source", JStr "web-scraping");
                  ("url", JStr sourceUrl);
                  ("extractedAt", JStr (Date_toISOString now));
                  ("reliability", JNum (8 # 10))]]);
    ("name", JStr name);
    ("address", extractAddress dom);
    ("contactInfo", extractContactInfo dom);
    ("ratings", extractRatings dom);
    ("operatingHours", extractOperatingHours dom);
    ("priceRange", extractPriceRange dom);
    ("amenities", JArr (map JStr (extractAmenities dom)));
    ("cuisineTypes",
      JArr (map JStr (extractCuisineTypes dom
                        (if negb (String.eqb name "") then name else ""))))
  ].

End Service.

End DataExtractionService.

(** ** The environment of a run *)

(** What a run receives from outside the process.  Each oracle is indexed
    by the number of earlier uses, so that two calls need not agree. *)

(** The outcome of [axios.get]: it resolves with a response whose [data] is
    a string, [AxiosOk], or another value, [AxiosJson] (no [responseType] is
    asked for, so axios hands over the value of a body that is a JSON
    text); it rejects with an axios error and its message, [AxiosError], or
    with something else, [OtherError], whose message is that of the error,
    or Unknown error for what is no [Error]. *)
Inductive AxiosResult :=
| AxiosOk (data : string)
| AxiosJson (data : JSValue)
| AxiosError (message : string)
| OtherError (message : string).

Class Env := {
  (** the n-th [randomUUID()] *)
  randomUUID : nat -> string;
  (** the n-th reading of the clock, in milliseconds *)
  Date_now : nat -> Z;
  (** the n-th request: [axios.get(url, ...)] *)
  axios_get : nat -> string -> AxiosResult;
  (** the n-th request: [ai.models.generateContent] for an operation of the
      reasoning service and its request; the text of the response
      ([None] is [undefined]) or the error thrown. *)
  generateContent : nat -> string -> JSValue -> Completion (option string);
}.

(** ** [storage.ts] *)
Module MemStorage.

Record InsertRestaurant := {
  i_name : JSValue;
  i_address : JSValue;
  i_cuisineTypes : JSValue;
  i_contactInfo : JSValue;
  i_ratings : JSValue;
  i_operatingHours : JSValue;
  i_priceRange : JSValue;
  i_amenities : JSValue;
  i_dataSources : JSValue;
  i_status : string;
  i_completeness : string;
  i_accuracy : string;
  i_website : JSValue;
  i_description : JSValue;
}.

Record Restaurant := {
  r_id : string;
  r_name : JSValue;
  r_address : JSValue;
  r_cuisineTypes : JSValue;
  r_contactInfo : JSValue;
  r_ratings : JSValue;
  r_operatingHours : JSValue;
  r_priceRange : JSValue;
  r_amenities : JSValue;
  r_dataSources : JSValue;
  r_status : string;
  r_completeness : string;
  r_accuracy : string;
  r_extractedAt : Z;
  r_validatedAt : option Z;
  r_website : JSValue;
  r_description : JSValue;
}.

Record Agent := {
  a_id : string;
  a_name : string;
  a_type : string;
  a_status : string;
  a_config : JSValue;
  a_metrics : JSValue;
  a_lastActivity : option Z;
  a_createdAt : Z;
}.

Record DataSource := {
  d_id : string;
  d_name : string;
  d_type : string;
  d_url : option string;
  d_config : JSValue;
  d_status : string;
  d_lastSync : option Z;
  d_totalRecords : Z;
  d_successRate : string;
  d_createdAt : Z;
}.

Record ProcessingQueue := {
  q_id : string;
  q_restaurantName : string;
  q_sourceUrl : string;
  q_location : string;
  q_status : string;
  q_startedAt : option Z;
  q_completedAt : option Z;
  q_errorMessage : option string;
  q_createdAt : Z;
}.

Record InsertProcessingQueue := {
  iq_restaurantName : string;
  iq_sourceUrl : string;
  iq_location : string;
  iq_status : string;
}.

(** [Partial<ProcessingQueue>], with the fields the pipeline updates. *)
Record QueuePatch := {
  p_restaurantName : option string;
  p_status : option string;
  p_startedAt : option Z;
  p_completedAt : option Z;
  p_errorMessage : option string;
}.

Record ExtractionLog := {
  l_id : string;
  l_restaurantId : option string;
  l_agentId : option string;
  l_action : string;
  l_status : string;
  l_duration : Z;
  l_metadata : JSValue;
  l_createdAt : Z;
}.

Record SystemMetrics := {
  m_id : string;
  totalRestaurants : Z;
  activeAgents : Z;
  processingRate : Z;
  successRate : string;
  updatedAt : Z;
}.

Record State := {
  restaurants : gmap string Restaurant;
  agents : gmap string Agent;
  dataSources : gmap string DataSource;
  processingQueue : gmap string ProcessingQueue;
  extractionLogs : gmap string ExtractionLog;
  systemMetrics : SystemMetrics;
}.

Definition with_restaurants (m : gmap string Restaurant) (s : State) : State :=
  {| restaurants := m; agents := agents s; dataSources := dataSources s;
     processingQueue := processingQueue s; extractionLogs := extractionLogs s;
     systemMetrics := systemMetrics s |}.

Definition with_agents (m : gmap string Agent) (s : State) : State :=
  {| restaurants := restaurants s; agents := m; dataSources := dataSources s;
     processingQueue := processingQueue s; extractionLogs := extractionLogs s;
     systemMetrics := systemMetrics s |}.

Definition with_dataSources (m : gmap string DataSource) (s : State) : State :=
  {| restaurants := restaurants s; agents := agents s; dataSources := m;
     processingQueue := processingQueue s; extractionLogs := extractionLogs s;
     systemMetrics := systemMetrics s |}.

Definition with_processingQueue (m : gmap string ProcessingQueue) (s : State) : State :=
  {| restaurants := restaurants s; agents := agents s; dataSources := dataSources s;
     processingQueue := m; extractionLogs := extractionLogs s;
     systemMetrics := systemMetrics s |}.

Definition with_extractionLogs (m : gmap string ExtractionLog) (s : State) : State :=
  {| restaurants := restaurants s; agents := agents s; dataSources := dataSources s;
     processingQueue := processingQueue s; extractionLogs := m;
     systemMetrics := systemMetrics s |}.

Definition with_systemMetrics (m : SystemMetrics) (s : State) : State :=
  {| restaurants := restaurants s; agents := agents s; dataSources := dataSources s;
     processingQueue := processingQueue s; extractionLogs := extractionLogs s;
     systemMetrics := m |}.

Definition with_totalRestaurants (n : Z) (m : SystemMetrics) : SystemMetrics :=
  {| m_id := m_id m; totalRestaurants := n; activeAgents := activeAgents m;
     processingRate := processingRate m; successRate := successRate m;
     updatedAt := updatedAt m |}.

Definition with_activeAgents (n : Z) (m : SystemMetrics) : SystemMetrics :=
  {| m_id := m_id m; totalRestaurants := totalRestaurants m; activeAgents := n;
     processingRate := processingRate m; successRate := successRate m;
     updatedAt := updatedAt m |}.

Definition with_processingRate (n : Z) (m : SystemMetrics) : SystemMetrics :=
  {| m_id := m_id m; totalRestaurants := totalRestaurants m;
     activeAgents := activeAgents m; processingRate := n;
     successRate := successRate m; updatedAt := updatedAt m |}.

(** The restaurant that [createRestaurant] stores:
    [{...restaurant, id, description: restaurant.description || null,
      website: restaurant.website || null,
      cuisineTypes: restaurant.cuisineTypes || [],
      amenities: restaurant.amenities || [],
      extractedAt: new Date(), validatedAt: null}]. *)
Definition newRestaurant (id : string) (now : Z) (restaurant : InsertRestaurant)
  : Restaurant :=
  {| r_id := id;
     r_name := i_name restaurant;
     r_address := i_address restaurant;
     r_cuisineTypes := JS.or (i_cuisineTypes restaurant) (JArr []);
     r_contactInfo := i_contactInfo restaurant;
     r_ratings := i_ratings restaurant;
     r_operatingHours := i_operatingHours restaurant;
     r_priceRange := i_priceRange restaurant;
     r_amenities := JS.or (i_amenities restaurant) (JArr []);
     r_dataSources := i_dataSources restaurant;
     r_status := i_status restaurant;
     r_completeness := i_completeness restaurant;
     r_accuracy := i_accuracy restaurant;
     r_extractedAt := now;
     r_validatedAt := None;
     r_website := JS.or (i_website restaurant) JNull;
     r_description := JS.or (i_description restaurant) JNull |}.

(** [createRestaurant], given the UUID and the date it draws. *)
Definition createRestaurant (id : string) (now : Z) (restaurant : InsertRestaurant)
  (s : State) : Restaurant * State :=
  let s := with_restaurants (<[id := newRestaurant id now restaurant]> (restaurants s)) s in
  let s := with_systemMetrics
             (with_totalRestaurants (Z.of_nat (size (restaurants s))) (systemMetrics s)) s in
  (newRestaurant id now restaurant, s).

Definition deleteRestaurant (id : string) (s : State) : State :=
  let s := with_restaurants (delete id (restaurants s)) s in
  with_systemMetrics
    (with_totalRestaurants (Z.of_nat (size (restaurants s))) (systemMetrics s)) s.

Definition is_active (a : Agent) : bool :=
  String.eqb (a_status a) "active" || String.eqb (a_status a) "processing".

Definition updateActiveAgentsCount (s : State) : State :=
  let activeCount :=
    List.length (List.filter (fun kv => is_active (snd kv)) (map_to_list (agents s))) in
  with_systemMetrics (with_activeAgents (Z.of_nat activeCount) (systemMetrics s)) s.

(** [updateAgentStatus], given the date it draws. *)
Definition updateAgentStatus (id status : string) (now : Z) (s : State) : State :=
  match agents s !! id with
  | Some agent =>
      let agent :=
        {| a_id := a_id agent; a_name := a_name agent; a_type := a_type agent;
           a_status := status; a_config := a_config agent;
           a_metrics := a_metrics agent; a_lastActivity := Some now;
           a_createdAt := a_createdAt agent |} in
      updateActiveAgentsCount (with_agents (<[id := agent]> (agents s)) s)
  | None => s
  end.

(** [addToQueue], given the UUID and the date it draws. *)
Definition addToQueue (id : string) (now : Z) (item : InsertProcessingQueue) (s : State)
  : ProcessingQueue * State :=
  let queueItem :=
    {| q_id := id; q_restaurantName := iq_restaurantName item;
       q_sourceUrl := iq_sourceUrl item; q_location := iq_location item;
       q_status := iq_status item; q_startedAt := None; q_completedAt := None;
       q_errorMessage := None; q_createdAt := now |} in
  (queueItem, with_processingQueue (<[id := queueItem]> (processingQueue s)) s).

(** [{ ...existing, ...item }] *)
Definition patch (existing : ProcessingQueue) (item : QueuePatch) : ProcessingQueue :=
  {| q_id := q_id existing;
     q_restaurantName := default (q_restaurantName existing) (p_restaurantName item);
     q_sourceUrl := q_sourceUrl existing;
     q_location := q_location existing;
     q_status := default (q_status existing) (p_status item);
     q_startedAt := match p_startedAt item with
                    | Some t => Some t | None => q_startedAt existing end;
     q_completedAt := match p_completedAt item with
                      | Some t => Some t | None => q_completedAt existing end;
     q_errorMessage := match p_errorMessage item with
                       | Some e => Some e | None => q_errorMessage existing end;
     q_createdAt := q_createdAt existing |}.

Definition updateQueueItem (id : string) (item : QueuePatch) (s : State)
  : Completion ProcessingQueue * State :=
  match processingQueue s !! id with
  | None => (Throw (JsError "Queue item not found"), s)
  | Some existing =>
      let updated := patch existing item in
      (Normal updated, with_processingQueue (<[id := updated]> (processingQueue s)) s)
  end.

(** [createExtractionLog], given the UUID and the date it draws. *)
Definition createExtractionLog (id : string) (now : Z)
  (restaurantId : option string) (action status : string) (duration : Z)
  (metadata : JSValue) (s : State) : ExtractionLog * State :=
  let newLog :=
    {| l_id := id; l_restaurantId := restaurantId; l_agentId := None;
       l_action := action; l_status := status; l_duration := duration;
       l_metadata := metadata; l_createdAt := now |} in
  (newLog, with_extractionLogs (<[id := newLog]> (extractionLogs s)) s).

(** The default agents and data sources of [initializeDefaultData]. *)
Definition defaultAgents : list (string * string * string * JSValue * JSValue) :=
  [ ("Web Scraper Agent", "web-scraper", "active",
     JObj [("maxConcurrent", JNum 5); ("timeout", JNum 30000)],
     JObj [("requestsToday", JNum 145); ("successRate", JNum (985 # 10));
           ("totalProcessed", JNum 2341)]);
    ("Data Extractor Agent", "data-extractor", "active",
     JObj [("batchSize", JNum 10); ("retryAttempts", JNum 3)],
     JObj [("requestsToday", JNum 134); ("successRate", JNum (962 # 10));
           ("totalProcessed", JNum 2156)]);
    ("Schema Validator Agent", "schema-validator", "processing",
     JObj [("strictMode", JBool true); ("validateAll", JBool true)],
     JObj [("requestsToday", JNum 128); ("successRate", JNum (991 # 10));
           ("totalProcessed", JNum 2089)]);
    ("Gemini LLM Agent", "gemini-llm", "idle",
     JObj [("model", JStr "gemini-2.5-pro"); ("temperature", JNum (3 # 10));
           ("maxTokens", JNum 2048)],
     JObj [("requestsToday", JNum 67); ("successRate", JNum (978 # 10));
           ("avgResponseTime", JNum (13 # 10)); ("totalProcessed", JNum 456)]) ].

Definition defaultDataSources
  : list (string * string * option string * JSValue * string * Z * string) :=
  [ ("Restaurant Websites", "web-scraping", Some "various",
     JObj [("crawlDepth", JNum 2); ("respectRobots", JBool true)],
     "active", 8245%Z, "94.7");
    ("Google Places API", "api", Some "https://maps.googleapis.com/maps/api/place",
     JObj [("apiKey", JStr "configured"); ("fields", JStr "all")],
     "active", 12456%Z, "98.9");
    ("Public Datasets", "dataset", None,
     JObj [("format", JStr "csv"); ("updateFrequency", JStr "daily")],
     "active", 3421%Z, "89.3") ].

Section Constructor.
Context `{Env}.

(** The agents map after the [forEach]: the k-th default agent takes the
    UUID and the two dates drawn for it. *)
Fixpoint seed_agents (u c : nat)
  (l : list (string * string * string * JSValue * JSValue))
  (m : gmap string Agent) : gmap string Agent :=
  match l with
  | [] => m
  | (name, type, status, config, metrics) :: rest =>
      seed_agents (S u) (S (S c)) rest
        (<[randomUUID u :=
             {| a_id := randomUUID u; a_name := name; a_type := type;
                a_status := status; a_config := config; a_metrics := metrics;
                a_lastActivity := Some (Date_now c);
                a_createdAt := Date_now (S c) |}]> m)
  end.

Fixpoint seed_dataSources (u c : nat)
  (l : list (string * string * option string * JSValue * string * Z * string))
  (m : gmap string DataSource) : gmap string DataSource :=
  match l with
  | [] => m
  | (name, type, url, config, status, totalRecords, rate) :: rest =>
      seed_dataSources (S u) (S (S c)) rest
        (<[randomUUID u :=
             {| d_id := randomUUID u; d_name := name; d_type := type;
                d_url := match url with
                         | Some x => if String.eqb x "" then None else Some x
                         | None => None
                         end;
                d_config := config; d_status := status;
                d_lastSync := Some (Date_now c); d_totalRecords := totalRecords;
                d_successRate := rate; d_createdAt := Date_now (S c) |}]> m)
  end.

(** [new MemStorage()], the first to draw UUIDs and dates: empty maps and
    zeroed metrics, then [initializeDefaultData]. *)
Definition constructor : State :=
  let s :=
    {| restaurants := ∅; agents := ∅; dataSources := ∅; processingQueue := ∅;
       extractionLogs := ∅;
       systemMetrics :=
         {| m_id := randomUUID 0; totalRestaurants := 0; activeAgents := 0;
            processingRate := 0; successRate := "94.2"; updatedAt := Date_now 0 |} |} in
  let s := with_agents (seed_agents 1 1 defaultAgents (agents s)) s in
  let s := with_dataSources (seed_dataSources 5 9 defaultDataSources (dataSources s)) s in
  let s := with_systemMetrics (with_totalRestaurants 12847 (systemMetrics s)) s in
  let s := with_systemMetrics (with_activeAgents 4 (systemMetrics s)) s in
  with_systemMetrics (with_processingRate 145 (systemMetrics s)) s.

End Constructor.

End MemStorage.

(** ** The process state and its effects *)

(** The running totals of [GeminiService]. *)
Record GeminiService := {
  requestCount : nat;
  successCount : nat;
  totalResponseTime : Z;
}.

Module Agents.

Record AgentMetrics := {
  requestsToday : Z;
  successRate : float;
  avgResponseTime : option float;
  totalProcessed : Z;
  errorCount : Z;
  lastError : option string;
}.

Record BaseAgent := {
  id : string;
  name : string;
  type : string;
  metrics : AgentMetrics;
  status : string;
}.

(** [((totalProcessed - errorCount) / totalProcessed) * 100], in doubles:
    the quotient is rounded, then the product. *)
Definition rate (m_totalProcessed m_errorCount : Z) : float :=
  (JS.double (m_totalProcessed - m_errorCount) / JS.double m_totalProcessed * 100)%float.

(** [updateMetrics(success, responseTime, error)], always called with a
    response time. *)
Definition updateMetrics (success : bool) (responseTime : Z) (error : option string)
  (m : AgentMetrics) : AgentMetrics :=
  let requests := (requestsToday m + 1)%Z in
  let total := (totalProcessed m + 1)%Z in
  let errors := if success then errorCount m else (errorCount m + 1)%Z in
  {| requestsToday := requests;
     successRate := rate total errors;
     avgResponseTime := Some (JS.double responseTime / 1000)%float;
     totalProcessed := total;
     errorCount := errors;
     lastError := if success then lastError m else error |}.

Definition with_metrics (m : AgentMetrics) (a : BaseAgent) : BaseAgent :=
  {| id := id a; name := name a; type := type a; metrics := m; status := status a |}.

Definition with_status (st : string) (a : BaseAgent) : BaseAgent :=
  {| id := id a; name := name a; type := type a; metrics := metrics a; status := st |}.

End Agents.

(** The events of a run.  The journal that collects them is not in the
    source: it records the stage changes written to the queue, the outcome
    of the validator and the calls that leave the process, for the
    statements about "some stage is entered" and "no call is made". *)
Inductive Event :=
| QueueStatus (id status : string)
| Validated (id : string) (outcome : SchemaValidationService.ValidationResult)
| HttpGet (url : string)
| LlmRequest (operation : string) (request : JSValue).

(** The module-level singletons: [storage], [agentManager] (its agents in
    insertion order) and [geminiService]; the numbers of UUIDs, dates and
    requests drawn so far; the journal. *)
Record World := {
  storage : MemStorage.State;
  agentManager : list Agents.BaseAgent;
  geminiService : GeminiService;
  uuids : nat;
  clock : nat;
  requests : nat;
  journal : list Event;
}.

Definition with_storage (s : MemStorage.State) (w : World) : World :=
  {| storage := s; agentManager := agentManager w; geminiService := geminiService w;
     uuids := uuids w; clock := clock w; requests := requests w; journal := journal w |}.

Definition with_agentManager (l : list Agents.BaseAgent) (w : World) : World :=
  {| storage := storage w; agentManager := l; geminiService := geminiService w;
     uuids := uuids w; clock := clock w; requests := requests w; journal := journal w |}.

Definition with_geminiService (g : GeminiService) (w : World) : World :=
  {| storage := storage w; agentManager := agentManager w; geminiService := g;
     uuids := uuids w; clock := clock w; requests := requests w; journal := journal w |}.

(** A computation of the services: a value or a thrown exception, and the
    state it leaves.  A call runs from its start to its end on the state:
    the interleaving of other requests of the server at the [await]s of a
    call is outside the model. *)
Definition Eff (A : Type) : Type := World -> Completion A * World.

#[export] Instance Eff_ret : MRet Eff := fun _ a w => (Normal a, w).
#[export] Instance Eff_bind : MBind Eff :=
  fun _ _ f c w =>
    match c w with
    | (Normal a, w') => f a w'
    | (Throw e, w') => (Throw e, w')
    end.

Definition throw {A} (e : Exn) : Eff A := fun w => (Throw e, w).

(** [try { body } catch (error) { handler }] *)
Definition try_catch {A} (body : Eff A) (handler : Exn -> Eff A) : Eff A :=
  fun w =>
    match body w with
    | (Normal a, w') => (Normal a, w')
    | (Throw e, w') => handler e w'
    end.

Definition lift {A} (c : Completion A) : Eff A := fun w => (c, w).

(** A method of [storage], run on the storage of the world. *)
Definition on_storage {A} (f : MemStorage.State -> A * MemStorage.State) : Eff A :=
  fun w => let (a, s) := f (storage w) in (Normal a, with_storage s w).

Definition try_storage {A} (f : MemStorage.State -> Completion A * MemStorage.State)
  : Eff A :=
  fun w => let (r, s) := f (storage w) in (r, with_storage s w).

Definition modify_gemini (f : GeminiService -> GeminiService) : Eff unit :=
  fun w => (Normal tt, with_geminiService (f (geminiService w)) w).

Definition record (e : Event) : Eff unit :=
  fun w =>
    (Normal tt,
     {| storage := storage w; agentManager := agentManager w;
        geminiService := geminiService w; uuids := uuids w; clock := clock w;
        requests := requests w; journal := journal w ++ [e] |}).

Section Effects.
Context `{Host} `{Heuristics} `{Env}.

Definition draw_uuid : Eff string :=
  fun w =>
    (Normal (randomUUID (uuids w)),
     {| storage := storage w; agentManager := agentManager w;
        geminiService := geminiService w; uuids := S (uuids w); clock := clock w;
        requests := requests w; journal := journal w |}).

(** [new Date()] and [Date.now()] *)
Definition read_clock : Eff Z :=
  fun w =>
    (Normal (Date_now (clock w)),
     {| storage := storage w; agentManager := agentManager w;
        geminiService := geminiService w; uuids := uuids w; clock := S (clock w);
        requests := requests w; journal := journal w |}).

Definition next_request : Eff nat :=
  fun w =>
    (Normal (requests w),
     {| storage := storage w; agentManager := agentManager w;
        geminiService := geminiService w; uuids := uuids w; clock := clock w;
        requests := S (requests w); journal := journal w |}).

(** *** The calls on [storage] *)

Definition storage_addToQueue (item : MemStorage.InsertProcessingQueue)
  : Eff MemStorage.ProcessingQueue :=
  id ← draw_uuid;
  now ← read_clock;
  queueItem ← on_storage (MemStorage.addToQueue id now item);
  _ ← record (QueueStatus id (MemStorage.iq_status item));
  mret queueItem.

Definition storage_updateQueueItem (id : string) (item : MemStorage.QueuePatch)
  : Eff MemStorage.ProcessingQueue :=
  updated ← try_storage (MemStorage.updateQueueItem id item);
  _ ← match MemStorage.p_status item with
      | Some st => record (QueueStatus id st)
      | None => mret tt
      end;
  mret updated.

Definition storage_createRestaurant (restaurant : MemStorage.InsertRestaurant)
  : Eff MemStorage.Restaurant :=
  id ← draw_uuid;
  now ← read_clock;
  on_storage (MemStorage.createRestaurant id now restaurant).

Definition storage_createExtractionLog (restaurantId : option string)
  (action status : string) (duration : Z) (metadata : JSValue)
  : Eff MemStorage.ExtractionLog :=
  id ← draw_uuid;
  now ← read_clock;
  on_storage (MemStorage.createExtractionLog id now restaurantId action status
                duration metadata).

Definition storage_updateAgentStatus (id status : string) : Eff unit :=
  fun w =>
    match MemStorage.agents (storage w) !! id with
    | Some _ =>
        (now ← read_clock;
         on_storage (fun s => (tt, MemStorage.updateAgentStatus id status now s))) w
    | None => (Normal tt, w)
    end.

(** *** [webScraper.ts]: [scrapeRestaurant] *)

(** The [try] holds the request, the load of the body and the queries;
    what any of them throws that is no axios error is thrown again as a
    scraping error. *)
Definition scrapeRestaurant (url : string) : Eff WebScrapingService.ScrapedData :=
  n ← next_request;
  _ ← record (HttpGet url);
  match axios_get n url with
  | AxiosOk data =>
      mret (WebScrapingService.scrape_page url (cheerio_load data))
  | AxiosJson data =>
      match cheerio_load_value data with
      | inl dom => mret (WebScrapingService.scrape_page url dom)
      | inr msg => throw (JsError ("Scraping error: " +:+ msg))
      end
  | AxiosError msg =>
      throw (JsError ("Failed to scrape " +:+ url +:+ ": " +:+ msg))
  | OtherError msg =>
      throw (JsError ("Scraping error: " +:+ msg))
  end.

(** *** [dataExtractor.ts]: [extractRestaurantData] *)

Definition extractRestaurantData (htmlContent sourceUrl : string)
  : Eff (list (string * JSValue)) :=
  now ← read_clock;
  mret (DataExtractionService.extractRestaurantData htmlContent sourceUrl now).

(** *** [gemini.ts] *)

Definition add_response_time (startTime : Z) : Eff unit :=
  now ← read_clock;
  modify_gemini
    (fun g => {| requestCount := requestCount g; successCount := successCount g;
                 totalResponseTime := (totalResponseTime g + (now - startTime))%Z |}).

(** The user prompts.  Each method builds its prompt inside the [try],
    from a template literal over the request: the read of a property of
    [undefined] or [null], a call of [map] or [join] on a value that has no
    such method, and the conversion of an object that has a [toString] of
    its own throw a TypeError there, before a request is sent.  The text of
    the prompt goes to the model, for which the oracle stands, so what is
    kept of the template is what it reads and converts, in its order, and
    what it throws. *)
Definition synthesis_prompt (request : JSValue) : Completion unit :=
  restaurantName ← JSExn.get request "restaurantName";
  _ ← JSExn.to_text restaurantName;
  conflictingData ← JSExn.get request "conflictingData";
  sources ← JSExn.as_array "request.conflictingData" "map" conflictingData;
  (fix each (l : list JSValue) : Completion unit :=
     match l with
     | [] => mret tt
     | source :: rest =>
         name ← JSExn.get source "source";
         _ ← JSExn.to_text name;
         reliability ← JSExn.get source "reliability";
         _ ← JSExn.to_text reliability;
         _ ← JSExn.get source "data";
         each rest
     end) sources.

(** [${value ? `label: ${value}` : ''}] *)
Definition optional_line (value : JSValue) : Completion unit :=
  if JS.truthy value then JSExn.to_text value else mret tt.

Definition cuisine_prompt (request : JSValue) : Completion unit :=
  restaurantName ← JSExn.get request "restaurantName";
  _ ← JSExn.to_text restaurantName;
  description ← JSExn.get request "description";
  _ ← optional_line description;
  menuItems ← JSExn.get request "menuItems";
  _ ← (if JS.truthy menuItems
       then items ← JSExn.as_array "request.menuItems" "join" menuItems;
            JSExn.join items
       else mret tt);
  location ← JSExn.get request "location";
  optional_line location.

Definition address_prompt (request : JSValue) : Completion unit :=
  rawAddress ← JSExn.get request "rawAddress";
  _ ← JSExn.to_text rawAddress;
  restaurantName ← JSExn.get request "restaurantName";
  _ ← JSExn.to_text restaurantName;
  city ← JSExn.get request "city";
  _ ← JSExn.to_text city;
  state ← JSExn.get request "state";
  JSExn.to_text state.

(** [response.text || fallback] *)
Definition response_text (fallback : string) (response : option string) : string :=
  match response with
  | Some t => if String.eqb t "" then fallback else t
  | None => fallback
  end.

(** The body that [synthesizeRestaurantData], [classifyCuisine] and
    [validateAddress] share: count the request, build the prompt, send it,
    and parse the text of the response ([fallback] when there is none);
    whatever fails is thrown again as an [Error] with the prefix of the
    operation. *)
Definition gemini_call (operation : string) (prompt : JSValue -> Completion unit)
  (fallback failure : string) (request : JSValue) : Eff JSValue :=
  startTime ← read_clock;
  _ ← modify_gemini
        (fun g => {| requestCount := S (requestCount g); successCount := successCount g;
                     totalResponseTime := totalResponseTime g |});
  try_catch
    (_ ← lift (prompt request);
     n ← next_request;
     _ ← record (LlmRequest operation request);
     response ← lift (generateContent n operation request);
     _ ← add_response_time startTime;
     _ ← modify_gemini
           (fun g => {| requestCount := requestCount g;
                        successCount := S (successCount g);
                        totalResponseTime := totalResponseTime g |});
     let text := response_text fallback response in
     match JSON_parse text with
     | Some v => mret v
     | None => throw (JsError (SyntaxError_message text))
     end)
    (fun error =>
       _ ← add_response_time startTime;
       throw (JsError (failure +:+ error_message error))).

Definition synthesizeRestaurantData : JSValue -> Eff JSValue :=
  gemini_call "synthesis" synthesis_prompt "{}" "Gemini synthesis failed: ".

Definition classifyCuisine : JSValue -> Eff JSValue :=
  gemini_call "cuisine" cuisine_prompt "[]" "Gemini cuisine classification failed: ".

Definition validateAddress : JSValue -> Eff JSValue :=
  gemini_call "address" address_prompt "{}" "Gemini address validation failed: ".

(** *** [agents.ts] *)

(** The agents are objects shared with the manager: a handle on one is its
    position in [agentManager]. *)
Definition getAgentsByType (type : string) : Eff (list nat) :=
  fun w =>
    (Normal (map fst
               (List.filter (fun ia => String.eqb (Agents.type (snd ia)) type)
                            (imap (fun i a => (i, a)) (agentManager w)))),
     w).

Definition modify_agent (handle : nat) (f : Agents.BaseAgent -> Agents.BaseAgent)
  : Eff unit :=
  fun w => (Normal tt, with_agentManager (alter f handle (agentManager w)) w).

(** [updateStatus]: the agent's own status, then the one in storage. *)
Definition updateStatus (handle : nat) (status : string) : Eff unit :=
  _ ← modify_agent handle (Agents.with_status status);
  ((fun w =>
      match agentManager w !! handle with
      | Some a => storage_updateAgentStatus (Agents.id a) status w
      | None => (Normal tt, w)
      end) : Eff unit).

Definition updateMetrics (handle : nat) (success : bool) (responseTime : Z)
  (error : option string) : Eff unit :=
  modify_agent handle
    (fun a => Agents.with_metrics
                (Agents.updateMetrics success responseTime error (Agents.metrics a)) a).

(** [GeminiLLMAgent.process] *)
Definition GeminiLLMAgent_process (handle : nat) (data : JSValue) : Eff JSValue :=
  startTime ← read_clock;
  _ ← updateStatus handle "active";
  try_catch
    (type ← lift (JSExn.get data "type");
     request ← lift (JSExn.get data "request");
     result ←
       (if JS.is_string "synthesis" type then synthesizeRestaurantData request
        else if JS.is_string "cuisine" type then classifyCuisine request
        else if JS.is_string "address" type then validateAddress request
        else throw (JsError ("Unknown processing type: " +:+ JS.ToString type)));
     now ← read_clock;
     _ ← updateMetrics handle true (now - startTime) None;
     _ ← updateStatus handle "idle";
     mret result)
    (fun error =>
       now ← read_clock;
       _ ← updateMetrics handle false (now - startTime) (Some (error_message error));
       _ ← updateStatus handle "error";
       throw error).

End Effects.

(** ** [orchestrator.ts]: [processRestaurantUrl] *)
Module PipelineOrchestrator.
Import SchemaValidationService.

Definition status_patch (st : string) : MemStorage.QueuePatch :=
  {| MemStorage.p_restaurantName := None; MemStorage.p_status := Some st;
     MemStorage.p_startedAt := None; MemStorage.p_completedAt := None;
     MemStorage.p_errorMessage := None |}.

(** [record.key] on the record that the extractor returns. *)
Definition field (key : string) (record : list (string * JSValue)) : JSValue :=
  JS.prop (JObj record) key.

(** [!validationResult.isValid || validationResult.completeness < 80] *)
Definition needs_llm (validationResult : ValidationResult) : bool :=
  negb (isValid validationResult) || Z.ltb (completeness validationResult) 80.

Definition cuisine_request (scrapedData : WebScrapingService.ScrapedData)
  (extractedData : list (string * JSValue)) : JSValue :=
  JObj [
    ("type", JStr "cuisine");
    ("request",
      JObj [
        ("restaurantName", JS.or (field "name" extractedData) (JStr "Unknown"));
        ("description",
          match WebScrapingService.description scrapedData with
          | Some d => JStr d
          | None => JUndefined
          end);
        ("location",
          match field "address" extractedData with
          | JUndefined | JNull => JUndefined
          | address => JS.prop address "city"
          end)
      ])
  ].

Definition address_request (extractedData : list (string * JSValue)) : JSValue :=
  let address := field "address" extractedData in
  JObj [
    ("type", JStr "address");
    ("request",
      JObj [
        ("rawAddress", JS.or (JS.prop address "street") (JStr ""));
        ("restaurantName", JS.or (field "name" extractedData) (JStr "Unknown"));
        ("city", JS.prop address "city");
        ("state", JS.prop address "state")
      ])
  ].

(** The argument of [storage.createRestaurant] in step 5. *)
Definition to_insert (url : string) (validationResult : ValidationResult)
  (finalData : list (string * JSValue)) : MemStorage.InsertRestaurant :=
  {| MemStorage.i_name := JS.or (field "name" finalData) (JStr "Unknown Restaurant");
     MemStorage.i_address :=
       JS.or (field "address" finalData)
             (JObj [("city", JStr "Unknown"); ("state", JStr "Unknown");
                    ("country", JStr "India")]);
     MemStorage.i_cuisineTypes :=
       JS.or (field "cuisineTypes" finalData) (JArr [JStr "Indian"]);
     MemStorage.i_contactInfo := JS.or (field "contactInfo" finalData) (JObj []);
     MemStorage.i_ratings :=
       JS.or (field "ratings" finalData) (JObj [("sources", JObj [])]);
     MemStorage.i_operatingHours := JS.or (field "operatingHours" finalData) (JObj []);
     MemStorage.i_priceRange := JS.or (field "priceRange" finalData) (JStr "mid-range");
     MemStorage.i_amenities := JS.or (field "amenities" finalData) (JArr []);
     MemStorage.i_dataSources := JS.or (field "dataSources" finalData) (JArr []);
     MemStorage.i_status := if isValid validationResult then "validated" else "pending";
     MemStorage.i_completeness := pretty (completeness validationResult);
     MemStorage.i_accuracy := pretty (accuracy validationResult);
     MemStorage.i_website := JStr url;
     MemStorage.i_description := JUndefined |}.

Section Service.
Context `{Host} `{Heuristics} `{Env}.

(** Step 4, the body of the [if]: the two conditional calls of the Gemini
    agent.  [finalData] and [extractedData] are one object in the source;
    the record returned is that object after the assignments. *)
Definition llm_processing (queueId : string)
  (scrapedData : WebScrapingService.ScrapedData)
  (validationResult : ValidationResult) (extractedData : list (string * JSValue))
  : Eff (list (string * JSValue)) :=
  _ ← storage_updateQueueItem queueId (status_patch "llm_processing");
  (* Use Gemini for cuisine classification if missing *)
  extractedData ←
    (if negb (JS.truthy (field "cuisineTypes" extractedData))
        || JS.is_num 0 (JS.prop (field "cuisineTypes" extractedData) "length")
     then
       agents ← getAgentsByType "gemini-llm";
       match agents with
       | geminiAgent :: _ =>
           cuisineTypes ← GeminiLLMAgent_process geminiAgent
                            (cuisine_request scrapedData extractedData);
           mret (JS.set "cuisineTypes" cuisineTypes extractedData)
       | [] => mret extractedData
       end
     else mret extractedData);
  (* Use Gemini for address validation if needed *)
  if JS.truthy (field "address" extractedData)
     && existsb (String.eqb "Missing geographical coordinates")
                (warnings validationResult)
  then
    agents ← getAgentsByType "gemini-llm";
    match agents with
    | geminiAgent :: _ =>
        validatedAddress ← GeminiLLMAgent_process geminiAgent
                             (address_request extractedData);
        mret (JS.set "address"
                (JObj (JS.spread (JS.own_props (field "address" extractedData))
                                 (JS.own_props validatedAddress)))
                extractedData)
    | [] => mret extractedData
    end
  else mret extractedData.

(** The [try] block of [processRestaurantUrl]. *)
Definition stages (url : string) (queueItem : MemStorage.ProcessingQueue) : Eff unit :=
  let queueId := MemStorage.q_id queueItem in
  startedAt ← read_clock;
  _ ← storage_updateQueueItem queueId
        {| MemStorage.p_restaurantName := None;
           MemStorage.p_status := Some "scraping";
           MemStorage.p_startedAt := Some startedAt;
           MemStorage.p_completedAt := None;
           MemStorage.p_errorMessage := None |};
  (* Step 1: Web Scraping *)
  webScraperAgents ← getAgentsByType "web-scraper";
  if Nat.eqb (List.length webScraperAgents) 0
  then throw (JsError "No web scraper agents available")
  else
    scrapedData ← scrapeRestaurant url;
    _ ← storage_updateQueueItem queueId
          {| MemStorage.p_restaurantName := Some (WebScrapingService.title scrapedData);
             MemStorage.p_status := Some "extracting";
             MemStorage.p_startedAt := None;
             MemStorage.p_completedAt := None;
             MemStorage.p_errorMessage := None |};
    (* Step 2: Data Extraction *)
    extractedData ← extractRestaurantData (WebScrapingService.rawContent scrapedData) url;
    (* Step 3: Schema Validation *)
    _ ← storage_updateQueueItem queueId (status_patch "validating");
    validationResult ← lift (validateRestaurantData (JObj extractedData));
    _ ← record (Validated queueId validationResult);
    (* Step 4: Gemini LLM Processing (if needed) *)
    finalData ←
      (if needs_llm validationResult
       then llm_processing queueId scrapedData validationResult extractedData
       else mret extractedData);
    (* Step 5: Save to database *)
    restaurant ← storage_createRestaurant (to_insert url validationResult finalData);
    completedAt ← read_clock;
    _ ← storage_updateQueueItem queueId
          {| MemStorage.p_restaurantName := None;
             MemStorage.p_status := Some "completed";
             MemStorage.p_startedAt := None;
             MemStorage.p_completedAt := Some completedAt;
             MemStorage.p_errorMessage := None |};
    (* Log the extraction *)
    now ← read_clock;
    _ ← storage_createExtractionLog
          (Some (MemStorage.r_id restaurant)) "full_extraction" "success"
          (now - MemStorage.q_createdAt queueItem)
          (JObj [("url", JStr url);
                 ("completeness", JNum (inject_Z (completeness validationResult)));
                 ("accuracy", JNum (inject_Z (accuracy validationResult)))]);
    mret tt.

(** The [catch] block: mark the queue entry failed and throw again. *)
Definition failed (queueItem : MemStorage.ProcessingQueue) (error : Exn) : Eff unit :=
  completedAt ← read_clock;
  _ ← storage_updateQueueItem (MemStorage.q_id queueItem)
        {| MemStorage.p_restaurantName := None;
           MemStorage.p_status := Some "failed";
           MemStorage.p_startedAt := None;
           MemStorage.p_completedAt := Some completedAt;
           MemStorage.p_errorMessage := Some (error_message error) |};
  throw error.

Definition processRestaurantUrl (url : string) : Eff unit :=
  (* Add to processing queue *)
  queueItem ← storage_addToQueue
                {| MemStorage.iq_restaurantName := "Processing...";
                   MemStorage.iq_sourceUrl := url;
                   MemStorage.iq_location := "Unknown";
                   MemStorage.iq_status := "queued" |};
  try_catch (stages url queueItem) (failed queueItem).

End Service.

End PipelineOrchestrator.

(** ** A host, a page and a world to run the services on

    The theorems below hold for every host, every heuristic and every
    environment.  The instances of this module serve to run the services on
    concrete inputs; what their functions answer outside the inputs used
    is of no consequence. *)
Module Sample.

(** A record that the schema accepts, for a given name. *)
Definition record (name : JSValue) : list (string * JSValue) :=
  [ ("name", name);
    ("address", JObj [("city", JStr "Pune"); ("state", JStr "Maharashtra");
                      ("country", JStr "India")]);
    ("cuisineTypes", JArr [JStr "North Indian"]);
    ("contactInfo", JObj []);
    ("ratings", JObj [("sources", JObj [])]);
    ("operatingHours",
      JObj [("monday", JObj [("open", JStr "10:00"); ("close", JStr "22:00")])]);
    ("priceRange", JStr "mid-range");
    ("amenities", JArr []);
    ("dataSources",
      JArr [JObj [("source", JStr "web-scraping");
                  ("extractedAt", JStr "2024-01-01T00:00:00.000Z");
                  ("reliability", JNum (8 # 10))]]) ].

(** The same record without its name and without the city. *)
Definition record_without_name_and_city : list (string * JSValue) :=
  [ ("address", JObj [("state", JStr "Maharashtra"); ("country", JStr "India")]);
    ("cuisineTypes", JArr [JStr "North Indian"]);
    ("contactInfo", JObj []);
    ("ratings", JObj [("sources", JObj [])]);
    ("operatingHours",
      JObj [("monday", JObj [("open", JStr "10:00"); ("close", JStr "22:00")])]);
    ("priceRange", JStr "mid-range");
    ("amenities", JArr []);
    ("dataSources",
      JArr [JObj [("source", JStr "web-scraping");
                  ("extractedAt", JStr "2024-01-01T00:00:00.000Z");
                  ("reliability", JNum (8 # 10))]]) ].


(** The JSON-LD block of the page: an object with [address] as a string. *)
Definition ld_json_block : string :=
  "{" +:+ dq +:+ "address" +:+ dq +:+ ": "
      +:+ dq +:+ "Plot 7, Linking Road, Mumbai" +:+ dq +:+ "}".

Definition loose_address : string := "12 MG Road, Pune, Maharashtra 411001".

Definition structured_address : string := "Plot 7, Linking Road, Mumbai".

(** A page with an element of class [address] and a JSON-LD block. *)
Definition page : Dom :=
  {| first_text := fun selector =>
       if String.eqb selector "h1" then Some "Spice Route"
       else if String.eqb selector ".address" then Some ("  " +:+ loose_address +:+ " ")
       else None;
     first_attr := fun _ _ => None;
     all_text := fun selector =>
       if String.eqb selector "body"
       then "Spice Route. Butter chicken and naan from the tandoor. Free parking."
       else "";
     first_html := fun selector =>
       if String.eqb selector ld_json_selector then Some ld_json_block else None;
     html := "<html>Spice Route</html>" |}.

#[export] Instance host : Host :=
  {| StringToNumber := fun _ => None;
     NumberToString := fun q => pretty (Qfloor q);
     zod_isEmail := fun s => SchemaValidationService.emailRegex_test "" s;
     zod_isUrl := fun s => JS.startsWith s "http";
     JSON_parse := fun s =>
       if String.eqb s ld_json_block
       then Some (JObj [("address", JStr structured_address)])
       else if String.eqb s "[]" then Some (JArr [])
       else if String.eqb s "{}" then Some (JObj [])
       else None;
     SyntaxError_message := fun s => "Unexpected token in JSON at position 0";
     cheerio_load := fun _ => page;
     cheerio_load_value := fun _ => inr "cheerio.load() expects a string";
     Date_toISOString := fun t => pretty t;
     ZodError_message := fun issues => JS.join "; " (map message issues) |}.

#[export] Instance heuristics : Heuristics :=
  {| parseIndianAddress := fun addressText =>
       JObj [("country", JStr "India"); ("postalCode", JStr "411001");
             ("state", JStr "Maharashtra"); ("city", JStr "Pune");
             ("street", JStr addressText); ("formatted", JStr addressText)];
     extractContactInfo := fun _ => JObj [];
     extractRatings := fun _ => JObj [("sources", JObj [])];
     extractOperatingHours := fun _ =>
       JObj [("monday", JObj [("open", JStr "10:00"); ("close", JStr "22:00")])];
     extractPriceRange := fun _ => JStr "mid-range" |}.

Definition reachable_url : string := "https://spice-route.example".

Definition unreachable_url : string := "https://no-such-host.example".

#[export] Instance env : Env :=
  {| randomUUID := fun n => "uuid-" +:+ pretty n;
     Date_now := fun n => (1700000000000 + Z.of_nat n)%Z;
     axios_get := fun _ url =>
       if String.eqb url reachable_url then AxiosOk "<html>Spice Route</html>"
       else AxiosError "getaddrinfo ENOTFOUND";
     generateContent := fun _ _ _ => Normal (Some "[]") |}.

Definition agent (n : nat) (name type : string) : Agents.BaseAgent :=
  {| Agents.id := randomUUID n; Agents.name := name; Agents.type := type;
     Agents.metrics :=
       {| Agents.requestsToday := 0; Agents.successRate := 100%float;
          Agents.avgResponseTime := None; Agents.totalProcessed := 0;
          Agents.errorCount := 0; Agents.lastError := None |};
     Agents.status := "idle" |}.

(** The process after start-up: the storage as its constructor leaves it and
    one agent object for each agent in storage. *)
Definition world : World :=
  {| storage := MemStorage.constructor;
     agentManager :=
       [ agent 1 "Web Scraper Agent" "web-scraper";
         agent 2 "Data Extractor Agent" "data-extractor";
         agent 3 "Schema Validator Agent" "schema-validator";
         agent 4 "Gemini LLM Agent" "gemini-llm" ];
     geminiService := {| requestCount := 0; successCount := 0; totalResponseTime := 0 |};
     uuids := 8; clock := 15; requests := 0; journal := [] |}.

End Sample.

(** ** The completeness score as the specification words it

    A field counts if it is present, non-null and non-empty; each required
    field contributes an equal share of 70 points and each optional field
    an equal share of 30.  These definitions follow the words of the
    specification, for comparison with [hasField] and
    [calculateCompleteness] above. *)
Module Spec.

(** The value at a dotted path, [undefined] when the path leaves the data. *)
Fixpoint at_path (v : JSValue) (keys : list string) : JSValue :=
  match keys with
  | [] => v
  | key :: rest =>
      match v with
      | JObj props => at_path (default JUndefined (JS.assoc key props)) rest
      | _ => JUndefined
      end
  end.

Definition counts (data : JSValue) (path : string) : bool :=
  let v := at_path data (JS.split "." path) in
  negb (JS.is_undefined v) && negb (JS.is_null v) && negb (JS.is_string "" v).

Definition present (data : JSValue) (fields : list string) : nat :=
  List.length (List.filter (counts data) fields).

Definition completeness (data : JSValue) : Z :=
  JS.Math_round
    (inject_Z (Z.of_nat (present data SchemaValidationService.requiredFields))
       * (70 # 11)
     + inject_Z (Z.of_nat (present data SchemaValidationService.optionalFields))
       * (30 # 8))%Q.

End Spec.

(** ** Sequences of calls on the restaurant store *)

Inductive StoreCall :=
| Create (id : string) (now : Z) (restaurant : MemStorage.InsertRestaurant)
| Delete (id : string).

Definition call (s : MemStorage.State) (c : StoreCall) : MemStorage.State :=
  match c with
  | Create id now restaurant => snd (MemStorage.createRestaurant id now restaurant s)
  | Delete id => MemStorage.deleteRestaurant id s
  end.

(** The state after the calls, made in order. *)
Definition calls (cs : list StoreCall) (s : MemStorage.State) : MemStorage.State :=
  fold_left call cs s.

(** ** Observations on a run of the pipeline *)
Section Observations.
Import SchemaValidationService.

(** The requests to the reasoning service, and the events that stand for
    a request leaving the process. *)
Definition is_llm_request (e : Event) : Prop :=
  match e with LlmRequest _ _ => True | _ => False end.

Definition is_call (e : Event) : bool :=
  match e with HttpGet _ | LlmRequest _ _ => true | _ => false end.

(** The state of a run of [processRestaurantUrl] that started in [w0] with
    the queue entry [id]: the stored restaurants are [rs], the queue entry
    is there, the journal has grown by [t], and each request made is in it. *)
Definition at_stage (w0 : World) (id : string) (rs : gmap string MemStorage.Restaurant)
  (t : list Event) (w : World) : Prop :=
  MemStorage.restaurants (storage w) = rs
  /\ is_Some (MemStorage.processingQueue (storage w) !! id)
  /\ journal w = journal w0 ++ t
  /\ requests w = (requests w0 + List.length (List.filter is_call t))%nat.

(** What a step that neither stores, nor journals, nor sends leaves as it
    was. *)
Definition same_stage (w w' : World) : Prop :=
  MemStorage.restaurants (storage w') = MemStorage.restaurants (storage w)
  /\ MemStorage.processingQueue (storage w') = MemStorage.processingQueue (storage w)
  /\ journal w' = journal w
  /\ requests w' = requests w.

Definition silent {A} (c : Eff A) : Prop :=
  forall w r w', c w = (r, w') -> same_stage w w'.

(** A silent step that always returns. *)
Definition quiet {A} (c : Eff A) : Prop :=
  forall w r w', c w = (r, w') -> same_stage w w' /\ exists a, r = Normal a.

Definition wp {A} (c : Eff A) (w : World) (Q : Completion A -> World -> Prop) : Prop :=
  forall r w', c w = (r, w') -> Q r w'.

(** The queue entry of a failed run. *)
Definition failed_entry `{Host} (id : string) (e : Exn) (w : World) : Prop :=
  exists q,
    MemStorage.processingQueue (storage w) !! id = Some q
    /\ MemStorage.q_status q = "failed"
    /\ is_Some (MemStorage.q_completedAt q)
    /\ MemStorage.q_errorMessage q = Some (error_message e).

(** The message of the error that [scrapeRestaurant] throws. *)
Definition fetch_error `{Host} (url : string) (response : AxiosResult) : option string :=
  match response with
  | AxiosOk _ => None
  | AxiosJson data =>
      match cheerio_load_value data with
      | inl _ => None
      | inr msg => Some ("Scraping error: " +:+ msg)
      end
  | AxiosError msg => Some ("Failed to scrape " +:+ url +:+ ": " +:+ msg)
  | OtherError msg => Some ("Scraping error: " +:+ msg)
  end.

(** The document that [scrapeRestaurant] queries when the page has come. *)
Definition fetched_page `{Host} (response : AxiosResult) : option Dom :=
  match response with
  | AxiosOk data => Some (cheerio_load data)
  | AxiosJson data =>
      match cheerio_load_value data with
      | inl dom => Some dom
      | inr _ => None
      end
  | AxiosError _ | OtherError _ => None
  end.

(** The events of a run up to the validation. *)
Definition validated_trace (id url : string) (v : ValidationResult) : list Event :=
  [ QueueStatus id "queued"; QueueStatus id "scraping"; HttpGet url;
    QueueStatus id "extracting"; QueueStatus id "validating"; Validated id v ].

(** The four ways of a run of [processRestaurantUrl] from [w] to a result
    [r] and a state [w']: no scraper agent; the fetch fails; the record is
    valid and complete enough, and is stored at once; the record goes
    through the LLM stage, and is stored unless the stage throws. *)
Definition run_summary `{Host} `{Heuristics} `{Env} (url : string) (w : World)
  (r : Completion unit) (w' : World) : Prop :=
  let id := randomUUID (uuids w) in
  let rs := MemStorage.restaurants (storage w) in
  exists t rs',
    at_stage w id rs' t w'
    /\ ((r = Throw (JsError "No web scraper agents available")
         /\ rs' = rs
         /\ t = [QueueStatus id "queued"; QueueStatus id "scraping";
                 QueueStatus id "failed"]
         /\ failed_entry id (JsError "No web scraper agents available") w')
        \/ (exists msg,
              fetch_error url (axios_get (requests w) url) = Some msg
              /\ r = Throw (JsError msg)
              /\ rs' = rs
              /\ t = [QueueStatus id "queued"; QueueStatus id "scraping";
                      HttpGet url; QueueStatus id "failed"]
              /\ failed_entry id (JsError msg) w')
        \/ (exists dom now v,
              fetched_page (axios_get (requests w) url) = Some dom
              /\ validateRestaurantData
                   (JObj (DataExtractionService.extractRestaurantData
                            (html dom) url now)) = Normal v
              /\ ((PipelineOrchestrator.needs_llm v = false
                   /\ r = Normal tt
                   /\ t = validated_trace id url v ++ [QueueStatus id "completed"]
                   /\ exists rid at_,
                        rs' = <[rid := MemStorage.newRestaurant rid at_
                                         (PipelineOrchestrator.to_insert url v
                                            (DataExtractionService.extractRestaurantData
                                               (html dom) url now))]> rs)
                  \/ (PipelineOrchestrator.needs_llm v = true
                      /\ exists tl,
                           Forall is_llm_request tl
                           /\ ((exists finalData rid at_,
                                  r = Normal tt
                                  /\ t = validated_trace id url v
                                         ++ QueueStatus id "llm_processing" :: tl
                                         ++ [QueueStatus id "completed"]
                                  /\ rs' = <[rid := MemStorage.newRestaurant rid at_
                                                     (PipelineOrchestrator.to_insert url v
                                                        finalData)]> rs
                                  /\ forall l,
                                       l <> [] ->
                                       PipelineOrchestrator.field "cuisineTypes"
                                         (DataExtractionService.extractRestaurantData
                                            (html dom) url now) = JArr l ->
                                       PipelineOrchestrator.field "cuisineTypes" finalData
                                       = JArr l)
                               \/ (exists e,
                                     r = Throw e
                                     /\ t = validated_trace id url v
                                            ++ QueueStatus id "llm_processing" :: tl
                                            ++ [QueueStatus id "failed"]
                                     /\ rs' = rs
                                     /\ failed_entry id e w')))))).

End Observations.

(** ** What the schema accepts *)

Definition is_object (x : JSValue) : Prop := exists props, x = JObj props.

Definition non_empty_string (x : JSValue) : Prop :=
  exists s, x = JStr s /\ (1 <= String.length s)%nat.

Definition optional_string (x : JSValue) : Prop :=
  x = JUndefined \/ exists s, x = JStr s.

Definition optional_number (lo : Q) (hi : option Q) (x : JSValue) : Prop :=
  x = JUndefined
  \/ exists q, x = JNum q /\ Qle_bool lo q = true
               /\ match hi with Some h => Qle_bool q h = true | None => True end.

(** The shape of the data that [restaurantDataSchema] accepts, as far as
    [calculateAccuracy] and [generateWarnings] read it. *)
Definition accepted (v : JSValue) : Prop :=
  is_object v
  /\ non_empty_string (JS.prop v "name")
  /\ is_object (JS.prop v "address")
  /\ non_empty_string (JS.prop (JS.prop v "address") "city")
  /\ non_empty_string (JS.prop (JS.prop v "address") "state")
  /\ non_empty_string (JS.prop (JS.prop v "address") "country")
  /\ (exists l, JS.prop v "cuisineTypes" = JArr l /\ (1 <= List.length l)%nat)
  /\ is_object (JS.prop v "contactInfo")
  /\ optional_string (JS.prop (JS.prop v "contactInfo") "phone")
  /\ optional_string (JS.prop (JS.prop v "contactInfo") "email")
  /\ is_object (JS.prop v "ratings")
  /\ optional_number 0 (Some 5%Q) (JS.prop (JS.prop v "ratings") "average")
  /\ optional_number 0 None (JS.prop (JS.prop v "ratings") "total")
  /\ is_object (JS.prop v "operatingHours").

(** [c !== '+'], for the plus sign that [isIndianPhoneNumber] strips as well. *)
Definition no_plus (c : ascii) : bool := negb (Ascii.eqb c "+").

(** ** The outcome of a run *)
Section Outcomes.
Import SchemaValidationService.

(** What a run that calls no agent leaves as it was: the agents of the
    manager, the agents in storage and the counters of the Gemini service. *)
Definition frame (w w' : World) : Prop :=
  agentManager w' = agentManager w
  /\ geminiService w' = geminiService w
  /\ MemStorage.agents (storage w') = MemStorage.agents (storage w).

Definition framed {A} (c : Eff A) : Prop :=
  forall w r w', c w = (r, w') -> frame w w'.

(** The agents that [getAgentsByType("web-scraper")] finds. *)
Definition scrapers (w : World) : list Agents.BaseAgent :=
  List.filter (fun a => String.eqb (Agents.type a) "web-scraper") (agentManager w).

(** The queue entry of a run that went through. *)
Definition completed_entry (id : string) (w : World) : Prop :=
  exists q,
    MemStorage.processingQueue (storage w) !! id = Some q
    /\ MemStorage.q_status q = "completed"
    /\ is_Some (MemStorage.q_completedAt q).

(** The three ways of a run of [processRestaurantUrl] from [w] to a result
    [r] and a state [w']: no scraper agent; the fetch fails; the page comes,
    and the record is stored, after the LLM stage if it is invalid. *)
Definition run_outcome `{Host} `{Heuristics} `{Env} (url : string) (w : World)
  (r : Completion unit) (w' : World) : Prop :=
  let id := randomUUID (uuids w) in
  let rs := MemStorage.restaurants (storage w) in
  frame w w'
  /\ exists t rs',
       at_stage w id rs' t w'
       /\ ((scrapers w = []
            /\ r = Throw (JsError "No web scraper agents available")
            /\ rs' = rs
            /\ t = [QueueStatus id "queued"; QueueStatus id "scraping";
                    QueueStatus id "failed"]
            /\ failed_entry id (JsError "No web scraper agents available") w')
           \/ (scrapers w <> []
               /\ exists msg,
                    fetch_error url (axios_get (requests w) url) = Some msg
                    /\ r = Throw (JsError msg)
                    /\ rs' = rs
                    /\ t = [QueueStatus id "queued"; QueueStatus id "scraping";
                            HttpGet url; QueueStatus id "failed"]
                    /\ failed_entry id (JsError msg) w')
           \/ (scrapers w <> []
               /\ exists dom now v,
                    fetched_page (axios_get (requests w) url) = Some dom
                    /\ validateRestaurantData
                         (JObj (DataExtractionService.extractRestaurantData
                                  (html dom) url now)) = Normal v
                    /\ r = Normal tt
                    /\ t = validated_trace id url v
                           ++ (if isValid v then []
                               else [QueueStatus id "llm_processing"])
                           ++ [QueueStatus id "completed"]
                    /\ completed_entry id w'
                    /\ exists rid at_,
                         rs' = <[rid := MemStorage.newRestaurant rid at_
                                          (PipelineOrchestrator.to_insert url v
                                             (DataExtractionService.extractRestaurantData
                                                (html dom) url now))]> rs)).

(** The statuses that a run writes to its queue entry, in order. *)
Fixpoint statuses (t : list Event) : list string :=
  match t with
  | [] => []
  | QueueStatus _ st :: rest => st :: statuses rest
  | _ :: rest => statuses rest
  end.

End Outcomes.

(** ** [storage.ts]: reading, the queue and the system metrics *)
Module StorageOps.
Import MemStorage.

Definition getRestaurant (id : string) (s : State) : option Restaurant :=
  restaurants s !! id.

Definition removeFromQueue (id : string) (s : State) : State :=
  with_processingQueue (delete id (processingQueue s)) s.

(** [getSystemMetrics], given the date it draws:
    [{ ...this.systemMetrics, updatedAt: new Date() }]. *)
Definition getSystemMetrics (now : Z) (s : State) : SystemMetrics :=
  {| m_id := m_id (systemMetrics s);
     totalRestaurants := totalRestaurants (systemMetrics s);
     activeAgents := activeAgents (systemMetrics s);
     processingRate := processingRate (systemMetrics s);
     successRate := successRate (systemMetrics s);
     updatedAt := now |}.

(** [Partial<SystemMetrics>]; a date in the patch is overwritten. *)
Record MetricsPatch := {
  mp_id : option string;
  mp_totalRestaurants : option Z;
  mp_activeAgents : option Z;
  mp_processingRate : option Z;
  mp_successRate : option string;
}.

(** [updateSystemMetrics], given the date it draws:
    [{ ...this.systemMetrics, ...metrics, updatedAt: new Date() }]. *)
Definition updateSystemMetrics (now : Z) (metrics : MetricsPatch) (s : State) : State :=
  with_systemMetrics
    {| m_id := default (m_id (systemMetrics s)) (mp_id metrics);
       totalRestaurants :=
         default (totalRestaurants (systemMetrics s)) (mp_totalRestaurants metrics);
       activeAgents := default (activeAgents (systemMetrics s)) (mp_activeAgents metrics);
       processingRate :=
         default (processingRate (systemMetrics s)) (mp_processingRate metrics);
       successRate := default (successRate (systemMetrics s)) (mp_successRate metrics);
       updatedAt := now |}
    s.

End StorageOps.

(** ** [orchestrator.ts]: [updateSystemMetrics] *)
Module PipelineMetrics.

(** The counters of an [ExtractionResult]. *)
Record ExtractionResult := {
  success : bool;
  totalProcessed : Z;
  successfulExtractions : Z;
  failedExtractions : Z;
  errors : list string;
  results : list JSValue;
}.

(** [updateSystemMetrics(result)], given the dates that the two calls on
    the storage draw. *)
Definition updateSystemMetrics (now1 now2 : Z) (result : ExtractionResult)
  (s : MemStorage.State) : MemStorage.State :=
  let currentMetrics := StorageOps.getSystemMetrics now1 s in
  StorageOps.updateSystemMetrics now2
    {| StorageOps.mp_id := None;
       StorageOps.mp_totalRestaurants :=
         Some (MemStorage.totalRestaurants currentMetrics
               + successfulExtractions result)%Z;
       StorageOps.mp_activeAgents := None;
       StorageOps.mp_processingRate :=
         Some (Qfloor (inject_Z (totalProcessed result * 60) / 10));
       StorageOps.mp_successRate := Some (MemStorage.successRate currentMetrics) |}
    s.

End PipelineMetrics.

(** ** [agents.ts]: the metrics of an agent over its calls *)

(** The metrics that the constructor of [BaseAgent] sets. *)
Definition new_metrics : Agents.AgentMetrics :=
  {| Agents.requestsToday := 0; Agents.successRate := 100%float;
     Agents.avgResponseTime := None; Agents.totalProcessed := 0;
     Agents.errorCount := 0; Agents.lastError := None |}.

(** One call of [updateMetrics]: success, response time, error message. *)
Definition MetricsCall : Type := bool * Z * option string.

Definition updates (calls : list MetricsCall) (m : Agents.AgentMetrics)
  : Agents.AgentMetrics :=
  fold_left (fun m c => Agents.updateMetrics (fst (fst c)) (snd (fst c)) (snd c) m)
            calls m.

Definition failures (calls : list MetricsCall) : nat :=
  List.length (List.filter (fun c : MetricsCall => negb (fst (fst c))) calls).

(** The status of an agent in storage, if the storage knows the agent. *)
Definition stored_status (id st : string) (w : World) : Prop :=
  forall sa, MemStorage.agents (storage w) !! id = Some sa -> MemStorage.a_status sa = st.

(** What a call of the Gemini agent leaves of the agent. *)
Definition agent_after `{Host} (a : Agents.BaseAgent) (r : Completion JSValue)
  (a' : Agents.BaseAgent) : Prop :=
  exists rt,
    a' = {| Agents.id := Agents.id a; Agents.name := Agents.name a;
            Agents.type := Agents.type a;
            Agents.metrics :=
              match r with
              | Normal _ => Agents.updateMetrics true rt None (Agents.metrics a)
              | Throw e =>
                  Agents.updateMetrics false rt (Some (error_message e))
                    (Agents.metrics a)
              end;
            Agents.status := match r with Normal _ => "idle" | Throw _ => "error" end |}.

(** ** [dataExtractor.ts]: [parseIndianAddress] *)
Module IndianAddress.

(** The class [\w]. *)
Definition is_word (c : ascii) : bool :=
  let n := nat_of_ascii c in
  JS.is_digit c || (Nat.leb 65 n && Nat.leb n 90) || (Nat.leb 97 n && Nat.leb n 122)
  || Nat.eqb n 95.

(** [s.substring(0, n)] *)
Fixpoint take (n : nat) (s : string) : string :=
  match n, s with
  | S n', String c s' => String c (take n' s')
  | _, _ => EmptyString
  end.

(** [\d{6}\b] at the start of [s]. *)
Definition six_digits (s : string) : bool :=
  Nat.eqb (String.length (take 6 s)) 6
  && JS.forall_chars JS.is_digit (take 6 s)
  && match JS.drop 6 s with
     | EmptyString => true
     | String c _ => negb (is_word c)
     end.

(** [s.match(/\b\d{6}\b/)], the text of the leftmost match; [prev] tells
    whether the character before [s] is of the class [\w]. *)
Fixpoint pinMatch (prev : bool) (s : string) : option string :=
  match s with
  | EmptyString => None
  | String c rest =>
      if negb prev && six_digits s then Some (take 6 s)
      else pinMatch (is_word c) rest
  end.

(** [\b] after the text [pre] and before a digit: the last character of
    [pre], if there is one, is not of the class [\w]. *)
Fixpoint ends_word (pre : string) : bool :=
  match pre with
  | EmptyString => false
  | String c rest =>
      match rest with
      | EmptyString => is_word c
      | String _ _ => ends_word rest
      end
  end.

(** [\b] after a digit and before the text [post]. *)
Definition starts_word (post : string) : bool :=
  match post with
  | EmptyString => false
  | String c _ => is_word c
  end.

(** [pin] is a match of [/\b\d{6}\b/] in the text [pre +:+ pin +:+ post]. *)
Definition pin_at (pre pin post : string) : Prop :=
  String.length pin = 6%nat
  /\ JS.forall_chars JS.is_digit pin = true
  /\ ends_word pre = false
  /\ starts_word post = false.

Definition states : list string :=
  [ "maharashtra"; "delhi"; "karnataka"; "tamil nadu"; "gujarat"; "rajasthan";
    "punjab"; "haryana"; "uttar pradesh"; "bihar"; "west bengal" ].

Definition cities : list string :=
  [ "mumbai"; "delhi"; "bangalore"; "chennai"; "kolkata"; "hyderabad"; "pune";
    "ahmedabad"; "surat"; "jaipur"; "lucknow"; "kanpur"; "nagpur" ].

(** The first name of the list that the text includes, capitalized. *)
Definition named (names : list string) (lowerAddress : string) : option string :=
  option_map JS.capitalize (List.find (fun name => JS.includes lowerAddress name) names).

(** [parts[parts.length - 2] || "Unknown"], when there are two parts. *)
Definition second_to_last (addressText : string) : option string :=
  let parts := map JS.trim (JS.split "," addressText) in
  if Nat.ltb 1 (List.length parts)
  then match nth_error parts (List.length parts - 2) with
       | Some part => if String.eqb part "" then Some "Unknown" else Some part
       | None => Some "Unknown"
       end
  else None.

Definition entry (key : string) (value : option string) : list (string * JSValue) :=
  match value with
  | Some s => [(key, JStr s)]
  | None => []
  end.

Definition parseIndianAddress (addressText : string) : JSValue :=
  let pinMatch := pinMatch false addressText in
  let lowerAddress := JS.toLowerCase addressText in
  let state := named states lowerAddress in
  let city :=
    match named cities lowerAddress with
    | Some city => Some city
    | None => second_to_last addressText
    end in
  JObj ([("country", JStr "India")]
        ++ entry "postalCode" pinMatch
        ++ entry "state" state
        ++ entry "city" city
        ++ [("street", JStr addressText); ("formatted", JStr addressText)]).

(** The address object, from what the three searches found. *)
Definition address_of (pin state city : option string) (addressText : string) : JSValue :=
  JObj ([("country", JStr "India")]
        ++ entry "postalCode" pin
        ++ entry "state" state
        ++ entry "city" city
        ++ [("street", JStr addressText); ("formatted", JStr addressText)]).

(** The text names one of the listed names. *)
Definition names_one (names : list string) (addressText : string) : Prop :=
  exists name, In name names /\ JS.includes (JS.toLowerCase addressText) name = true.

End IndianAddress.

(** ** A page whose address names no listed state *)
Module Unlisted.

Definition address : string := "Lakeside Road, Panaji, Goa 403001".

Definition page : Dom :=
  {| first_text := fun selector =>
       if String.eqb selector "h1" then Some "Lakeside Table"
       else if String.eqb selector ".address" then Some address
       else None;
     first_attr := fun _ _ => None;
     all_text := fun selector =>
       if String.eqb selector "body" then "Lakeside Table. Prawns and crab."
       else "";
     first_html := fun _ => None;
     html := "<html>Lakeside Table</html>" |}.

#[export] Instance host : Host :=
  {| StringToNumber := fun _ => None;
     NumberToString := fun q => pretty (Qfloor q);
     zod_isEmail := fun s => SchemaValidationService.emailRegex_test "" s;
     zod_isUrl := fun s => JS.startsWith s "http";
     JSON_parse := fun _ => None;
     SyntaxError_message := fun s => "Unexpected token in JSON at position 0";
     cheerio_load := fun _ => page;
     cheerio_load_value := fun _ => inr "cheerio.load() expects a string";
     Date_toISOString := fun t => pretty t;
     ZodError_message := fun issues => JS.join "; " (map message issues) |}.

(** The heuristics with the address parser of the source. *)
#[export] Instance heuristics : Heuristics :=
  {| parseIndianAddress := IndianAddress.parseIndianAddress;
     extractContactInfo := fun _ => JObj [];
     extractRatings := fun _ => JObj [("sources", JObj [])];
     extractOperatingHours := fun _ =>
       JObj [("monday", JObj [("open", JStr "10:00"); ("close", JStr "22:00")])];
     extractPriceRange := fun _ => JStr "mid-range" |}.

End Unlisted.

(** ** [agents.ts]: [SchemaValidatorAgent.process] *)
Section ValidatorAgent.
Context `{Host} `{Heuristics} `{Env}.

Definition SchemaValidatorAgent_process (handle : nat) (data : JSValue)
  : Eff SchemaValidationService.ValidationResult :=
  startTime ← read_clock;
  _ ← updateStatus handle "processing";
  try_catch
    (result ← lift (SchemaValidationService.validateRestaurantData data);
     now ← read_clock;
     _ ← updateMetrics handle true (now - startTime) None;
     _ ← updateStatus handle "idle";
     mret result)
    (fun error =>
       now ← read_clock;
       _ ← updateMetrics handle false (now - startTime) (Some (error_message error));
       _ ← updateStatus handle "error";
       throw error).

End ValidatorAgent.

(** * Theorems *)

(** ** The validator *)
Section Validator.
Import SchemaValidationService.

Lemma hasField_step_defined (current : JSValue) (key : string) :
  current <> JUndefined -> hasField_step current key <> JUndefined.
Proof.
  intros Hdef. unfold hasField_step.
  destruct (JS.truthy current); [discriminate | exact Hdef].
Qed.

Lemma reduce_defined (keys : list string) (obj : JSValue) :
  obj <> JUndefined -> fold_left hasField_step keys obj <> JUndefined.
Proof.
  revert obj. induction keys as [| key keys IH]; intros obj Hdef; simpl.
  - exact Hdef.
  - apply IH, hasField_step_defined, Hdef.
Qed.

Lemma reduce_undefined (keys : list string) :
  fold_left hasField_step keys JUndefined = JUndefined.
Proof. induction keys as [| key keys IH]; simpl; [reflexivity | exact IH]. Qed.

(** What [hasField] computes: whether the record itself is defined; the
    path plays no part. *)
Lemma hasField_constant (obj : JSValue) (path : string) :
  hasField obj path = negb (JS.is_undefined obj).
Proof.
  unfold hasField. destruct obj;
    try (destruct (fold_left hasField_step (JS.split "." path) _) eqn:E;
         [ exfalso; revert E; apply reduce_defined; discriminate
         | reflexivity .. ]).
  now rewrite reduce_undefined.
Qed.

Lemma score_constant (data : JSValue) (fields : list string) :
  score data fields = if JS.is_undefined data then 0%nat else List.length fields.
Proof.
  unfold score.
  assert (G : forall n, fold_left
                (fun (n : nat) (field : string) =>
                   if hasField data field then S n else n) fields n
              = if JS.is_undefined data then n else (n + List.length fields)%nat).
  { induction fields as [| f fields IH]; intros n; simpl.
    - destruct (JS.is_undefined data); [reflexivity | lia].
    - rewrite IH, hasField_constant.
      destruct (JS.is_undefined data); simpl; [reflexivity | lia]. }
  rewrite G. destruct (JS.is_undefined data); reflexivity.
Qed.

Lemma calculateCompleteness_cases (data : JSValue) :
  calculateCompleteness data = if JS.is_undefined data then 0%Z else 100%Z.
Proof.
  unfold calculateCompleteness. rewrite !score_constant.
  destruct (JS.is_undefined data); vm_compute; reflexivity.
Qed.

(** C1, where the code departs from the claim.  The claim: a field
    contributes its share of the completeness score if and only if it is
    present, non-null and non-empty.  The code: the [reduce] of [hasField]
    ends on a boolean, which is never [undefined], so every field of both
    lists is counted for every record and the score is 100, also for a
    record without name and city. *)
Theorem completeness_ignores_the_fields (data : JSValue) :
  JS.is_undefined data = false ->
  calculateCompleteness data = 100%Z
  /\ (forall path, hasField data path = true)
  /\ score data requiredFields = 11%nat /\ score data optionalFields = 8%nat.
Proof.
  intros Hdef. rewrite calculateCompleteness_cases, !score_constant, Hdef.
  repeat split. intros path. now rewrite hasField_constant, Hdef.
Qed.

Section Service.
Context `{Host}.

Lemma bind_Normal {A B} (c : Completion A) (f : A -> Completion B) (b : B) :
  (c ≫= f) = Normal b -> exists a, c = Normal a /\ f a = Normal b.
Proof. destruct c as [a | e]; simpl; intros E; [eauto | discriminate]. Qed.

Lemma calculateAccuracy_clamped (data : JSValue) (a : Z) :
  calculateAccuracy data = Normal a -> (0 <= a <= 100)%Z.
Proof.
  unfold calculateAccuracy. intros E.
  repeat (apply bind_Normal in E; destruct E as (? & _ & E)).
  injection E as <-. lia.
Qed.

Lemma partial_completeness_range (data : JSValue) :
  (0 <= partial_completeness data <= 100)%Z.
Proof.
  unfold partial_completeness. destruct (JSExn.parse _ data); [| lia].
  rewrite calculateCompleteness_cases. destruct (JS.is_undefined _); lia.
Qed.

(** C3: the completeness and the accuracy that the validator returns lie
    in [0, 100], for every input: the completeness is the rounded weighted
    sum (or the 0 of the fallback), the accuracy is clamped to the interval
    (or the initial 0 when it is not computed). *)
Theorem scores_in_range :
  (forall data, (0 <= calculateCompleteness data <= 100)%Z)
  /\ (forall data a, calculateAccuracy data = Normal a -> (0 <= a <= 100)%Z)
  /\ (forall data result,
        validateRestaurantData data = Normal result ->
        (0 <= completeness result <= 100)%Z /\ (0 <= accuracy result <= 100)%Z).
Proof.
  split; [| split].
  - intros data. rewrite calculateCompleteness_cases.
    destruct (JS.is_undefined data); lia.
  - exact calculateAccuracy_clamped.
  - intros data result. unfold validateRestaurantData, try_block.
    destruct (JSExn.parse restaurantDataSchema data) as [v | e].
    + pose proof (calculateCompleteness_cases v) as Hc.
      destruct (calculateAccuracy v) as [a | e] eqn:Ea.
      * apply calculateAccuracy_clamped in Ea.
        destruct (generateWarnings v) as [w | e]; [| destruct e]; simpl;
          intros [= <-]; simpl; try rewrite Hc;
          try (pose proof (partial_completeness_range data));
          destruct (JS.is_undefined v); lia.
      * destruct e; simpl; intros [= <-]; simpl; try rewrite Hc;
          try (pose proof (partial_completeness_range data));
          destruct (JS.is_undefined v); lia.
    + destruct e; simpl; intros [= <-]; simpl;
        try (pose proof (partial_completeness_range data)); lia.
Qed.

Lemma validateRestaurantData_returns (data : JSValue) :
  exists result, validateRestaurantData data = Normal result.
Proof.
  unfold validateRestaurantData, try_block.
  destruct (JSExn.parse restaurantDataSchema data) as [v | e].
  - destruct (calculateAccuracy v) as [a | e].
    + destruct (generateWarnings v) as [w | e]; [| destruct e]; simpl; eauto.
    + destruct e; simpl; eauto.
  - destruct e; simpl; eauto.
Qed.

(** C5: [validateRestaurantData] throws on no input.  When the schema
    rejects the input, the result has [isValid = false], one error for each
    issue, the paths of the absent fields, and the completeness of the data
    parsed against the all-optional schema, 0 when that parse fails too. *)
Theorem validateRestaurantData_never_throws :
  (forall data, exists result, validateRestaurantData data = Normal result)
  /\ (forall data issues,
        Zod.parse restaurantDataSchema [] data = Zod.Failure issues ->
        validateRestaurantData data =
          Normal
            {| isValid := false;
               validatedData := None;
               errors := map (fun err => JS.join "." (path err) +:+ ": " +:+ message err)
                             issues;
               completeness :=
                 match Zod.parse (Zod.deepPartialify restaurantDataSchema) [] data with
                 | Zod.Success partialData => calculateCompleteness partialData
                 | Zod.Failure _ => 0%Z
                 end;
               accuracy := 0;
               missingFields := extractMissingFields issues;
               warnings := [] |}).
Proof.
  split; [exact validateRestaurantData_returns |].
  intros data issues E.
  unfold validateRestaurantData, try_block, JSExn.parse. rewrite E.
  unfold catch_block, partial_completeness, JSExn.parse.
  destruct (Zod.parse (Zod.deepPartialify restaurantDataSchema) [] data);
    reflexivity.
Qed.

Lemma valid_then_parsed (data : JSValue) (result : ValidationResult) :
  validateRestaurantData data = Normal result -> isValid result = true ->
  exists v, Zod.parse restaurantDataSchema [] data = Zod.Success v.
Proof.
  unfold validateRestaurantData, try_block, JSExn.parse.
  destruct (Zod.parse restaurantDataSchema [] data) as [v | issues]; [eauto |].
  simpl. intros [= <-]. discriminate.
Qed.






End Service.

End Validator.

Lemma completeness_ignores_the_fields_witness :
  JS.is_undefined (JObj Sample.record_without_name_and_city) = false
  /\ SchemaValidationService.calculateCompleteness
       (JObj Sample.record_without_name_and_city) = 100%Z.
Proof.
  split; [reflexivity |].
  apply (completeness_ignores_the_fields (JObj Sample.record_without_name_and_city)).
  reflexivity.
Defined.

(** The score as the specification words it tells the two records apart;
    the score of the code does not. *)
Example completeness_spec_against_code :
  Spec.completeness (JObj (Sample.record (JStr "Spice Route"))) = 70%Z
  /\ Spec.completeness (JObj Sample.record_without_name_and_city) = 57%Z
  /\ SchemaValidationService.calculateCompleteness
       (JObj (Sample.record (JStr "Spice Route"))) = 100%Z
  /\ SchemaValidationService.calculateCompleteness
       (JObj Sample.record_without_name_and_city) = 100%Z.
Proof. vm_compute. repeat split. Qed.

Lemma scores_in_range_witness :
  exists result,
    SchemaValidationService.validateRestaurantData (H := Sample.host)
      (JObj (Sample.record (JStr "Spice Route"))) = Normal result
    /\ (0 <= SchemaValidationService.completeness result <= 100)%Z
    /\ (0 <= SchemaValidationService.accuracy result <= 100)%Z.
Proof.
  eexists. split; [vm_compute; reflexivity |].
  apply (proj2 (proj2 (@scores_in_range Sample.host))
           (JObj (Sample.record (JStr "Spice Route")))).
  vm_compute. reflexivity.
Defined.

Lemma validateRestaurantData_never_throws_witness :
  exists issues result,
    Zod.parse (H := Sample.host) SchemaValidationService.restaurantDataSchema []
      (JObj Sample.record_without_name_and_city) = Zod.Failure issues
    /\ SchemaValidationService.validateRestaurantData (H := Sample.host)
         (JObj Sample.record_without_name_and_city) = Normal result
    /\ SchemaValidationService.isValid result = false
    /\ SchemaValidationService.missingFields result = ["name"; "address.city"].
Proof.
  eexists. eexists. split; [vm_compute; reflexivity |]. split.
  - apply (proj2 (@validateRestaurantData_never_throws Sample.host)
             (JObj Sample.record_without_name_and_city)).
    vm_compute. reflexivity.
  - vm_compute. split; reflexivity.
Defined.



(** ** The storage *)
Section Storage.
Import MemStorage.

Lemma createRestaurant_counts (s : State) (id : string) (now : Z)
  (restaurant : InsertRestaurant) :
  totalRestaurants (systemMetrics (snd (createRestaurant id now restaurant s)))
  = Z.of_nat (size (restaurants (snd (createRestaurant id now restaurant s)))).
Proof. reflexivity. Qed.

Lemma deleteRestaurant_counts (s : State) (id : string) :
  totalRestaurants (systemMetrics (deleteRestaurant id s))
  = Z.of_nat (size (restaurants (deleteRestaurant id s))).
Proof. reflexivity. Qed.

Lemma call_counts (s : State) (c : StoreCall) :
  totalRestaurants (systemMetrics (call s c)) = Z.of_nat (size (restaurants (call s c))).
Proof. destruct c; reflexivity. Qed.

Lemma calls_count (cs : list StoreCall) (s : State) :
  cs <> [] ->
  totalRestaurants (systemMetrics (calls cs s))
  = Z.of_nat (size (restaurants (calls cs s))).
Proof.
  intros Hne. destruct (exists_last Hne) as (front & c & ->).
  unfold calls. rewrite fold_left_app. simpl. apply call_counts.
Qed.

(** C10: after every [createRestaurant] and every [deleteRestaurant], from
    any state of the storage, [totalRestaurants] is the number of stored
    restaurants; so it is after any non-empty sequence of such calls on the
    storage as its constructor leaves it, where the metric is the seed
    12847 over an empty store: the first call already replaces the seed.
    [deleteRestaurant] on an id that is not stored leaves the store as it
    is. *)
Theorem totalRestaurants_tracks_the_store `{Env} :
  (forall s id now restaurant,
      totalRestaurants (systemMetrics (snd (createRestaurant id now restaurant s)))
      = Z.of_nat (size (restaurants (snd (createRestaurant id now restaurant s))))
      /\ restaurants (snd (createRestaurant id now restaurant s)) !! id
         = Some (fst (createRestaurant id now restaurant s)))
  /\ (forall s id,
        totalRestaurants (systemMetrics (deleteRestaurant id s))
        = Z.of_nat (size (restaurants (deleteRestaurant id s)))
        /\ restaurants (deleteRestaurant id s) !! id = None)
  /\ (totalRestaurants (systemMetrics constructor) = 12847%Z
      /\ restaurants constructor = ∅)
  /\ (forall c,
        totalRestaurants (systemMetrics (call constructor c))
        = match c with Create _ _ _ => 1%Z | Delete _ => 0%Z end)
  /\ (forall cs,
        cs <> [] ->
        totalRestaurants (systemMetrics (calls cs constructor))
        = Z.of_nat (size (restaurants (calls cs constructor))))
  /\ (forall s id,
        restaurants s !! id = None ->
        restaurants (deleteRestaurant id s) = restaurants s).
Proof.
  repeat split.
  - simpl. apply lookup_insert_eq.
  - simpl. apply lookup_delete_eq.
  - intros [id now restaurant | id]; simpl.
    + now rewrite insert_empty, map_size_singleton.
    + now rewrite delete_empty, map_size_empty.
  - intros cs Hne. now apply calls_count.
  - intros s id Hid. simpl. now apply delete_id.
Qed.

End Storage.

Lemma totalRestaurants_tracks_the_store_witness :
  MemStorage.restaurants (MemStorage.constructor (H := Sample.env)) !! "no-such-id" = None
  /\ [Delete "no-such-id"] <> []
  /\ MemStorage.restaurants
       (MemStorage.deleteRestaurant "no-such-id" (MemStorage.constructor (H := Sample.env)))
     = MemStorage.restaurants (MemStorage.constructor (H := Sample.env))
  /\ MemStorage.totalRestaurants
       (MemStorage.systemMetrics (calls [Delete "no-such-id"] (MemStorage.constructor (H := Sample.env))))
     = Z.of_nat (size (MemStorage.restaurants
                         (calls [Delete "no-such-id"] (MemStorage.constructor (H := Sample.env))))).
Proof.
  pose proof (@totalRestaurants_tracks_the_store Sample.env)
    as (_ & _ & _ & _ & Hcalls & Hdelete).
  split; [reflexivity |]. split; [discriminate |]. split.
  - apply Hdelete. reflexivity.
  - apply Hcalls. discriminate.
Defined.

(** ** The address strategies *)
Section Addresses.

(** [first_match] returns the text of the first selector, in list order,
    whose first element has an acceptable trimmed text. *)
Lemma first_match_first (dom : Dom) (accept : string -> bool)
  (selectors : list string) (text : string) :
  first_match dom accept selectors = Some text ->
  exists before selector after t,
    selectors = before ++ selector :: after
    /\ first_text dom selector = Some t
    /\ text = JS.trim t
    /\ accept text = true
    /\ Forall (fun s => forall t', first_text dom s = Some t' ->
                                   accept (JS.trim t') = false) before.
Proof.
  induction selectors as [| selector selectors IH]; simpl; [discriminate |].
  destruct (first_text dom selector) as [t |] eqn:Et.
  - destruct (accept (JS.trim t)) eqn:Ea.
    + intros [= <-]. exists [], selector, selectors, t. repeat split; auto.
    + intros E. destruct (IH E) as (before & sel & after & t0 & -> & ? & ? & ? & ?).
      exists (selector :: before), sel, after, t0. repeat split; auto.
      constructor; [| assumption]. intros t' Et'. congruence.
  - intros E. destruct (IH E) as (before & sel & after & t0 & -> & ? & ? & ? & ?).
    exists (selector :: before), sel, after, t0. repeat split; auto.
    constructor; [| assumption]. intros t' Et'. congruence.
Qed.

Lemma first_match_found (dom : Dom) (accept : string -> bool)
  (selectors : list string) (selector t : string) :
  In selector selectors -> first_text dom selector = Some t ->
  accept (JS.trim t) = true ->
  exists text, first_match dom accept selectors = Some text.
Proof.
  induction selectors as [| s selectors IH]; simpl; [tauto |].
  intros [-> | Hin] Et Ea.
  - rewrite Et, Ea. eauto.
  - destruct (first_text dom s) as [t0 |]; [destruct (accept (JS.trim t0)) |]; eauto.
Qed.

(** C7, as the code has it: in both address strategies the selectors come
    first and the JSON-LD block is the fallback.  Whenever some selector of
    the list finds a text longer than 10 characters, the address is the
    trimmed text of the first such selector in list order, whatever the
    JSON-LD block holds; the block is read only when no selector does. *)
Theorem selectors_take_precedence `{Host} (dom : Dom) :
  (forall selectors extract,
      (selectors = WebScrapingService.address_selectors
       /\ extract = WebScrapingService.extractAddress)
      \/ (selectors = DataExtractionService.address_selectors
          /\ extract = DataExtractionService.findAddressText) ->
      (forall selector t,
          In selector selectors -> first_text dom selector = Some t ->
          long_text (JS.trim t) = true ->
          exists before first after t',
            selectors = before ++ first :: after
            /\ first_text dom first = Some t'
            /\ long_text (JS.trim t') = true
            /\ Forall (fun s => forall t0, first_text dom s = Some t0 ->
                                           long_text (JS.trim t0) = false) before
            /\ extract dom = Some (JS.trim t'))
      /\ ((forall selector t,
              In selector selectors -> first_text dom selector = Some t ->
              long_text (JS.trim t) = false) ->
          first_html dom ld_json_selector = None -> extract dom = None)).
Proof.
  intros selectors extract Hcase. split.
  - intros selector t Hin Et Ha.
    destruct (first_match_found dom long_text selectors selector t Hin Et Ha)
      as [text Hm].
    destruct (first_match_first dom long_text selectors text Hm)
      as (before & first & after & t' & Hs & Et' & -> & Ha' & Hb).
    exists before, first, after, t'. repeat split; auto.
    destruct Hcase as [[-> ->] | [-> ->]];
      [unfold WebScrapingService.extractAddress
      | unfold DataExtractionService.findAddressText];
      now rewrite Hm.
  - intros Hnone Hld.
    assert (Hm : first_match dom long_text selectors = None).
    { destruct (first_match dom long_text selectors) as [text |] eqn:Hm; [| reflexivity].
      destruct (first_match_first dom long_text selectors text Hm)
        as (before & first & after & t' & Hs & Et' & -> & Ha' & _).
      rewrite (Hnone first t') in Ha'; [discriminate | | assumption].
      rewrite Hs. apply in_or_app. right. now left. }
    destruct Hcase as [[-> ->] | [-> ->]];
      [unfold WebScrapingService.extractAddress
      | unfold DataExtractionService.findAddressText];
      now rewrite Hm, Hld.
Qed.

End Addresses.

(** C7, the counterexample: a page with an element of class [address] and a
    JSON-LD block that parses to another address; both strategies return
    the text of the element. *)
Lemma loose_text_wins_over_structured_data :
  first_text Sample.page ".address" = Some ("  " +:+ Sample.loose_address +:+ " ")
  /\ first_html Sample.page ld_json_selector = Some Sample.ld_json_block
  /\ ld_json_address (H := Sample.host)
       (WebScrapingService.address_object (H := Sample.host))
       Sample.ld_json_block = Normal (Some Sample.structured_address)
  /\ WebScrapingService.extractAddress (H := Sample.host) Sample.page
     = Some Sample.loose_address
  /\ DataExtractionService.findAddressText (H := Sample.host) Sample.page
     = Some Sample.loose_address
  /\ Sample.loose_address <> Sample.structured_address.
Proof. vm_compute. repeat split. discriminate. Qed.

Lemma selectors_take_precedence_witness :
  exists before first after t',
    WebScrapingService.address_selectors = before ++ first :: after
    /\ first_text Sample.page first = Some t'
    /\ long_text (JS.trim t') = true
    /\ Forall (fun s => forall t0, first_text Sample.page s = Some t0 ->
                                   long_text (JS.trim t0) = false) before
    /\ WebScrapingService.extractAddress (H := Sample.host) Sample.page
       = Some (JS.trim t').
Proof.
  apply (proj1 (@selectors_take_precedence Sample.host Sample.page
                  WebScrapingService.address_selectors
                  WebScrapingService.extractAddress
                  (or_introl (conj eq_refl eq_refl)))
           ".address" ("  " +:+ Sample.loose_address +:+ " ")).
  - simpl. tauto.
  - reflexivity.
  - reflexivity.
Defined.

(** ** The pipeline *)
Section Pipeline.
Import SchemaValidationService.
Context `{Host} `{Heuristics} `{Env}.

Lemma wp_mono {A} (c : Eff A) w (Q Q' : Completion A -> World -> Prop) :
  wp c w Q -> (forall r w', Q r w' -> Q' r w') -> wp c w Q'.
Proof. unfold wp. eauto. Qed.

Lemma wp_ret {A} (a : A) w (Q : Completion A -> World -> Prop) :
  Q (Normal a) w -> wp (mret a) w Q.
Proof. intros HQ r w' [= <- <-]. exact HQ. Qed.

Lemma wp_throw {A} (e : Exn) w (Q : Completion A -> World -> Prop) :
  Q (Throw e) w -> wp (throw e) w Q.
Proof. intros HQ r w' [= <- <-]. exact HQ. Qed.

Lemma wp_lift {A} (c : Completion A) w (Q : Completion A -> World -> Prop) :
  Q c w -> wp (lift c) w Q.
Proof. intros HQ r w' [= <- <-]. exact HQ. Qed.

Lemma wp_bind {A B} (c : Eff A) (f : A -> Eff B) w (Q : Completion B -> World -> Prop) :
  wp c w (fun r w' => match r with
                      | Normal a => wp (f a) w' Q
                      | Throw e => Q (Throw e) w'
                      end) ->
  wp (c ≫= f) w Q.
Proof.
  unfold wp, mbind, Eff_bind. intros Hc r w' E.
  destruct (c w) as [[a | e] w1] eqn:Ec; specialize (Hc _ _ eq_refl); simpl in Hc.
  - now apply Hc.
  - now injection E as <- <-.
Qed.

Lemma wp_try_catch {A} (body : Eff A) (handler : Exn -> Eff A) w
  (Q : Completion A -> World -> Prop) :
  wp body w (fun r w' => match r with
                         | Normal a => Q (Normal a) w'
                         | Throw e => wp (handler e) w' Q
                         end) ->
  wp (try_catch body handler) w Q.
Proof.
  unfold wp, try_catch. intros Hc r w' E.
  destruct (body w) as [[a | e] w1] eqn:Ec; specialize (Hc _ _ eq_refl); simpl in Hc.
  - now injection E as <- <-.
  - now apply Hc.
Qed.

Lemma same_stage_refl w : same_stage w w.
Proof. repeat split. Qed.

Lemma same_stage_trans w1 w2 w3 :
  same_stage w1 w2 -> same_stage w2 w3 -> same_stage w1 w3.
Proof.
  intros (? & ? & ? & ?) (? & ? & ? & ?). repeat split; congruence.
Qed.

Lemma at_stage_same w0 id rs t w w' :
  at_stage w0 id rs t w -> same_stage w w' -> at_stage w0 id rs t w'.
Proof.
  intros (? & ? & ? & ?) (? & ? & ? & ?). repeat split; congruence.
Qed.

Lemma wp_silent {A} (c : Eff A) w0 id rs t w (Q : Completion A -> World -> Prop) :
  silent c -> at_stage w0 id rs t w ->
  (forall r w', at_stage w0 id rs t w' -> Q r w') ->
  wp c w Q.
Proof.
  intros Hc Hst HQ r w' E. apply HQ. eapply at_stage_same; eauto.
Qed.

Lemma silent_ret {A} (a : A) : silent (mret a).
Proof. intros w r w' [= <- <-]. apply same_stage_refl. Qed.

Lemma silent_throw {A} (e : Exn) : silent (@throw A e).
Proof. intros w r w' [= <- <-]. apply same_stage_refl. Qed.

Lemma silent_lift {A} (c : Completion A) : silent (lift c).
Proof. intros w r w' [= <- <-]. apply same_stage_refl. Qed.

Lemma silent_bind {A B} (c : Eff A) (f : A -> Eff B) :
  silent c -> (forall a, silent (f a)) -> silent (c ≫= f).
Proof.
  unfold silent, mbind, Eff_bind. intros Hc Hf w r w' E.
  destruct (c w) as [[a | e] w1] eqn:Ec.
  - eapply same_stage_trans; eauto.
  - injection E as <- <-. eauto.
Qed.

Lemma silent_try_catch {A} (body : Eff A) (handler : Exn -> Eff A) :
  silent body -> (forall e, silent (handler e)) -> silent (try_catch body handler).
Proof.
  unfold silent, try_catch. intros Hc Hf w r w' E.
  destruct (body w) as [[a | e] w1] eqn:Ec.
  - injection E as <- <-. eauto.
  - eapply same_stage_trans; eauto.
Qed.

Lemma silent_read_clock : silent read_clock.
Proof. intros w r w' [= <- <-]. repeat split. Qed.

Lemma silent_draw_uuid : silent draw_uuid.
Proof. intros w r w' [= <- <-]. repeat split. Qed.

Lemma silent_modify_gemini f : silent (modify_gemini f).
Proof. intros w r w' [= <- <-]. repeat split. Qed.

Lemma silent_modify_agent h f : silent (modify_agent h f).
Proof. intros w r w' [= <- <-]. repeat split. Qed.

Lemma silent_getAgentsByType type : silent (getAgentsByType type).
Proof. intros w r w' [= <- <-]. repeat split. Qed.

Lemma silent_storage_updateAgentStatus id status :
  silent (storage_updateAgentStatus id status).
Proof.
  intros w r w'. unfold storage_updateAgentStatus.
  destruct (MemStorage.agents (storage w) !! id) as [a |] eqn:Ea.
  - intros [= <- <-]. unfold MemStorage.updateAgentStatus. simpl. rewrite Ea.
    repeat split.
  - intros [= <- <-]. apply same_stage_refl.
Qed.

Lemma silent_updateStatus h status : silent (updateStatus h status).
Proof.
  unfold updateStatus. apply silent_bind; [apply silent_modify_agent |].
  intros _ w r w'. destruct (agentManager w !! h) as [a |].
  - apply silent_storage_updateAgentStatus.
  - intros [= <- <-]. apply same_stage_refl.
Qed.

Lemma silent_updateMetrics h success rt error :
  silent (updateMetrics h success rt error).
Proof. apply silent_modify_agent. Qed.

Lemma wp_addToQueue item w (Q : Completion MemStorage.ProcessingQueue -> World -> Prop) :
  (forall now w',
      at_stage w (randomUUID (uuids w)) (MemStorage.restaurants (storage w))
        [QueueStatus (randomUUID (uuids w)) (MemStorage.iq_status item)] w' ->
      Q (Normal (fst (MemStorage.addToQueue (randomUUID (uuids w)) now item (storage w))))
        w') ->
  wp (storage_addToQueue item) w Q.
Proof.
  intros HQ r w' E.
  unfold storage_addToQueue, mbind, Eff_bind, draw_uuid, read_clock, on_storage,
    record, mret, Eff_ret in E.
  simpl in E. injection E as <- <-. apply HQ.
  repeat split; simpl.
  - rewrite lookup_insert_eq. eauto.
  - lia.
Qed.

Lemma wp_updateQueueItem id item st w0 rs t w
  (Q : Completion MemStorage.ProcessingQueue -> World -> Prop) :
  MemStorage.p_status item = Some st ->
  at_stage w0 id rs t w ->
  (forall existing w',
      at_stage w0 id rs (t ++ [QueueStatus id st]) w' ->
      MemStorage.processingQueue (storage w') !! id
      = Some (MemStorage.patch existing item) ->
      Q (Normal (MemStorage.patch existing item)) w') ->
  wp (storage_updateQueueItem id item) w Q.
Proof.
  intros Hst (Hrs & [existing Hq] & Hj & Hr) HQ r w' E.
  unfold storage_updateQueueItem, mbind, Eff_bind, try_storage,
    MemStorage.updateQueueItem in E.
  rewrite Hq, Hst in E. simpl in E. injection E as <- <-.
  apply (HQ existing); [| simpl; apply lookup_insert_eq].
  repeat split; simpl.
  - exact Hrs.
  - rewrite lookup_insert_eq. eauto.
  - now rewrite Hj, app_assoc.
  - rewrite List.filter_app, length_app. simpl. lia.
Qed.

Lemma wp_record e w0 id rs t w (Q : Completion unit -> World -> Prop) :
  is_call e = false ->
  at_stage w0 id rs t w ->
  (forall w', at_stage w0 id rs (t ++ [e]) w' -> Q (Normal tt) w') ->
  wp (record e) w Q.
Proof.
  intros He (Hrs & Hq & Hj & Hr) HQ r w' [= <- <-]. apply HQ.
  repeat split; simpl; auto.
  - now rewrite Hj, app_assoc.
  - rewrite List.filter_app, length_app. simpl. rewrite He. simpl. lia.
Qed.

Lemma wp_scrapeRestaurant url w0 id rs t w
  (Q : Completion WebScrapingService.ScrapedData -> World -> Prop) :
  at_stage w0 id rs t w ->
  (forall w',
      at_stage w0 id rs (t ++ [HttpGet url]) w' ->
      Q (match fetched_page
                 (axios_get (requests w0 + List.length (List.filter is_call t)) url)
         with
         | Some dom => Normal (WebScrapingService.scrape_page url dom)
         | None =>
             Throw (JsError
                      (default ""
                         (fetch_error url
                            (axios_get
                               (requests w0 + List.length (List.filter is_call t))
                               url))))
         end) w') ->
  wp (scrapeRestaurant url) w Q.
Proof.
  intros (Hrs & Hq & Hj & Hr) HQ r w' E.
  unfold scrapeRestaurant, mbind, Eff_bind, next_request, record in E.
  simpl in E.
  assert (Hst : at_stage w0 id rs (t ++ [HttpGet url])
                  {| storage := storage w; agentManager := agentManager w;
                     geminiService := geminiService w; uuids := uuids w;
                     clock := clock w; requests := S (requests w);
                     journal := journal w ++ [HttpGet url] |}).
  { repeat split; simpl; auto.
    - now rewrite Hj, app_assoc.
    - rewrite List.filter_app, length_app. simpl. lia. }
  specialize (HQ _ Hst). rewrite <- Hr in HQ.
  unfold fetched_page, fetch_error in HQ.
  destruct (axios_get _ url) as [data | data | msg | msg];
    [| destruct (cheerio_load_value data) | |]; injection E as <- <-; exact HQ.
Qed.

Lemma no_page_is_an_error (url : string) (response : AxiosResult) :
  fetched_page response = None -> exists msg, fetch_error url response = Some msg.
Proof.
  destruct response as [data | data | msg | msg]; simpl; try discriminate; eauto.
  destruct (cheerio_load_value data); [discriminate | eauto].
Qed.

Lemma page_is_no_error (url : string) (response : AxiosResult) (dom : Dom) :
  fetched_page response = Some dom -> fetch_error url response = None.
Proof.
  destruct response as [data | data | msg | msg]; simpl; try discriminate; auto.
  destruct (cheerio_load_value data); [auto | discriminate].
Qed.

Lemma wp_extractRestaurantData content url w0 id rs t w
  (Q : Completion (list (string * JSValue)) -> World -> Prop) :
  at_stage w0 id rs t w ->
  (forall now w',
      at_stage w0 id rs t w' ->
      Q (Normal (DataExtractionService.extractRestaurantData content url now)) w') ->
  wp (extractRestaurantData content url) w Q.
Proof.
  intros Hst HQ r w' [= <- <-]. apply HQ. exact Hst.
Qed.

Lemma wp_createRestaurant restaurant w0 id rs t w
  (Q : Completion MemStorage.Restaurant -> World -> Prop) :
  at_stage w0 id rs t w ->
  (forall rid now w',
      at_stage w0 id (<[rid := MemStorage.newRestaurant rid now restaurant]> rs) t w' ->
      Q (Normal (MemStorage.newRestaurant rid now restaurant)) w') ->
  wp (storage_createRestaurant restaurant) w Q.
Proof.
  intros (Hrs & Hq & Hj & Hr) HQ r w' [= <- <-]. apply HQ.
  repeat split; simpl; auto. now rewrite Hrs.
Qed.

Lemma silent_createExtractionLog restaurantId action status duration metadata :
  silent (storage_createExtractionLog restaurantId action status duration metadata).
Proof. intros w r w' [= <- <-]. repeat split. Qed.

Lemma wp_read_clock w0 id rs t w (Q : Completion Z -> World -> Prop) :
  at_stage w0 id rs t w ->
  (forall now w', at_stage w0 id rs t w' -> Q (Normal now) w') ->
  wp read_clock w Q.
Proof. intros Hst HQ r w' [= <- <-]. apply HQ. exact Hst. Qed.

Lemma quiet_silent {A} (c : Eff A) : quiet c -> silent c.
Proof. intros Hc w r w' E. now destruct (Hc w r w' E). Qed.

Lemma wp_quiet {A} (c : Eff A) w0 id rs t w (Q : Completion A -> World -> Prop) :
  quiet c -> at_stage w0 id rs t w ->
  (forall a w', at_stage w0 id rs t w' -> Q (Normal a) w') ->
  wp c w Q.
Proof.
  intros Hc Hst HQ r w' E. destruct (Hc w r w' E) as [Hs [a ->]].
  apply HQ. eapply at_stage_same; eauto.
Qed.

Lemma quiet_ret {A} (a : A) : quiet (mret a).
Proof. intros w r w' [= <- <-]. split; [apply same_stage_refl | eauto]. Qed.

Lemma quiet_bind {A B} (c : Eff A) (f : A -> Eff B) :
  quiet c -> (forall a, quiet (f a)) -> quiet (c ≫= f).
Proof.
  unfold quiet, mbind, Eff_bind. intros Hc Hf w r w' E.
  destruct (c w) as [[a | e] w1] eqn:Ec.
  - destruct (Hc _ _ _ Ec) as [Hs _]. destruct (Hf _ _ _ _ E) as [Hs' Hr].
    split; [eapply same_stage_trans; eauto | exact Hr].
  - destruct (Hc _ _ _ Ec) as [_ [a Ha]]. discriminate.
Qed.

Lemma quiet_read_clock : quiet read_clock.
Proof. intros w r w' [= <- <-]. split; [repeat split | eauto]. Qed.

Lemma quiet_modify_gemini f : quiet (modify_gemini f).
Proof. intros w r w' [= <- <-]. split; [repeat split | eauto]. Qed.

Lemma quiet_modify_agent h f : quiet (modify_agent h f).
Proof. intros w r w' [= <- <-]. split; [repeat split | eauto]. Qed.

Lemma quiet_getAgentsByType type : quiet (getAgentsByType type).
Proof. intros w r w' [= <- <-]. split; [repeat split | eauto]. Qed.

Lemma quiet_storage_updateAgentStatus id status :
  quiet (storage_updateAgentStatus id status).
Proof.
  intros w r w'. unfold storage_updateAgentStatus.
  destruct (MemStorage.agents (storage w) !! id) as [a |] eqn:Ea.
  - intros [= <- <-]. unfold MemStorage.updateAgentStatus. simpl. rewrite Ea.
    split; [repeat split | eauto].
  - intros [= <- <-]. split; [apply same_stage_refl | eauto].
Qed.

Lemma quiet_updateStatus h status : quiet (updateStatus h status).
Proof.
  unfold updateStatus. apply quiet_bind; [apply quiet_modify_agent |].
  intros _ w r w'. destruct (agentManager w !! h) as [a |].
  - apply quiet_storage_updateAgentStatus.
  - intros [= <- <-]. split; [apply same_stage_refl | eauto].
Qed.

Lemma quiet_add_response_time startTime : quiet (add_response_time startTime).
Proof.
  unfold add_response_time. apply quiet_bind; [apply quiet_read_clock |].
  intros now. apply quiet_modify_gemini.
Qed.

(** A request: the counter and the journal move together. *)
Lemma wp_request {A} (e : Event) (k : nat -> Eff A) w0 id rs t w
  (Q : Completion A -> World -> Prop) :
  is_call e = true ->
  at_stage w0 id rs t w ->
  (forall w1,
      at_stage w0 id rs (t ++ [e]) w1 ->
      wp (k (requests w0 + List.length (List.filter is_call t))%nat) w1 Q) ->
  wp (n ← next_request; _ ← record e; k n) w Q.
Proof.
  intros He (Hrs & Hq & Hj & Hr) Hk r w' E.
  unfold mbind, Eff_bind, next_request, record in E. simpl in E.
  rewrite Hr in E at 1. revert E. apply Hk.
  repeat split; simpl; auto.
  - now rewrite Hj, app_assoc.
  - rewrite List.filter_app, length_app. simpl. rewrite He. simpl. lia.
Qed.

Lemma wp_gemini_call operation prompt fallback failure request w0 id rs t w
  (Q : Completion JSValue -> World -> Prop) :
  at_stage w0 id rs t w ->
  (forall r tl w',
      Forall is_llm_request tl -> at_stage w0 id rs (t ++ tl) w' -> Q r w') ->
  wp (gemini_call operation prompt fallback failure request) w Q.
Proof.
  intros Hst HQ. unfold gemini_call.
  apply wp_bind. eapply wp_quiet; [apply quiet_read_clock | exact Hst |].
  intros startTime w1 Hst1.
  apply wp_bind. eapply wp_quiet; [apply quiet_modify_gemini | exact Hst1 |].
  intros _ w2 Hst2.
  assert (Hcatch : forall tl e w3,
             Forall is_llm_request tl -> at_stage w0 id rs (t ++ tl) w3 ->
             wp (_ ← add_response_time startTime;
                 throw (JsError (failure +:+ error_message e))) w3 Q).
  { intros tl e w3 Htl Hst3.
    eapply wp_silent; [| exact Hst3 | intros; now apply (HQ _ tl)].
    apply silent_bind; [apply quiet_silent, quiet_add_response_time |]. intros _.
    apply silent_throw. }
  apply wp_try_catch.
  apply wp_bind. apply wp_lift.
  destruct (prompt request) as [[] | e];
    [| apply (Hcatch []); [constructor | rewrite app_nil_r; exact Hst2]].
  eapply (wp_request (LlmRequest operation request)); [reflexivity | exact Hst2 |].
  intros w3 Hst3.
  assert (Hsent : Forall is_llm_request [LlmRequest operation request])
    by (repeat constructor).
  eapply wp_silent; [| exact Hst3 |].
  - apply silent_bind; [apply silent_lift |]. intros response.
    apply silent_bind; [apply quiet_silent, quiet_add_response_time |]. intros _.
    apply silent_bind; [apply quiet_silent, quiet_modify_gemini |]. intros _.
    destruct (JSON_parse _); [apply silent_ret | apply silent_throw].
  - intros [v | e] w4 Hst4; [now apply (HQ _ [LlmRequest operation request]) |].
    now apply (Hcatch [LlmRequest operation request]).
Qed.

Lemma at_stage_nil w0 id rs t w :
  at_stage w0 id rs t w -> at_stage w0 id rs (t ++ []) w.
Proof. now rewrite app_nil_r. Qed.

Lemma wp_GeminiLLMAgent_process handle data w0 id rs t w
  (Q : Completion JSValue -> World -> Prop) :
  at_stage w0 id rs t w ->
  (forall r tl w',
      Forall is_llm_request tl -> at_stage w0 id rs (t ++ tl) w' -> Q r w') ->
  wp (GeminiLLMAgent_process handle data) w Q.
Proof.
  intros Hst HQ. unfold GeminiLLMAgent_process.
  apply wp_bind. eapply wp_quiet; [apply quiet_read_clock | exact Hst |].
  intros startTime w1 Hst1.
  apply wp_bind. eapply wp_quiet; [apply quiet_updateStatus | exact Hst1 |].
  intros _ w2 Hst2.
  assert (Hfail : forall tl e w3,
             Forall is_llm_request tl -> at_stage w0 id rs (t ++ tl) w3 ->
             wp (now ← read_clock;
                 _ ← updateMetrics handle false (now - startTime)
                       (Some (error_message e));
                 _ ← updateStatus handle "error";
                 throw e) w3 Q).
  { intros tl e w3 Htl Hst3.
    eapply wp_silent; [| exact Hst3 | intros; now apply (HQ _ tl)].
    apply silent_bind; [apply silent_read_clock |]. intros now.
    apply silent_bind; [apply silent_updateMetrics |]. intros _.
    apply silent_bind; [apply silent_updateStatus |]. intros _.
    apply silent_throw. }
  assert (Hdone : forall tl result w3,
             Forall is_llm_request tl -> at_stage w0 id rs (t ++ tl) w3 ->
             wp (now ← read_clock;
                 _ ← updateMetrics handle true (now - startTime) None;
                 _ ← updateStatus handle "idle";
                 mret result) w3
                (fun r w' => match r with
                             | Normal a => Q (Normal a) w'
                             | Throw e =>
                                 wp (now ← read_clock;
                                     _ ← updateMetrics handle false (now - startTime)
                                           (Some (error_message e));
                                     _ ← updateStatus handle "error";
                                     throw e) w' Q
                             end)).
  { intros tl result w3 Htl Hst3.
    eapply wp_quiet; [| exact Hst3 | intros; now apply (HQ _ tl)].
    apply quiet_bind; [apply quiet_read_clock |]. intros now.
    apply quiet_bind; [apply quiet_modify_agent |]. intros _.
    apply quiet_bind; [apply quiet_updateStatus |]. intros _.
    apply quiet_ret. }
  assert (Hcall : forall operation prompt fallback failure request w3,
             at_stage w0 id rs t w3 ->
             wp (gemini_call operation prompt fallback failure request) w3
                (fun r w' =>
                   match r with
                   | Normal a =>
                       wp (now ← read_clock;
                           _ ← updateMetrics handle true (now - startTime) None;
                           _ ← updateStatus handle "idle";
                           mret a) w'
                          (fun r w' => match r with
                             | Normal a => Q (Normal a) w'
                             | Throw e =>
                                 wp (now ← read_clock;
                                     _ ← updateMetrics handle false (now - startTime)
                                           (Some (error_message e));
                                     _ ← updateStatus handle "error";
                                     throw e) w' Q
                             end)
                   | Throw e =>
                       wp (now ← read_clock;
                           _ ← updateMetrics handle false (now - startTime)
                                 (Some (error_message e));
                           _ ← updateStatus handle "error";
                           throw e) w' Q
                   end)).
  { intros operation prompt fallback failure request w3 Hst3.
    apply wp_gemini_call with (1 := Hst3).
    intros [a | e] tl w4 Htl Hst4.
    - now apply (Hdone tl).
    - now apply (Hfail tl). }
  apply wp_try_catch.
  apply wp_bind. apply wp_lift.
  destruct (JSExn.get data "type") as [type | e];
    [| apply (Hfail []); [constructor | now apply at_stage_nil]].
  apply wp_bind. apply wp_lift.
  destruct (JSExn.get data "request") as [request | e];
    [| apply (Hfail []); [constructor | now apply at_stage_nil]].
  apply wp_bind.
  destruct (JS.is_string "synthesis" type); [exact (Hcall _ _ _ _ _ _ Hst2) |].
  destruct (JS.is_string "cuisine" type); [exact (Hcall _ _ _ _ _ _ Hst2) |].
  destruct (JS.is_string "address" type); [exact (Hcall _ _ _ _ _ _ Hst2) |].
  apply wp_throw. apply (Hfail []); [constructor | now apply at_stage_nil].
Qed.

Lemma assoc_set_other (key other : string) (v : JSValue)
  (props : list (string * JSValue)) :
  String.eqb other key = false ->
  JS.assoc key (JS.set other v props) = JS.assoc key props.
Proof.
  intros Hne. induction props as [| [k x] props IH]; simpl.
  - now rewrite Hne.
  - destruct (String.eqb k other) eqn:Ek; simpl.
    + apply String.eqb_eq in Ek as ->. now rewrite Hne.
    + destruct (String.eqb k key); [reflexivity | exact IH].
Qed.

Lemma non_empty_array_has_cuisine (l : list JSValue) :
  l <> [] ->
  negb (JS.truthy (JArr l)) || JS.is_num 0 (JS.prop (JArr l) "length") = false.
Proof. destruct l; [congruence | reflexivity]. Qed.

Lemma wp_llm_processing id scrapedData v extractedData w0 rs t w
  (Q : Completion (list (string * JSValue)) -> World -> Prop) :
  at_stage w0 id rs t w ->
  (forall r tl w',
      Forall is_llm_request tl ->
      at_stage w0 id rs (t ++ QueueStatus id "llm_processing" :: tl) w' ->
      (forall finalData, r = Normal finalData ->
         forall l, l <> [] ->
           PipelineOrchestrator.field "cuisineTypes" extractedData = JArr l ->
           PipelineOrchestrator.field "cuisineTypes" finalData = JArr l) ->
      Q r w') ->
  wp (PipelineOrchestrator.llm_processing id scrapedData v extractedData) w Q.
Proof.
  intros Hst HQ. unfold PipelineOrchestrator.llm_processing.
  apply wp_bind.
  eapply wp_updateQueueItem; [reflexivity | exact Hst |].
  intros _ w1 Hst1 _.
  (* the address step, from any record that kept the cuisine *)
  assert (Haddress : forall ed1 tl1 w2,
             Forall is_llm_request tl1 ->
             at_stage w0 id rs ((t ++ [QueueStatus id "llm_processing"]) ++ tl1) w2 ->
             (forall l, l <> [] ->
                PipelineOrchestrator.field "cuisineTypes" extractedData = JArr l ->
                PipelineOrchestrator.field "cuisineTypes" ed1 = JArr l) ->
             wp (if JS.truthy (PipelineOrchestrator.field "address" ed1)
                    && existsb (String.eqb "Missing geographical coordinates")
                               (warnings v)
                 then
                   agents ← getAgentsByType "gemini-llm";
                   match agents with
                   | geminiAgent :: _ =>
                       validatedAddress ← GeminiLLMAgent_process geminiAgent
                                            (PipelineOrchestrator.address_request ed1);
                       mret (JS.set "address"
                               (JObj (JS.spread
                                        (JS.own_props
                                           (PipelineOrchestrator.field "address" ed1))
                                        (JS.own_props validatedAddress)))
                               ed1)
                   | [] => mret ed1
                   end
                 else mret ed1) w2 Q).
  { intros ed1 tl1 w2 Htl1 Hst2 Hkeep.
    assert (Hsame : Q (Normal ed1) w2).
    { apply (HQ _ tl1); [exact Htl1 | | ].
      - now rewrite <- app_assoc in Hst2.
      - intros finalData [= <-]. exact Hkeep. }
    destruct (_ && _); [| now apply wp_ret].
    apply wp_bind. eapply wp_quiet; [apply quiet_getAgentsByType | exact Hst2 |].
    intros [| geminiAgent agents] w3 Hst3.
    - apply wp_ret. apply (HQ _ tl1); [exact Htl1 | | ].
      + now rewrite <- app_assoc in Hst3.
      + intros finalData [= <-]. exact Hkeep.
    - apply wp_bind. apply wp_GeminiLLMAgent_process with (1 := Hst3).
      intros [validatedAddress | e] tl2 w4 Htl2 Hst4.
      + apply wp_ret. apply (HQ _ (tl1 ++ tl2)).
        * now apply Forall_app.
        * now rewrite <- !app_assoc in Hst4.
        * intros finalData [= <-] l Hl El.
          unfold PipelineOrchestrator.field, JS.prop.
          rewrite assoc_set_other by reflexivity.
          exact (Hkeep l Hl El).
      + apply (HQ _ (tl1 ++ tl2)).
        * now apply Forall_app.
        * now rewrite <- !app_assoc in Hst4.
        * discriminate. }
  apply wp_bind.
  destruct (negb (JS.truthy (PipelineOrchestrator.field "cuisineTypes" extractedData))
            || JS.is_num 0 (JS.prop (PipelineOrchestrator.field "cuisineTypes"
                                       extractedData) "length")) eqn:Ecuisine.
  - apply wp_bind. eapply wp_quiet; [apply quiet_getAgentsByType | exact Hst1 |].
    intros [| geminiAgent agents] w2 Hst2.
    + apply wp_ret. apply (Haddress _ []); [constructor | now apply at_stage_nil | auto].
    + apply wp_bind. apply wp_GeminiLLMAgent_process with (1 := Hst2).
      intros [cuisineTypes | e] tl1 w3 Htl1 Hst3.
      * apply wp_ret. apply (Haddress _ tl1); [exact Htl1 | exact Hst3 |].
        intros l Hl El. rewrite El, non_empty_array_has_cuisine in Ecuisine by exact Hl.
        discriminate.
      * apply (HQ _ tl1); [exact Htl1 | now rewrite <- app_assoc in Hst3 | discriminate].
  - apply wp_ret. apply (Haddress _ []); [constructor | now apply at_stage_nil | auto].
Qed.

Lemma wp_failed queueItem e w0 rs t w (Q : Completion unit -> World -> Prop) :
  at_stage w0 (MemStorage.q_id queueItem) rs t w ->
  (forall w',
      at_stage w0 (MemStorage.q_id queueItem) rs
        (t ++ [QueueStatus (MemStorage.q_id queueItem) "failed"]) w' ->
      failed_entry (MemStorage.q_id queueItem) e w' ->
      Q (Throw e) w') ->
  wp (PipelineOrchestrator.failed queueItem e) w Q.
Proof.
  intros Hst HQ. unfold PipelineOrchestrator.failed.
  apply wp_bind. apply wp_read_clock with (1 := Hst). intros completedAt w1 Hst1.
  apply wp_bind. eapply wp_updateQueueItem; [reflexivity | exact Hst1 |].
  intros existing w2 Hst2 Hq. apply wp_throw. apply HQ; [exact Hst2 |].
  eexists. split; [exact Hq |]. simpl. eauto.
Qed.

(** Step 5 and the rest of the [try] block always go through. *)
Lemma wp_save url queueItem v finalData w0 rs t w
  (Q : Completion unit -> World -> Prop) :
  at_stage w0 (MemStorage.q_id queueItem) rs t w ->
  (forall rid at_ w',
      at_stage w0 (MemStorage.q_id queueItem)
        (<[rid := MemStorage.newRestaurant rid at_
                    (PipelineOrchestrator.to_insert url v finalData)]> rs)
        (t ++ [QueueStatus (MemStorage.q_id queueItem) "completed"]) w' ->
      Q (Normal tt) w') ->
  wp (restaurant ← storage_createRestaurant
                     (PipelineOrchestrator.to_insert url v finalData);
      completedAt ← read_clock;
      _ ← storage_updateQueueItem (MemStorage.q_id queueItem)
            {| MemStorage.p_restaurantName := None;
               MemStorage.p_status := Some "completed";
               MemStorage.p_startedAt := None;
               MemStorage.p_completedAt := Some completedAt;
               MemStorage.p_errorMessage := None |};
      now ← read_clock;
      _ ← storage_createExtractionLog
            (Some (MemStorage.r_id restaurant)) "full_extraction" "success"
            (now - MemStorage.q_createdAt queueItem)
            (JObj [("url", JStr url);
                   ("completeness", JNum (inject_Z (completeness v)));
                   ("accuracy", JNum (inject_Z (accuracy v)))]);
      mret tt) w Q.
Proof.
  intros Hst HQ.
  apply wp_bind. apply wp_createRestaurant with (1 := Hst). intros rid at_ w1 Hst1.
  apply wp_bind. apply wp_read_clock with (1 := Hst1). intros completedAt w2 Hst2.
  apply wp_bind. eapply wp_updateQueueItem; [reflexivity | exact Hst2 |].
  intros _ w3 Hst3 _.
  apply wp_bind. apply wp_read_clock with (1 := Hst3). intros now w4 Hst4.
  apply wp_bind.
  eapply wp_quiet; [| exact Hst4 |].
  - intros w5 r w' [= <- <-]. split; [repeat split | eauto].
  - intros _ w5 Hst5. apply wp_ret. now apply (HQ rid at_).
Qed.

Lemma processRestaurantUrl_summary (url : string) (w : World) :
  wp (PipelineOrchestrator.processRestaurantUrl url) w (run_summary url w).
Proof.
  unfold PipelineOrchestrator.processRestaurantUrl.
  apply wp_bind. apply wp_addToQueue. intros createdAt w1 Hst1.
  set (item := {| MemStorage.iq_restaurantName := "Processing...";
                  MemStorage.iq_sourceUrl := url;
                  MemStorage.iq_location := "Unknown";
                  MemStorage.iq_status := "queued" |}) in *.
  set (queueItem := fst (MemStorage.addToQueue (randomUUID (uuids w)) createdAt item
                           (storage w))).
  assert (Hid : MemStorage.q_id queueItem = randomUUID (uuids w)) by reflexivity.
  simpl in Hst1.
  set (id := randomUUID (uuids w)) in *.
  set (rs := MemStorage.restaurants (storage w)) in *.
  apply wp_try_catch. unfold PipelineOrchestrator.stages.
  apply wp_bind. apply wp_read_clock with (1 := Hst1). intros startedAt w2 Hst2.
  apply wp_bind. eapply wp_updateQueueItem; [reflexivity | exact Hst2 |].
  intros _ w3 Hst3 _. simpl in Hst3.
  apply wp_bind. eapply wp_quiet; [apply quiet_getAgentsByType | exact Hst3 |].
  intros webScraperAgents w4 Hst4.
  destruct (Nat.eqb (List.length webScraperAgents) 0).
  { (* no scraper agent *)
    apply wp_throw. eapply wp_failed; [exact Hst4 |].
    intros w5 Hst5 Hentry. eexists; eexists; split; [exact Hst5 |]. left. auto. }
  apply wp_bind. apply wp_scrapeRestaurant with (1 := Hst4). intros w5 Hst5.
  simpl in Hst5. simpl List.length. rewrite Nat.add_0_r.
  destruct (fetched_page (axios_get (requests w) url)) as [dom |] eqn:Epage.
  2: { destruct (no_page_is_an_error url _ Epage) as [msg Emsg]. rewrite Emsg. simpl.
       eapply wp_failed; [exact Hst5 |].
       intros w6 Hst6 Hentry. eexists; eexists; split; [exact Hst6 |].
       right; left. exists msg. eauto. }
  (* the page has come *)
  apply wp_bind. eapply wp_updateQueueItem; [reflexivity | exact Hst5 |].
  intros _ w6 Hst6 _. simpl in Hst6.
  apply wp_bind. apply wp_extractRestaurantData with (1 := Hst6).
  intros now w7 Hst7. simpl WebScrapingService.rawContent.
  set (extractedData := DataExtractionService.extractRestaurantData
                          (html dom) url now).
  apply wp_bind. eapply wp_updateQueueItem; [reflexivity | exact Hst7 |].
  intros _ w8 Hst8 _. simpl in Hst8.
  apply wp_bind. apply wp_lift.
  destruct (validateRestaurantData_returns (JObj extractedData)) as [v Ev].
  rewrite Ev.
  apply wp_bind. eapply wp_record; [reflexivity | exact Hst8 |].
  intros w9 Hst9. simpl in Hst9.
  apply wp_bind.
  destruct (PipelineOrchestrator.needs_llm v) eqn:Ellm.
  - (* through the LLM stage *)
    apply wp_llm_processing with (1 := Hst9).
    intros [finalData | e] tl w10 Htl Hst10 Hkeep.
    + eapply wp_save; [exact Hst10 |].
      intros rid at_ w11 Hst11. eexists; eexists; split; [exact Hst11 |].
      right; right. exists dom, now, v. split; [exact Epage |]. split; [exact Ev |].
      right. split; [exact Ellm |]. exists tl. split; [exact Htl |].
      left. exists finalData, rid, at_. repeat split.
      intros l Hl El. now apply (Hkeep finalData eq_refl l).
    + eapply wp_failed; [exact Hst10 |].
      intros w11 Hst11 Hentry. eexists; eexists; split; [exact Hst11 |].
      right; right. exists dom, now, v. split; [exact Epage |]. split; [exact Ev |].
      right. split; [exact Ellm |]. exists tl. split; [exact Htl |].
      right. exists e. repeat split. exact Hentry.
  - (* stored at once *)
    apply wp_ret. eapply wp_save; [exact Hst9 |].
    intros rid at_ w10 Hst10. eexists; eexists; split; [exact Hst10 |].
    right; right. exists dom, now, v. split; [exact Epage |]. split; [exact Ev |].
    left. split; [exact Ellm |]. repeat split. eauto.
Qed.

Lemma wp_run {A} (c : Eff A) (w : World) (Q : Completion A -> World -> Prop) :
  wp c w Q -> Q (fst (c w)) (snd (c w)).
Proof. intros Hc. apply Hc. now destruct (c w). Qed.

(** C8: when the fetch of a work item fails, [processRestaurantUrl] throws,
    the queue entry of the item is left failed, with a completion date and
    with the message of the error, and the stored restaurants are those of
    before.  (Without a scraper agent the run fails before the fetch, with
    the same outcome.) *)
Theorem fetch_failure_fails_the_item (url : string) (w : World) (msg : string) :
  fetch_error url (axios_get (requests w) url) = Some msg ->
  exists e,
    fst (PipelineOrchestrator.processRestaurantUrl url w) = Throw e
    /\ (e = JsError msg \/ e = JsError "No web scraper agents available")
    /\ failed_entry (randomUUID (uuids w)) e
         (snd (PipelineOrchestrator.processRestaurantUrl url w))
    /\ MemStorage.restaurants
         (storage (snd (PipelineOrchestrator.processRestaurantUrl url w)))
       = MemStorage.restaurants (storage w).
Proof.
  intros Hfetch.
  destruct (wp_run _ _ _ (processRestaurantUrl_summary url w))
    as (t & rs' & (Hrs & _) & Hcases).
  destruct Hcases as [(Hr & -> & _ & Hentry)
                     | [(msg' & Hmsg & Hr & -> & _ & Hentry)
                       | (dom & now & v & Hdata & _)]].
  - eexists. split; [exact Hr |]. auto.
  - assert (msg' = msg) as -> by congruence.
    eexists. split; [exact Hr |]. auto.
  - rewrite (page_is_no_error url _ _ Hdata) in Hfetch. discriminate.
Qed.

Lemma extractCuisineTypes_non_empty (dom : Dom) (restaurantName : string) :
  DataExtractionService.extractCuisineTypes dom restaurantName <> [].
Proof.
  unfold DataExtractionService.extractCuisineTypes.
  destruct (map fst _) as [| c cs]; simpl; discriminate.
Qed.

Lemma extractCuisineTypes_default (dom : Dom) (restaurantName : string) :
  (forall cuisine keywords keyword,
      In (cuisine, keywords) DataExtractionService.cuisineKeywords ->
      In keyword keywords ->
      JS.includes (JS.toLowerCase (all_text dom "body" +:+ " " +:+ restaurantName))
                  keyword = false) ->
  DataExtractionService.extractCuisineTypes dom restaurantName = ["Indian"].
Proof.
  intros Hnone. unfold DataExtractionService.extractCuisineTypes.
  set (text := JS.toLowerCase (all_text dom "body" +:+ " " +:+ restaurantName)) in *.
  assert (Hfilter : forall entries,
             (forall entry, In entry entries ->
                            In entry DataExtractionService.cuisineKeywords) ->
             List.filter (fun entry => existsb (fun keyword => JS.includes text keyword)
                                               (snd entry)) entries = []).
  { induction entries as [| [cuisine keywords] entries IH]; intros Hsub; simpl;
      [reflexivity |].
    assert (Hno : existsb (fun keyword => JS.includes text keyword) keywords = false).
    { apply not_true_is_false. intros Hex. apply existsb_exists in Hex as (k & Hk & Hin).
      rewrite (Hnone cuisine keywords k) in Hin; [discriminate | | exact Hk].
      apply Hsub. now left. }
    rewrite Hno. apply IH. intros entry Hin. apply Hsub. now right. }
  rewrite Hfilter by auto. reflexivity.
Qed.

Lemma extracted_cuisineTypes (htmlContent url : string) (now : Z) :
  PipelineOrchestrator.field "cuisineTypes"
    (DataExtractionService.extractRestaurantData htmlContent url now)
  = JArr (map JStr
            (DataExtractionService.extractCuisineTypes (cheerio_load htmlContent)
               (if negb (String.eqb (DataExtractionService.extractName
                                       (cheerio_load htmlContent)) "")
                then DataExtractionService.extractName (cheerio_load htmlContent)
                else ""))).
Proof. reflexivity. Qed.

Lemma stored_cuisine (rid url : string) (at_ : Z) (v : ValidationResult)
  (finalData : list (string * JSValue)) (l : list JSValue) :
  PipelineOrchestrator.field "cuisineTypes" finalData = JArr l ->
  MemStorage.r_cuisineTypes
    (MemStorage.newRestaurant rid at_ (PipelineOrchestrator.to_insert url v finalData))
  = JArr l.
Proof. intros E. simpl. now rewrite E. Qed.

(** C6: every restaurant that a run of [processRestaurantUrl] stores has at
    least one cuisine tag (a run that throws stores none).  The extractor
    never returns an empty list of cuisine tags, and returns the single tag
    Indian when no keyword occurs; the orchestrator substitutes that tag in
    step 5 when the list is missing. *)
Theorem stored_cuisineTypes_non_empty :
  (forall dom restaurantName,
      DataExtractionService.extractCuisineTypes dom restaurantName <> []
      /\ ((forall cuisine keywords keyword,
              In (cuisine, keywords) DataExtractionService.cuisineKeywords ->
              In keyword keywords ->
              JS.includes
                (JS.toLowerCase (all_text dom "body" +:+ " " +:+ restaurantName))
                keyword = false) ->
          DataExtractionService.extractCuisineTypes dom restaurantName = ["Indian"]))
  /\ (forall url v finalData,
        JS.assoc "cuisineTypes" finalData = None
        \/ JS.assoc "cuisineTypes" finalData = Some JUndefined
        \/ JS.assoc "cuisineTypes" finalData = Some JNull ->
        MemStorage.i_cuisineTypes (PipelineOrchestrator.to_insert url v finalData)
        = JArr [JStr "Indian"])
  /\ (forall url w,
        match fst (PipelineOrchestrator.processRestaurantUrl url w) with
        | Normal _ =>
            exists rid restaurant l,
              MemStorage.restaurants
                (storage (snd (PipelineOrchestrator.processRestaurantUrl url w)))
              = <[rid := restaurant]> (MemStorage.restaurants (storage w))
              /\ MemStorage.r_cuisineTypes restaurant = JArr l
              /\ (1 <= List.length l)%nat
        | Throw _ =>
            MemStorage.restaurants
              (storage (snd (PipelineOrchestrator.processRestaurantUrl url w)))
            = MemStorage.restaurants (storage w)
        end).
Proof.
  split; [| split].
  - intros dom restaurantName. split.
    + apply extractCuisineTypes_non_empty.
    + apply extractCuisineTypes_default.
  - intros url v finalData Hmissing.
    unfold PipelineOrchestrator.to_insert, PipelineOrchestrator.field. simpl.
    destruct Hmissing as [-> | [-> | ->]]; reflexivity.
  - intros url w.
    destruct (wp_run _ _ _ (processRestaurantUrl_summary url w))
      as (t & rs' & (Hrs & _) & Hcases).
    assert (Hlen : forall htmlContent now,
               exists l,
                 PipelineOrchestrator.field "cuisineTypes"
                   (DataExtractionService.extractRestaurantData htmlContent url now)
                 = JArr l /\ l <> [] /\ (1 <= List.length l)%nat).
    { intros htmlContent now. eexists. split; [apply extracted_cuisineTypes |].
      pose proof (extractCuisineTypes_non_empty (cheerio_load htmlContent)
                    (if negb (String.eqb (DataExtractionService.extractName
                                            (cheerio_load htmlContent)) "")
                     then DataExtractionService.extractName (cheerio_load htmlContent)
                     else "")) as Hne.
      destruct (DataExtractionService.extractCuisineTypes _ _); [congruence |].
      simpl. split; [discriminate | lia]. }
    destruct Hcases as [(-> & -> & _) | [(msg & _ & -> & -> & _) | Hvalidated]];
      [exact Hrs | exact Hrs |].
    destruct Hvalidated as (dom & now & v & _ & _ & Hcases).
    destruct (Hlen (html dom) now) as (l & El & Hl & Hlength).
    destruct Hcases as [(_ & -> & _ & rid & at_ & ->)
                       | (_ & tl & _ & [(finalData & rid & at_ & -> & _ & -> & Hkeep)
                                       | (e & -> & _ & -> & _)])].
    + exists rid; eexists; exists l; split; [exact Hrs |]. split; [| exact Hlength].
      now apply stored_cuisine.
    + exists rid; eexists; exists l; split; [exact Hrs |]. split; [| exact Hlength].
      apply stored_cuisine. now apply Hkeep.
    + exact Hrs.
Qed.

Lemma not_validated_in_llm_requests (id : string) (v : ValidationResult)
  (tl : list Event) :
  Forall is_llm_request tl -> ~ In (Validated id v) tl.
Proof.
  induction 1 as [| e tl He _ IH]; intros Hin; [exact Hin |].
  destruct Hin as [E | Hin]; [subst e; exact He | exact (IH Hin)].
Qed.

(** C2: a run reaches the validator unless it stops for lack of a scraper
    agent or on a failed fetch; in every run that reaches the validator, the
    queue entry is set to the LLM stage if and only if the outcome is
    invalid or its completeness is below 80; when the outcome is valid and
    the completeness is at least 80, the run sends no request to the
    reasoning service, returns, and stores the restaurant. *)
Theorem llm_stage_iff_invalid_or_incomplete (url : string) (w : World) :
  exists t,
    journal (snd (PipelineOrchestrator.processRestaurantUrl url w)) = journal w ++ t
    /\ (fst (PipelineOrchestrator.processRestaurantUrl url w)
          = Throw (JsError "No web scraper agents available")
        \/ (exists msg, fetch_error url (axios_get (requests w) url) = Some msg)
        \/ exists v, In (Validated (randomUUID (uuids w)) v) t)
    /\ forall v,
         In (Validated (randomUUID (uuids w)) v) t ->
         (In (QueueStatus (randomUUID (uuids w)) "llm_processing") t
          <-> isValid v = false \/ (completeness v < 80)%Z)
         /\ (isValid v = true -> (80 <= completeness v)%Z ->
             (forall operation request, ~ In (LlmRequest operation request) t)
             /\ fst (PipelineOrchestrator.processRestaurantUrl url w) = Normal tt
             /\ exists rid restaurant,
                  MemStorage.restaurants
                    (storage (snd (PipelineOrchestrator.processRestaurantUrl url w)))
                  = <[rid := restaurant]> (MemStorage.restaurants (storage w))).
Proof.
  destruct (wp_run _ _ _ (processRestaurantUrl_summary url w))
    as (t & rs' & (Hrs & _ & Hj & _) & Hcases).
  exists t. split; [exact Hj |]. split.
  { destruct Hcases as [(Hr & _) | [(msg & Hmsg & _) | Hvalidated]];
      [now left | right; left; eauto |].
    right; right.
    destruct Hvalidated as (dom & now & v & _ & _ & Hcases). exists v.
    destruct Hcases as [(_ & _ & -> & _)
                       | (_ & tl & _ & [(finalData & rid & at_ & _ & -> & _)
                                       | (e & _ & -> & _)])];
      apply in_or_app; left; simpl; tauto. }
  intros v' Hin.
  assert (Hneeds : forall v,
             PipelineOrchestrator.needs_llm v = true
             <-> isValid v = false \/ (completeness v < 80)%Z).
  { intros v. unfold PipelineOrchestrator.needs_llm.
    rewrite orb_true_iff, negb_true_iff, Z.ltb_lt. tauto. }
  destruct Hcases as [(_ & _ & -> & _) | [(msg & _ & _ & _ & -> & _) | Hvalidated]].
  { simpl in Hin. repeat destruct Hin as [Hin | Hin]; try discriminate; tauto. }
  { simpl in Hin. repeat destruct Hin as [Hin | Hin]; try discriminate; tauto. }
  destruct Hvalidated as (dom & now & v & _ & _ & Hcases).
  destruct Hcases as [(Hllm & Hr & -> & rid & at_ & ->) | (Hllm & tl & Htl & Hcases)].
  - (* stored at once *)
    assert (v' = v) as ->.
    { simpl in Hin. repeat destruct Hin as [Hin | Hin]; try discriminate;
        [congruence | tauto]. }
    split.
    + rewrite <- Hneeds, Hllm. split; [| discriminate].
      intros Hin'. simpl in Hin'.
      repeat destruct Hin' as [Hin' | Hin']; try discriminate; tauto.
    + intros _ _. split; [| split; [exact Hr | eauto]].
      intros operation request Hin'. simpl in Hin'.
      repeat destruct Hin' as [Hin' | Hin']; try discriminate; tauto.
  - (* through the LLM stage *)
    assert (Ht : exists last,
               t = validated_trace (randomUUID (uuids w)) url v
                   ++ QueueStatus (randomUUID (uuids w)) "llm_processing" :: tl
                   ++ [QueueStatus (randomUUID (uuids w)) last]).
    { destruct Hcases as [(finalData & rid & at_ & _ & -> & _)
                         | (e & _ & -> & _)]; eauto. }
    destruct Ht as (last & ->).
    assert (v' = v) as ->.
    { apply in_app_or in Hin as [Hin | Hin].
      - simpl in Hin. repeat destruct Hin as [Hin | Hin]; try discriminate;
          [congruence | tauto].
      - destruct Hin as [Hin | Hin]; [discriminate |].
        apply in_app_or in Hin as [Hin | Hin].
        + now apply not_validated_in_llm_requests in Hin.
        + simpl in Hin. destruct Hin as [Hin | []]. discriminate. }
    split.
    + rewrite <- Hneeds, Hllm. split; [reflexivity |]. intros _.
      apply in_or_app. right. now left.
    + intros Hvalid Hcomplete. apply Hneeds in Hllm. lia || (destruct Hllm; [congruence | lia]).
Qed.

End Pipeline.

(** ** The records that the validator accepts and rejects *)

Section Records.
Context `{Host}.
Import SchemaValidationService.

Lemma parse_object_eq (shape : list (string * Zod.ZodType)) (p : list string)
  (props : list (string * JSValue)) :
  Zod.parse (Zod.ZObject shape) p (JObj props)
  = Zod.merge_object
      (map (fun kf => (fst kf, JS.has_own (fst kf) props,
                       Zod.parse (snd kf) (p ++ [fst kf])
                         (default JUndefined (JS.assoc (fst kf) props))))
           shape).
Proof.
  cbn [Zod.parse]. f_equal.
  induction shape as [| [k f] shape IH]; [reflexivity |].
  simpl map. now rewrite <- IH.
Qed.

Lemma merge_object_failure rs l : Zod.merge_object rs = Zod.Failure l -> l <> [].
Proof.
  unfold Zod.merge_object. destruct (concat _); [discriminate |].
  intros [= <-]. discriminate.
Qed.

Lemma merge_array_failure pre rs l : Zod.merge_array pre rs = Zod.Failure l -> l <> [].
Proof.
  unfold Zod.merge_array. destruct (_ ++ _); [discriminate |].
  intros [= <-]. discriminate.
Qed.

(** A failed parse reports at least one issue. *)
Lemma parse_failure_issues (s : Zod.ZodType) :
  forall p v l, Zod.parse s p v = Zod.Failure l -> l <> [].
Proof.
  induction s as [checks | min max | | values | inner IH | element IH minLength
                 | value IH | options | shape]; intros p v l.
  - cbn [Zod.parse]. destruct v; try (intros [= <-]; discriminate).
    destruct (concat _); [discriminate | intros [= <-]; discriminate].
  - cbn [Zod.parse]. destruct v; try (intros [= <-]; discriminate).
    destruct (Zod.number_check _ _ _ _); [discriminate | intros [= <-]; discriminate].
  - cbn [Zod.parse]. destruct v; try (intros [= <-]; discriminate).
  - cbn [Zod.parse]. destruct v; try (intros [= <-]; discriminate).
    destruct (existsb _ _); [discriminate | intros [= <-]; discriminate].
  - cbn [Zod.parse]. destruct v; try apply IH. discriminate.
  - cbn [Zod.parse]. destruct v; try (intros [= <-]; discriminate).
    apply merge_array_failure.
  - cbn [Zod.parse]. destruct v; try (intros [= <-]; discriminate).
    apply merge_object_failure.
  - cbn [Zod.parse]. induction options as [| o options IHo].
    + intros [= <-]. discriminate.
    + destruct (Zod.parse o p v); [discriminate | exact IHo].
  - destruct v; try (cbn [Zod.parse]; intros [= <-]; discriminate).
    rewrite parse_object_eq. apply merge_object_failure.
Qed.

Lemma no_issues_success (s : Zod.ZodType) p v :
  Zod.issues_of (Zod.parse s p v) = [] -> exists w, Zod.parse s p v = Zod.Success w.
Proof.
  destruct (Zod.parse s p v) as [w | l] eqn:E; [eauto |].
  simpl. intros ->. now apply parse_failure_issues in E.
Qed.

Lemma kept_props_absent (F : string * Zod.ZodType -> string * bool * Zod.SafeParse)
  (shape : list (string * Zod.ZodType)) (k : string) :
  (forall kf, fst (fst (F kf)) = fst kf) ->
  ~ In k (map fst shape) ->
  JS.assoc k (Zod.kept_props (map F shape)) = None.
Proof.
  intros HF. induction shape as [| [k0 f0] shape IH]; simpl; [reflexivity |].
  intros Hk. specialize (HF (k0, f0)) as HF0.
  destruct (F (k0, f0)) as [[k1 b] [v | l]]; simpl in HF0; subst k1; [| tauto].
  destruct (negb (JS.is_undefined v) || b); [| tauto].
  simpl. destruct (String.eqb k0 k) eqn:E; [| tauto].
  apply String.eqb_eq in E. tauto.
Qed.

(** The parsed object holds, under each key of the shape, the parsed value
    of that field. *)
Lemma parsed_field (shape : list (string * Zod.ZodType)) (p : list string)
  (props : list (string * JSValue)) (v : JSValue) (k : string) (f : Zod.ZodType) :
  Zod.parse (Zod.ZObject shape) p (JObj props) = Zod.Success v ->
  NoDup (map fst shape) -> In (k, f) shape ->
  exists vk,
    Zod.parse f (p ++ [k]) (default JUndefined (JS.assoc k props)) = Zod.Success vk
    /\ JS.prop v k = vk.
Proof.
  rewrite parse_object_eq. unfold Zod.merge_object.
  set (F := fun kf : string * Zod.ZodType =>
              (fst kf, JS.has_own (fst kf) props,
               Zod.parse (snd kf) (p ++ [fst kf])
                 (default JUndefined (JS.assoc (fst kf) props)))).
  destruct (concat _) eqn:E; [| discriminate]. intros [= <-]. simpl JS.prop.
  revert E. induction shape as [| [k0 f0] shape IH]; [intros _ _ [] |].
  intros E Hnd Hin. simpl in E. apply app_eq_nil in E as [E0 E].
  apply NoDup_cons in Hnd as [Hk0 Hnd].
  destruct (no_issues_success _ _ _ E0) as [v0 Hv0].
  simpl map. unfold F at 1. simpl fst. simpl snd. rewrite Hv0. simpl Zod.kept_props.
  destruct Hin as [[= <- <-] | Hin].
  - exists v0. split; [exact Hv0 |].
    destruct (negb (JS.is_undefined v0) || JS.has_own k0 props) eqn:Ekeep.
    + simpl. now rewrite String.eqb_refl.
    + apply orb_false_iff in Ekeep as [Eu _]. apply negb_false_iff in Eu.
      destruct v0; try discriminate.
      rewrite kept_props_absent; [reflexivity | reflexivity |].
      now rewrite <- list_elem_of_In.
  - assert (Hne : String.eqb k0 k = false).
    { apply String.eqb_neq. intros ->. apply Hk0.
      apply list_elem_of_In. apply in_map_iff. now exists (k, f). }
    destruct (IH E Hnd Hin) as (vk & Hvk & Hprop). exists vk. split; [exact Hvk |].
    destruct (negb (JS.is_undefined v0) || JS.has_own k0 props); [| exact Hprop].
    simpl. now rewrite Hne.
Qed.

Lemma parse_object_inv (shape : list (string * Zod.ZodType)) (p : list string)
  (x v : JSValue) :
  Zod.parse (Zod.ZObject shape) p x = Zod.Success v ->
  (exists props, x = JObj props) /\ (exists parsed, v = JObj parsed).
Proof.
  destruct x; try (cbn [Zod.parse]; discriminate).
  rewrite parse_object_eq. unfold Zod.merge_object.
  destruct (concat _); [| discriminate]. intros [= <-]. eauto.
Qed.

Lemma parse_string_inv (checks : list Zod.StringCheck) (p : list string) (x v : JSValue) :
  Zod.parse (Zod.ZString checks) p x = Zod.Success v ->
  exists s, x = JStr s /\ v = JStr s
            /\ concat (map (Zod.string_check p s) checks) = [].
Proof.
  cbn [Zod.parse]. destruct x; try discriminate.
  destruct (concat _) eqn:E; [| discriminate]. intros [= <-]. eauto.
Qed.

Lemma parse_optional_inv (inner : Zod.ZodType) (p : list string) (x v : JSValue) :
  Zod.parse (Zod.ZOptional inner) p x = Zod.Success v ->
  v = JUndefined \/ Zod.parse inner p x = Zod.Success v.
Proof.
  cbn [Zod.parse]. destruct x; auto. intros [= <-]. now left.
Qed.

Lemma parse_number_inv (min max : option Z) (p : list string) (x v : JSValue) :
  Zod.parse (Zod.ZNumber min max) p x = Zod.Success v ->
  exists q, x = JNum q /\ v = JNum q /\ Zod.number_check p q min max = [].
Proof.
  cbn [Zod.parse]. destruct x; try discriminate.
  destruct (Zod.number_check _ _ _ _) eqn:E; [| discriminate]. intros [= <-]. eauto.
Qed.

Lemma parsed_elems_length (rs : list Zod.SafeParse) :
  concat (map Zod.issues_of rs) = [] ->
  (forall r l, In r rs -> r = Zod.Failure l -> l <> []) ->
  List.length (Zod.parsed_elems rs) = List.length rs.
Proof.
  induction rs as [| r rs IH]; [reflexivity |]. simpl. intros E Hne.
  apply app_eq_nil in E as [E0 E].
  destruct r as [w | l].
  - simpl. f_equal. apply IH; [exact E |]. intros r l Hin. apply Hne. now right.
  - simpl in E0. subst l. now destruct (Hne (Zod.Failure []) [] (or_introl eq_refl) eq_refl).
Qed.

Lemma parse_array_inv (element : Zod.ZodType) (n : nat) (p : list string)
  (x v : JSValue) :
  Zod.parse (Zod.ZArray element (Some n)) p x = Zod.Success v ->
  exists l, v = JArr l /\ (n <= List.length l)%nat.
Proof.
  cbn [Zod.parse]. destruct x as [| | | | | elems |]; try discriminate.
  unfold Zod.merge_array.
  match goal with |- context [concat (map Zod.issues_of ?rs)] => set (results := rs) end.
  destruct (Nat.ltb (List.length elems) n) eqn:En; [discriminate |].
  simpl app. destruct (concat (map Zod.issues_of results)) eqn:E; [| discriminate].
  intros [= <-]. eexists. split; [reflexivity |].
  apply Nat.ltb_ge in En.
  assert (Hlen : forall i l0,
             List.length
               ((fix each (i : nat) (l : list JSValue) : list Zod.SafeParse :=
                   match l with
                   | [] => []
                   | x :: l' =>
                       Zod.parse element (p ++ [pretty i]) x :: each (S i) l'
                   end) i l0) = List.length l0).
  { intros i l0. revert i. induction l0 as [| x l0 IH]; intros i; simpl;
      [reflexivity | now rewrite IH]. }
  rewrite parsed_elems_length; [subst results; rewrite Hlen; exact En | exact E |].
  intros r l Hin ->.
  assert (Hall : forall i l0 r,
             In r ((fix each (i : nat) (l : list JSValue) : list Zod.SafeParse :=
                      match l with
                      | [] => []
                      | x :: l' =>
                          Zod.parse element (p ++ [pretty i]) x :: each (S i) l'
                      end) i l0) ->
             exists q y, r = Zod.parse element q y).
  { intros i l0. revert i. induction l0 as [| x l0 IH]; intros i r; simpl; [tauto |].
    intros [<- | Hr]; [eauto | eapply IH; eauto]. }
  destruct (Hall _ _ _ Hin) as (q & y & Hr). symmetry in Hr.
  now apply parse_failure_issues in Hr.
Qed.

Lemma parse_non_empty_string (p : list string) (x v : JSValue) :
  Zod.parse (Zod.ZString [Zod.Min 1]) p x = Zod.Success v -> non_empty_string v.
Proof.
  intros E. apply parse_string_inv in E as (s & -> & -> & E).
  exists s. split; [reflexivity |]. simpl in E.
  destruct (String.length s); [discriminate | lia].
Qed.

Lemma parse_optional_string (checks : list Zod.StringCheck) (p : list string)
  (x v : JSValue) :
  Zod.parse (Zod.ZOptional (Zod.ZString checks)) p x = Zod.Success v ->
  optional_string v.
Proof.
  intros E. apply parse_optional_inv in E as [-> | E]; [now left |].
  apply parse_string_inv in E as (s & _ & -> & _). right. eauto.
Qed.

Lemma parse_optional_number (lo : Z) (hi : option Z) (p : list string) (x v : JSValue) :
  Zod.parse (Zod.ZOptional (Zod.ZNumber (Some lo) hi)) p x = Zod.Success v ->
  optional_number (inject_Z lo) (option_map inject_Z hi) v.
Proof.
  intros E. apply parse_optional_inv in E as [-> | E]; [now left |].
  apply parse_number_inv in E as (q & _ & -> & E). right. exists q.
  split; [reflexivity |]. unfold Zod.number_check in E.
  apply app_eq_nil in E as [Elo Ehi].
  destruct (Qle_bool (inject_Z lo) q); [| discriminate]. split; [reflexivity |].
  destruct hi as [h |]; [| exact I]. simpl.
  destruct (Qle_bool q (inject_Z h)); [reflexivity | discriminate].
Qed.

(** What the schema accepts has the shape [accepted]. *)
Lemma schema_accepts (data v : JSValue) :
  Zod.parse restaurantDataSchema [] data = Zod.Success v -> accepted v.
Proof.
  intros E. unfold restaurantDataSchema in E.
  destruct (parse_object_inv _ _ _ _ E) as [[props ->] Hv].
  pose proof E as Fname. eapply (parsed_field _ _ _ _ "name") in Fname;
    [| compute_done | simpl; tauto].
  pose proof E as Faddress. eapply (parsed_field _ _ _ _ "address") in Faddress;
    [| compute_done | simpl; tauto].
  pose proof E as Fcuisine. eapply (parsed_field _ _ _ _ "cuisineTypes") in Fcuisine;
    [| compute_done | simpl; tauto].
  pose proof E as Fcontact. eapply (parsed_field _ _ _ _ "contactInfo") in Fcontact;
    [| compute_done | simpl; tauto].
  pose proof E as Fratings. eapply (parsed_field _ _ _ _ "ratings") in Fratings;
    [| compute_done | simpl; tauto].
  pose proof E as Fhours. eapply (parsed_field _ _ _ _ "operatingHours") in Fhours;
    [| compute_done | simpl; tauto].
  destruct Fname as (vn & Hn & <-). destruct Faddress as (va & Ha & <-).
  destruct Fcuisine as (vc & Hc & <-). destruct Fcontact as (vi & Hi & <-).
  destruct Fratings as (vr & Hr & <-). destruct Fhours as (vh & Hh & <-).
  unfold accepted. split; [exact Hv |].
  split; [exact (parse_non_empty_string _ _ _ Hn) |].
  (* the address *)
  unfold addressSchema in Ha.
  destruct (parse_object_inv _ _ _ _ Ha) as [[pa Epa] Hva]. rewrite Epa in Ha.
  split; [exact Hva |].
  pose proof Ha as Fcity. eapply (parsed_field _ _ _ _ "city") in Fcity;
    [| compute_done | simpl; tauto].
  pose proof Ha as Fstate. eapply (parsed_field _ _ _ _ "state") in Fstate;
    [| compute_done | simpl; tauto].
  pose proof Ha as Fcountry. eapply (parsed_field _ _ _ _ "country") in Fcountry;
    [| compute_done | simpl; tauto].
  destruct Fcity as (v1 & H1 & <-). destruct Fstate as (v2 & H2 & <-).
  destruct Fcountry as (v3 & H3 & <-).
  split; [exact (parse_non_empty_string _ _ _ H1) |].
  split; [exact (parse_non_empty_string _ _ _ H2) |].
  split; [exact (parse_non_empty_string _ _ _ H3) |].
  (* the cuisine types *)
  split; [exact (parse_array_inv _ _ _ _ _ Hc) |].
  (* the contact information *)
  unfold contactInfoSchema in Hi.
  destruct (parse_object_inv _ _ _ _ Hi) as [[pi Epi] Hvi]. rewrite Epi in Hi.
  split; [exact Hvi |].
  pose proof Hi as Fphone. eapply (parsed_field _ _ _ _ "phone") in Fphone;
    [| compute_done | simpl; tauto].
  pose proof Hi as Femail. eapply (parsed_field _ _ _ _ "email") in Femail;
    [| compute_done | simpl; tauto].
  destruct Fphone as (v4 & H4 & <-). destruct Femail as (v5 & H5 & <-).
  split; [exact (parse_optional_string _ _ _ _ H4) |].
  split; [exact (parse_optional_string _ _ _ _ H5) |].
  (* the ratings *)
  unfold ratingsSchema in Hr.
  destruct (parse_object_inv _ _ _ _ Hr) as [[pr Epr] Hvr]. rewrite Epr in Hr.
  split; [exact Hvr |].
  pose proof Hr as Faverage. eapply (parsed_field _ _ _ _ "average") in Faverage;
    [| compute_done | simpl; tauto].
  pose proof Hr as Ftotal. eapply (parsed_field _ _ _ _ "total") in Ftotal;
    [| compute_done | simpl; tauto].
  destruct Faverage as (v6 & H6 & <-). destruct Ftotal as (v7 & H7 & <-).
  split; [exact (parse_optional_number _ _ _ _ _ H6) |].
  split; [exact (parse_optional_number _ _ _ _ _ H7) |].
  (* the operating hours *)
  unfold operatingHoursSchema in Hh. cbn [Zod.parse] in Hh.
  destruct (default JUndefined (JS.assoc "operatingHours" props));
    try discriminate.
  unfold Zod.merge_object in Hh. destruct (concat _); [| discriminate].
  injection Hh as <-. eexists. reflexivity.
Qed.

Lemma non_empty_truthy (x : JSValue) : non_empty_string x -> JS.truthy x = true.
Proof. intros (s & -> & Hs). destruct s; [simpl in Hs; lia | reflexivity]. Qed.

Lemma object_truthy (x : JSValue) : is_object x -> JS.truthy x = true.
Proof. intros [props ->]. reflexivity. Qed.

Lemma get_object (x : JSValue) (key : string) :
  is_object x -> JSExn.get x key = Normal (JS.prop x key).
Proof. intros [props ->]. reflexivity. Qed.

Lemma phone_check_returns (x : JSValue) :
  optional_string x ->
  exists bad,
    (if JS.truthy x then ok ← isValidPhoneNumber x; mret (negb ok) else mret false)
    = Normal bad.
Proof.
  intros [-> | [s ->]]; [simpl; eauto |].
  destruct (JS.truthy (JStr s)); simpl; eauto.
Qed.

Lemma indian_check_returns (x : JSValue) :
  optional_string x ->
  exists foreign,
    (if JS.truthy x then ok ← isIndianPhoneNumber x; mret (negb ok) else mret false)
    = Normal foreign.
Proof.
  intros [-> | [s ->]]; [simpl; eauto |].
  destruct (JS.truthy (JStr s)); simpl; eauto.
Qed.

Lemma rating_in_range (x : JSValue) :
  optional_number 0 (Some 5%Q) x ->
  JS.truthy x && (JS.lt_num x 0 || JS.gt_num x 5) = false.
Proof.
  intros [-> | (q & -> & Hlo & Hhi)]; [reflexivity |].
  unfold JS.lt_num, JS.gt_num. cbn [JS.ToNumber].
  rewrite Hlo, Hhi. simpl. apply andb_false_r.
Qed.

Lemma non_empty_array (x : JSValue) :
  (exists l, x = JArr l /\ (1 <= List.length l)%nat) ->
  negb (JS.truthy x) || JS.is_num 0 (JS.prop x "length") = false.
Proof. intros (l & -> & Hl). destruct l; [simpl in Hl; lia | reflexivity]. Qed.

(** On the data that the schema accepts, [calculateAccuracy] returns, and
    only the penalties for a one-letter name, a phone, an email and empty
    hours can apply. *)
Lemma accuracy_of_accepted (v : JSValue) :
  accepted v -> exists a, calculateAccuracy v = Normal a /\ (70 <= a <= 100)%Z.
Proof.
  intros (Hv & Hname & Haddress & Hcity & Hstate & _ & Hcuisine & Hcontact & Hphone
          & Hemail & Hratings & Haverage & _ & Hhours).
  unfold calculateAccuracy.
  rewrite (get_object v "name" Hv). cbn [mbind Completion_bind].
  rewrite (get_object v "address" Hv). cbn [mbind Completion_bind].
  rewrite (get_object v "contactInfo" Hv). cbn [mbind Completion_bind].
  rewrite (get_object _ "phone" Hcontact). cbn [mbind Completion_bind].
  destruct (phone_check_returns _ Hphone) as [bad ->]. cbn [mbind Completion_bind].
  rewrite (get_object _ "email" Hcontact). cbn [mbind Completion_bind].
  rewrite (get_object v "cuisineTypes" Hv). cbn [mbind Completion_bind].
  rewrite (get_object v "ratings" Hv). cbn [mbind Completion_bind].
  rewrite (get_object _ "average" Hratings). cbn [mbind Completion_bind].
  rewrite (get_object v "operatingHours" Hv). cbn [mbind Completion_bind].
  rewrite (object_truthy _ Haddress), (non_empty_truthy _ Hcity),
    (non_empty_truthy _ Hstate), (non_empty_array _ Hcuisine),
    (rating_in_range _ Haverage).
  eexists. split; [reflexivity |].
  unfold penalty. simpl negb. simpl orb.
  repeat match goal with |- context [if ?c then _ else _] => destruct c end; lia.
Qed.

Lemma warnings_of_accepted (v : JSValue) :
  accepted v -> exists w, generateWarnings v = Normal w.
Proof.
  intros (Hv & Hname & Haddress & Hcity & Hstate & _ & Hcuisine & Hcontact & Hphone
          & Hemail & Hratings & Haverage & _ & Hhours).
  unfold generateWarnings.
  rewrite (get_object v "name" Hv). cbn [mbind Completion_bind].
  rewrite (get_object v "cuisineTypes" Hv). cbn [mbind Completion_bind].
  rewrite (get_object v "contactInfo" Hv). cbn [mbind Completion_bind].
  rewrite (get_object _ "phone" Hcontact). cbn [mbind Completion_bind].
  destruct (indian_check_returns _ Hphone) as [foreign ->]. cbn [mbind Completion_bind].
  rewrite (get_object v "address" Hv). cbn [mbind Completion_bind].
  rewrite (get_object _ "coordinates" Haddress). cbn [mbind Completion_bind].
  rewrite (get_object v "ratings" Hv). cbn [mbind Completion_bind].
  rewrite (get_object _ "average" Hratings). cbn [mbind Completion_bind].
  rewrite (get_object _ "total" Hratings). cbn [mbind Completion_bind].
  eauto.
Qed.

(** What the validator returns on a record that the schema accepts. *)
Lemma validate_parsed (data v : JSValue) :
  Zod.parse restaurantDataSchema [] data = Zod.Success v ->
  exists a w,
    (70 <= a <= 100)%Z /\
    validateRestaurantData data =
      Normal {| isValid := true; validatedData := Some v; errors := [];
                completeness := 100; accuracy := a; missingFields := [];
                warnings := w |}.
Proof.
  intros Hv. pose proof (schema_accepts data v Hv) as Hshape.
  destruct (accuracy_of_accepted v Hshape) as (a & Ha & Hrange).
  destruct (warnings_of_accepted v Hshape) as (w & Hw).
  exists a, w. split; [exact Hrange |].
  unfold validateRestaurantData, try_block, JSExn.parse.
  rewrite Hv, Ha, Hw. simpl. rewrite calculateCompleteness_cases.
  destruct Hshape as ([props ->] & _). reflexivity.
Qed.

(** What the validator returns on a record that the schema rejects. *)
Lemma validate_rejected (data : JSValue) (issues : list ZodIssue) :
  Zod.parse restaurantDataSchema [] data = Zod.Failure issues ->
  exists c,
    (c = 0 \/ c = 100)%Z /\
    validateRestaurantData data =
      Normal {| isValid := false; validatedData := None;
                errors := map (fun err => JS.join "." (path err) +:+ ": " +:+ message err)
                              issues;
                completeness := c; accuracy := 0;
                missingFields := extractMissingFields issues;
                warnings := [] |}.
Proof.
  intros E. exists (partial_completeness data). split.
  - unfold partial_completeness, JSExn.parse.
    destruct (Zod.parse (Zod.deepPartialify restaurantDataSchema) [] data);
      [| now left].
    rewrite calculateCompleteness_cases. destruct (JS.is_undefined _); auto.
  - unfold validateRestaurantData, try_block, JSExn.parse. rewrite E. reflexivity.
Qed.

(** X1: a record that the validator reports valid has completeness 100, an
    accuracy of at least 70 (so the accuracy was computed without error), no
    errors and no missing fields, and the validated data has the shape
    [accepted]. *)
Theorem valid_records_are_scored (data : JSValue) (result : ValidationResult) :
  validateRestaurantData data = Normal result -> isValid result = true ->
  completeness result = 100%Z
  /\ (70 <= accuracy result <= 100)%Z
  /\ errors result = [] /\ missingFields result = []
  /\ exists v, validatedData result = Some v /\ accepted v.
Proof.
  intros E Hvalid. destruct (valid_then_parsed data result E Hvalid) as [v Hv].
  destruct (validate_parsed data v Hv) as (a & w & Hrange & E').
  rewrite E' in E. injection E as <-. simpl.
  repeat split; try lia. exists v. split; [reflexivity |].
  exact (schema_accepts data v Hv).
Qed.

(** X2: the completeness that the validator returns is 0 or 100 and nothing
    else; a record reported invalid has at least one error, accuracy 0, no
    warnings and no validated data; and the condition of the orchestrator
    for the LLM stage holds exactly for the records reported invalid. *)
Theorem invalid_records_and_the_llm_condition (data : JSValue)
  (result : ValidationResult) :
  validateRestaurantData data = Normal result ->
  (completeness result = 0%Z \/ completeness result = 100%Z)
  /\ (isValid result = false ->
      errors result <> [] /\ accuracy result = 0%Z /\ warnings result = []
      /\ validatedData result = None)
  /\ (PipelineOrchestrator.needs_llm result = true <-> isValid result = false).
Proof.
  intros E.
  destruct (Zod.parse restaurantDataSchema [] data) as [v | issues] eqn:Hparse.
  - destruct (validate_parsed data v Hparse) as (a & w & Hrange & E').
    rewrite E' in E. injection E as <-.
    unfold PipelineOrchestrator.needs_llm. simpl.
    split; [now right |]. split; [discriminate | split; discriminate].
  - destruct (validate_rejected data issues Hparse) as (c & Hc & E').
    rewrite E' in E. injection E as <-.
    unfold PipelineOrchestrator.needs_llm. simpl.
    split; [exact Hc |]. split; [| tauto].
    intros _. apply parse_failure_issues in Hparse.
    destruct issues; [congruence |]. repeat split. discriminate.
Qed.

End Records.

Lemma valid_records_are_scored_witness :
  exists result,
    SchemaValidationService.validateRestaurantData (H := Sample.host)
      (JObj (Sample.record (JStr "Spice Route"))) = Normal result
    /\ SchemaValidationService.isValid result = true
    /\ (SchemaValidationService.completeness result = 100%Z
        /\ (70 <= SchemaValidationService.accuracy result <= 100)%Z
        /\ SchemaValidationService.errors result = []
        /\ SchemaValidationService.missingFields result = []
        /\ exists v, SchemaValidationService.validatedData result = Some v
                     /\ accepted v).
Proof.
  eexists. split; [vm_compute; reflexivity |]. split; [reflexivity |].
  apply (@valid_records_are_scored Sample.host
           (JObj (Sample.record (JStr "Spice Route"))));
    vm_compute; reflexivity.
Defined.

Lemma invalid_records_and_the_llm_condition_witness :
  exists result,
    SchemaValidationService.validateRestaurantData (H := Sample.host)
      (JObj Sample.record_without_name_and_city) = Normal result
    /\ SchemaValidationService.isValid result = false
    /\ SchemaValidationService.completeness result = 100%Z
    /\ PipelineOrchestrator.needs_llm result = true.
Proof.
  eexists. split; [vm_compute; reflexivity |]. split; [reflexivity |].
  split; [reflexivity |].
  apply (@invalid_records_and_the_llm_condition Sample.host
           (JObj Sample.record_without_name_and_city));
    vm_compute; reflexivity.
Defined.

(** ** The two phone checks *)

Section Phones.
Import SchemaValidationService.

Lemma filter_chars_twice (p q : ascii -> bool) (s : string) :
  JS.filter_chars q (JS.filter_chars p s) = JS.filter_chars (fun c => p c && q c) s.
Proof.
  induction s as [| c s IH]; [reflexivity |]. simpl.
  destruct (p c); simpl; [destruct (q c) |]; now rewrite IH.
Qed.

Lemma filter_chars_ext (p q : ascii -> bool) (s : string) :
  (forall c, p c = q c) -> JS.filter_chars p s = JS.filter_chars q s.
Proof.
  intros E. induction s as [| c s IH]; [reflexivity |]. simpl.
  now rewrite E, IH.
Qed.

Lemma filter_chars_all (p q : ascii -> bool) (s : string) :
  (forall c, p c = true -> q c = true) ->
  JS.forall_chars p s = true -> JS.filter_chars q s = s.
Proof.
  intros Hpq. induction s as [| c s IH]; [reflexivity |]. simpl.
  intros [Hc Hs]%andb_true_iff. now rewrite (Hpq c Hc), (IH Hs).
Qed.

Lemma digit_no_plus (c : ascii) : JS.is_digit c = true -> no_plus c = true.
Proof.
  unfold JS.is_digit, no_plus. intros [H1 _]%andb_true_iff.
  destruct (Ascii.eqb_spec c "+") as [-> |]; [discriminate | reflexivity].
Qed.

(** The shape of a string that [/^[6-9]\d{9}$/] accepts. *)
Lemma ten_digits_inv (s : string) :
  ten_digits s = true ->
  exists c rest, s = String c rest /\ no_plus c = true
                 /\ Ascii.eqb c "0" = false
                 /\ JS.forall_chars JS.is_digit rest = true.
Proof.
  destruct s as [| c rest]; [discriminate |]. unfold ten_digits.
  intros [[[H1%Nat.leb_le H2]%andb_true_iff _]%andb_true_iff H3]%andb_true_iff.
  exists c, rest. repeat split; try assumption.
  - unfold no_plus.
    destruct (Ascii.eqb_spec c "+") as [-> |]; [vm_compute in H1; lia | reflexivity].
  - destruct (Ascii.eqb_spec c "0") as [-> |]; [vm_compute in H1; lia | reflexivity].
Qed.

Lemma ten_digits_clean (s : string) :
  ten_digits s = true ->
  JS.filter_chars no_plus s = s /\ JS.startsWith s "0" = false.
Proof.
  intros (c & rest & -> & Hc & H0 & Hrest)%ten_digits_inv. simpl.
  rewrite Hc, H0, (filter_chars_all JS.is_digit no_plus rest digit_no_plus Hrest).
  split; reflexivity.
Qed.

Lemma startsWith_inv (s pre : string) :
  JS.startsWith s pre = true -> s = pre +:+ JS.drop (String.length pre) s.
Proof.
  revert s. induction pre as [| p pre IH]; intros s; [reflexivity |].
  destruct s as [| c s]; [discriminate |]. simpl.
  intros [->%Ascii.eqb_eq Hs]%andb_true_iff.
  change (String p s = String p (pre +:+ JS.drop (String.length pre) s)).
  f_equal. now apply IH.
Qed.

Lemma indian_of_valid (clean : string) :
  phoneRegex_test clean = true ->
  JS.startsWith (JS.filter_chars no_plus clean) "91"
  || ten_digits (JS.filter_chars no_plus clean)
  = negb (JS.startsWith clean "0").
Proof.
  unfold phoneRegex_test.
  intros [[Hten | [Hpre Hten]%andb_true_iff]%orb_true_iff
         | [Hpre Hten]%andb_true_iff]%orb_true_iff.
  - destruct (ten_digits_clean clean Hten) as [-> ->]. rewrite Hten.
    apply orb_true_r.
  - pose proof (startsWith_inv clean "+91" Hpre) as E. cbn [String.length] in E.
    set (d := JS.drop 3 clean) in *. clearbody d. subst clean.
    change ("+91" +:+ d) with (String "+" (String "9" (String "1" d))).
    destruct (ten_digits_clean d Hten) as [E _]. cbn. rewrite E.
    apply ten_digits_inv in Hten as (c & rest & -> & _). reflexivity.
  - pose proof (startsWith_inv clean "0" Hpre) as E. cbn [String.length] in E.
    set (d := JS.drop 1 clean) in *. clearbody d. subst clean.
    change ("0" +:+ d) with (String "0" d).
    destruct (ten_digits_clean d Hten) as [E _]. cbn. rewrite E.
    apply ten_digits_inv in Hten as (c & rest & -> & _). reflexivity.
Qed.

(** X3: the two phone checks compared.  [isValidPhoneNumber] strips white
    space and hyphens and accepts an optional prefix [+91] or [0];
    [isIndianPhoneNumber] strips the plus sign as well and knows only the
    prefix [91].  So a phone that [isValidPhoneNumber] accepts is taken as
    Indian exactly when it is not written with the leading [0]: such a
    number costs no accuracy and yet raises the warning. *)
Theorem valid_phone_is_indian_unless_zero_prefixed (s : string) :
  isValidPhoneNumber (JStr s) = Normal true ->
  isIndianPhoneNumber (JStr s)
  = Normal (negb (JS.startsWith
                    (JS.filter_chars (fun c => negb (JS.is_space c || Ascii.eqb c "-")) s)
                    "0")).
Proof.
  unfold isValidPhoneNumber, isIndianPhoneNumber. simpl. intros [= Hvalid].
  f_equal. rewrite <- (indian_of_valid _ Hvalid).
  rewrite filter_chars_twice.
  rewrite (filter_chars_ext _ (fun c => negb (JS.is_space c || Ascii.eqb c "-") && no_plus c) s);
    [reflexivity |].
  intros c. unfold no_plus. now rewrite !negb_orb.
Qed.

End Phones.

Lemma valid_phone_is_indian_unless_zero_prefixed_witness :
  SchemaValidationService.isValidPhoneNumber (JStr "098765 43210") = Normal true
  /\ SchemaValidationService.isIndianPhoneNumber (JStr "098765 43210") = Normal false.
Proof.
  split; [reflexivity |].
  apply (valid_phone_is_indian_unless_zero_prefixed "098765 43210"). reflexivity.
Defined.

(** ** Every run of the pipeline *)

Section Runs.
Import SchemaValidationService.
Context `{Host} `{Heuristics} `{Env}.

Lemma frame_refl w : frame w w.
Proof. repeat split. Qed.

Lemma frame_trans w1 w2 w3 : frame w1 w2 -> frame w2 w3 -> frame w1 w3.
Proof. intros (? & ? & ?) (? & ? & ?). repeat split; congruence. Qed.

Lemma wp_and_framed {A} (c : Eff A) w (Q : Completion A -> World -> Prop) :
  framed c -> wp c w (fun r w' => frame w w' -> Q r w') -> wp c w Q.
Proof. intros Hf Hc r w' E. apply (Hc r w' E). exact (Hf _ _ _ E). Qed.

Lemma framed_read_clock : framed read_clock.
Proof. intros w r w' [= <- <-]. repeat split. Qed.

Lemma framed_addToQueue item : framed (storage_addToQueue item).
Proof. intros w r w' [= <- <-]. repeat split. Qed.

Lemma framed_updateQueueItem id item : framed (storage_updateQueueItem id item).
Proof.
  intros w r w' E.
  unfold storage_updateQueueItem, mbind, Eff_bind, try_storage,
    MemStorage.updateQueueItem in E.
  destruct (MemStorage.processingQueue (storage w) !! id) as [existing |].
  - destruct (MemStorage.p_status item); injection E as <- <-; repeat split.
  - injection E as <- <-. repeat split.
Qed.

Lemma framed_scrapeRestaurant url : framed (scrapeRestaurant url).
Proof.
  intros w r w' E. unfold scrapeRestaurant, mbind, Eff_bind, next_request, record in E.
  simpl in E.
  destruct (axios_get _ url) as [data | data | msg | msg];
    [| destruct (cheerio_load_value data) | |]; injection E as <- <-; repeat split.
Qed.

Lemma framed_extractRestaurantData content url : framed (extractRestaurantData content url).
Proof. intros w r w' [= <- <-]. repeat split. Qed.

Lemma framed_record e : framed (record e).
Proof. intros w r w' [= <- <-]. repeat split. Qed.

Lemma framed_createRestaurant restaurant : framed (storage_createRestaurant restaurant).
Proof. intros w r w' [= <- <-]. repeat split. Qed.

(** The handles of the agents of a type are as many as the agents. *)
Lemma handles_length {A} (p : A -> bool) (l : list A) (g : nat -> nat) :
  List.length (map fst (List.filter (fun ia : nat * A => p (snd ia))
                          (imap (fun i a => (g i, a)) l)))
  = List.length (List.filter p l).
Proof.
  revert g. induction l as [| a l IH]; intros g; [reflexivity |]. simpl.
  destruct (p a); simpl; [f_equal |]; apply (IH (g ∘ S)).
Qed.

Lemma wp_getAgentsByType type w (Q : Completion (list nat) -> World -> Prop) :
  (forall handles,
      List.length handles
      = List.length (List.filter (fun a => String.eqb (Agents.type a) type)
                       (agentManager w)) ->
      Q (Normal handles) w) ->
  wp (getAgentsByType type) w Q.
Proof.
  intros HQ r w' [= <- <-]. apply HQ.
  apply (handles_length (fun a => String.eqb (Agents.type a) type) _ (fun i => i)).
Qed.

Lemma wp_failed_framed queueItem e w0 rs t w (Q : Completion unit -> World -> Prop) :
  at_stage w0 (MemStorage.q_id queueItem) rs t w -> frame w0 w ->
  (forall w',
      at_stage w0 (MemStorage.q_id queueItem) rs
        (t ++ [QueueStatus (MemStorage.q_id queueItem) "failed"]) w' ->
      frame w0 w' ->
      failed_entry (MemStorage.q_id queueItem) e w' ->
      Q (Throw e) w') ->
  wp (PipelineOrchestrator.failed queueItem e) w Q.
Proof.
  intros Hst Hfr HQ. apply wp_and_framed.
  - intros w1 r w' E. unfold PipelineOrchestrator.failed, mbind, Eff_bind in E.
    simpl in E.
    destruct (storage_updateQueueItem _ _ _) as [[a | e'] w2] eqn:Eu;
      apply framed_updateQueueItem in Eu; injection E as <- <-;
      exact Eu.
  - eapply wp_failed; [exact Hst |]. intros w' Hst' Hentry Hfr'.
    apply HQ; [exact Hst' | eapply frame_trans; eauto | exact Hentry].
Qed.

(** Step 5 and the rest of the [try] block always go through, and leave
    the queue entry completed. *)
Lemma wp_save_completed url queueItem v finalData w0 rs t w
  (Q : Completion unit -> World -> Prop) :
  at_stage w0 (MemStorage.q_id queueItem) rs t w -> frame w0 w ->
  (forall rid at_ w',
      at_stage w0 (MemStorage.q_id queueItem)
        (<[rid := MemStorage.newRestaurant rid at_
                    (PipelineOrchestrator.to_insert url v finalData)]> rs)
        (t ++ [QueueStatus (MemStorage.q_id queueItem) "completed"]) w' ->
      frame w0 w' ->
      completed_entry (MemStorage.q_id queueItem) w' ->
      Q (Normal tt) w') ->
  wp (restaurant ← storage_createRestaurant
                     (PipelineOrchestrator.to_insert url v finalData);
      completedAt ← read_clock;
      _ ← storage_updateQueueItem (MemStorage.q_id queueItem)
            {| MemStorage.p_restaurantName := None;
               MemStorage.p_status := Some "completed";
               MemStorage.p_startedAt := None;
               MemStorage.p_completedAt := Some completedAt;
               MemStorage.p_errorMessage := None |};
      now ← read_clock;
      _ ← storage_createExtractionLog
            (Some (MemStorage.r_id restaurant)) "full_extraction" "success"
            (now - MemStorage.q_createdAt queueItem)
            (JObj [("url", JStr url);
                   ("completeness", JNum (inject_Z (completeness v)));
                   ("accuracy", JNum (inject_Z (accuracy v)))]);
      mret tt) w Q.
Proof.
  intros Hst Hfr HQ.
  apply wp_bind. apply wp_and_framed; [apply framed_createRestaurant |].
  apply wp_createRestaurant with (1 := Hst). intros rid at_ w1 Hst1 Hfr1.
  apply wp_bind. apply wp_and_framed; [apply framed_read_clock |].
  apply wp_read_clock with (1 := Hst1). intros completedAt w2 Hst2 Hfr2.
  apply wp_bind. apply wp_and_framed; [apply framed_updateQueueItem |].
  eapply wp_updateQueueItem; [reflexivity | exact Hst2 |].
  intros existing w3 (Hrs & Hq' & Hj & Hr) Hq Hfr3.
  destruct Hfr as (? & ? & ?), Hfr1 as (? & ? & ?), Hfr2 as (? & ? & ?),
    Hfr3 as (? & ? & ?).
  intros r w' [= <- <-]. apply (HQ rid at_).
  - repeat split; simpl; auto.
  - repeat split; simpl; congruence.
  - eexists. split; [exact Hq |]. simpl. eauto.
Qed.

(** The LLM stage on a record that has its cuisine tags, after a
    validation without warnings: the status is written, and that is all. *)
Lemma wp_llm_processing_idle id scrapedData v extractedData (l : list JSValue)
  w0 rs t w (Q : Completion (list (string * JSValue)) -> World -> Prop) :
  PipelineOrchestrator.field "cuisineTypes" extractedData = JArr l -> l <> [] ->
  warnings v = [] ->
  at_stage w0 id rs t w -> frame w0 w ->
  (forall w',
      at_stage w0 id rs (t ++ [QueueStatus id "llm_processing"]) w' ->
      frame w0 w' ->
      Q (Normal extractedData) w') ->
  wp (PipelineOrchestrator.llm_processing id scrapedData v extractedData) w Q.
Proof.
  intros El Hl Hw Hst Hfr HQ. unfold PipelineOrchestrator.llm_processing.
  apply wp_bind. apply wp_and_framed; [apply framed_updateQueueItem |].
  eapply wp_updateQueueItem; [reflexivity | exact Hst |].
  intros _ w1 Hst1 _ Hfr1.
  rewrite El, (non_empty_array_has_cuisine l Hl), Hw.
  apply wp_bind. apply wp_ret. simpl existsb. rewrite andb_false_r.
  apply wp_ret. apply HQ; [exact Hst1 | eapply frame_trans; eauto].
Qed.

Lemma extracted_cuisine_non_empty (htmlContent url : string) (now : Z) :
  exists l,
    PipelineOrchestrator.field "cuisineTypes"
      (DataExtractionService.extractRestaurantData htmlContent url now) = JArr l
    /\ l <> [].
Proof.
  eexists. split; [apply extracted_cuisineTypes |].
  intros E%map_eq_nil. now apply extractCuisineTypes_non_empty in E.
Qed.

(** The condition of the LLM stage, on the results of the validator. *)
Lemma needs_llm_invalid (data : JSValue) (v : ValidationResult) :
  validateRestaurantData data = Normal v ->
  PipelineOrchestrator.needs_llm v = negb (isValid v)
  /\ (isValid v = false -> warnings v = []).
Proof.
  intros E.
  destruct (Zod.parse restaurantDataSchema [] data) as [x | issues] eqn:Hparse.
  - destruct (validate_parsed data x Hparse) as (a & w & _ & E').
    rewrite E' in E. injection E as <-. split; [reflexivity | discriminate].
  - destruct (validate_rejected data issues Hparse) as (c & _ & E').
    rewrite E' in E. injection E as <-. split; reflexivity.
Qed.

Lemma processRestaurantUrl_outcome (url : string) (w : World) :
  wp (PipelineOrchestrator.processRestaurantUrl url) w (run_outcome url w).
Proof.
  unfold PipelineOrchestrator.processRestaurantUrl.
  apply wp_bind. apply wp_and_framed; [apply framed_addToQueue |].
  apply wp_addToQueue. intros createdAt w1 Hst1 Hfr1.
  set (item := {| MemStorage.iq_restaurantName := "Processing...";
                  MemStorage.iq_sourceUrl := url;
                  MemStorage.iq_location := "Unknown";
                  MemStorage.iq_status := "queued" |}) in *.
  set (queueItem := fst (MemStorage.addToQueue (randomUUID (uuids w)) createdAt item
                           (storage w))).
  assert (Hid : MemStorage.q_id queueItem = randomUUID (uuids w)) by reflexivity.
  simpl in Hst1.
  set (id := randomUUID (uuids w)) in *.
  set (rs := MemStorage.restaurants (storage w)) in *.
  apply wp_try_catch. unfold PipelineOrchestrator.stages.
  apply wp_bind. apply wp_and_framed; [apply framed_read_clock |].
  apply wp_read_clock with (1 := Hst1). intros startedAt w2 Hst2 Hfr2.
  pose proof (frame_trans _ _ _ Hfr1 Hfr2) as Hf2.
  apply wp_bind. apply wp_and_framed; [apply framed_updateQueueItem |].
  eapply wp_updateQueueItem; [reflexivity | exact Hst2 |].
  intros _ w3 Hst3 _ Hfr3. simpl in Hst3.
  pose proof (frame_trans _ _ _ Hf2 Hfr3) as Hf3.
  apply wp_bind. apply wp_getAgentsByType. intros webScraperAgents Hlen.
  destruct Hf3 as (Hagents & Hf3'). rewrite Hagents in Hlen. fold (scrapers w) in Hlen.
  assert (Hf3 : frame w w3) by (split; assumption).
  destruct (Nat.eqb_spec (List.length webScraperAgents) 0) as [Hnone | Hsome].
  { (* no scraper agent *)
    apply wp_throw. eapply wp_failed_framed; [exact Hst3 | exact Hf3 |].
    intros w5 Hst5 Hf5 Hentry. unfold run_outcome. split; [exact Hf5 |].
    eexists; eexists; split; [exact Hst5 |]. left.
    split; [| auto]. rewrite Hnone in Hlen. now destruct (scrapers w). }
  assert (Hscrapers : scrapers w <> []).
  { intros E. rewrite E in Hlen. simpl in Hlen. lia. }
  apply wp_bind. apply wp_and_framed; [apply framed_scrapeRestaurant |].
  apply wp_scrapeRestaurant with (1 := Hst3). intros w5 Hst5 Hfr5.
  pose proof (frame_trans _ _ _ Hf3 Hfr5) as Hf5.
  simpl in Hst5. simpl List.length. rewrite Nat.add_0_r.
  destruct (fetched_page (axios_get (requests w) url)) as [dom |] eqn:Epage.
  2: { destruct (no_page_is_an_error url _ Epage) as [msg Emsg]. rewrite Emsg. simpl.
       eapply wp_failed_framed; [exact Hst5 | exact Hf5 |].
       intros w6 Hst6 Hf6 Hentry. unfold run_outcome. split; [exact Hf6 |].
       eexists; eexists; split; [exact Hst6 |].
       right; left. split; [exact Hscrapers |]. exists msg. eauto. }
  (* the page has come *)
  apply wp_bind. apply wp_and_framed; [apply framed_updateQueueItem |].
  eapply wp_updateQueueItem; [reflexivity | exact Hst5 |].
  intros _ w6 Hst6 _ Hfr6. simpl in Hst6.
  pose proof (frame_trans _ _ _ Hf5 Hfr6) as Hf6.
  apply wp_bind. apply wp_and_framed; [apply framed_extractRestaurantData |].
  apply wp_extractRestaurantData with (1 := Hst6).
  intros now w7 Hst7 Hfr7. simpl WebScrapingService.rawContent.
  pose proof (frame_trans _ _ _ Hf6 Hfr7) as Hf7.
  set (extractedData := DataExtractionService.extractRestaurantData
                          (html dom) url now).
  apply wp_bind. apply wp_and_framed; [apply framed_updateQueueItem |].
  eapply wp_updateQueueItem; [reflexivity | exact Hst7 |].
  intros _ w8 Hst8 _ Hfr8. simpl in Hst8.
  pose proof (frame_trans _ _ _ Hf7 Hfr8) as Hf8.
  apply wp_bind. apply wp_lift.
  destruct (validateRestaurantData_returns (JObj extractedData)) as [v Ev].
  rewrite Ev.
  apply wp_bind. apply wp_and_framed; [apply framed_record |].
  eapply wp_record; [reflexivity | exact Hst8 |].
  intros w9 Hst9 Hfr9. simpl in Hst9.
  pose proof (frame_trans _ _ _ Hf8 Hfr9) as Hf9.
  destruct (needs_llm_invalid _ v Ev) as [Ellm Hwarn]. rewrite Ellm.
  assert (Hdone : forall tl w10,
             at_stage w id rs (validated_trace id url v ++ tl) w10 ->
             frame w w10 ->
             tl = (if isValid v then [] else [QueueStatus id "llm_processing"]) ->
             wp (restaurant ← storage_createRestaurant
                     (PipelineOrchestrator.to_insert url v extractedData);
      completedAt ← read_clock;
      _ ← storage_updateQueueItem (MemStorage.q_id queueItem)
            {| MemStorage.p_restaurantName := None;
               MemStorage.p_status := Some "completed";
               MemStorage.p_startedAt := None;
               MemStorage.p_completedAt := Some completedAt;
               MemStorage.p_errorMessage := None |};
      now ← read_clock;
      _ ← storage_createExtractionLog
            (Some (MemStorage.r_id restaurant)) "full_extraction" "success"
            (now - MemStorage.q_createdAt queueItem)
            (JObj [("url", JStr url);
                   ("completeness", JNum (inject_Z (completeness v)));
                   ("accuracy", JNum (inject_Z (accuracy v)))]);
      mret tt) w10
               (fun r w' =>
                  match r with
                  | Normal a => run_outcome url w (Normal a) w'
                  | Throw e => wp (PipelineOrchestrator.failed queueItem e) w'
                                 (run_outcome url w)
                  end)).
  { intros tl w10 Hst10 Hf10 Etl.
    eapply wp_save_completed; [exact Hst10 | exact Hf10 |].
    intros rid at_ w11 Hst11 Hf11 Hentry. unfold run_outcome. split; [exact Hf11 |].
    rewrite <- app_assoc in Hst11.
    eexists; eexists; split; [exact Hst11 |].
    right; right. split; [exact Hscrapers |].
    exists dom, now, v. split; [exact Epage |]. split; [exact Ev |].
    split; [reflexivity |]. split; [now rewrite Etl |].
    split; [exact Hentry |]. eauto. }
  apply wp_bind.
  destruct (isValid v) eqn:Evalid; simpl negb; cbv iota.
  - apply wp_ret. apply (Hdone []); [now rewrite app_nil_r | exact Hf9 | reflexivity].
  - destruct (extracted_cuisine_non_empty (html dom) url now)
      as (l & El & Hl).
    eapply wp_llm_processing_idle;
      [exact El | exact Hl | now apply Hwarn | exact Hst9 | exact Hf9 |].
    intros w10 Hst10 Hf10.
    apply (Hdone [QueueStatus id "llm_processing"]);
      [ | exact Hf10 | reflexivity].
    exact Hst10.
Qed.

Lemma no_llm_request_in (id url : string) (v : ValidationResult) (tl : list Event) :
  Forall (fun e => ~ is_llm_request e) tl ->
  Forall (fun e => ~ is_llm_request e) (validated_trace id url v ++ tl).
Proof. intros Htl. repeat constructor; auto. Qed.

(** X4: a run of [processRestaurantUrl] never sends a request to the LLM,
    whatever the page, the heuristics and the state: the records that go
    through the LLM stage are the invalid ones, which carry no warning, and
    the extractor has always set a cuisine tag.  The only request that
    leaves the process is the one fetch; the agents of the manager, the
    agents in storage and the counters of the Gemini service stay as they
    were. *)
Theorem processRestaurantUrl_never_asks_the_llm (url : string) (w : World) :
  let w' := snd (PipelineOrchestrator.processRestaurantUrl url w) in
  (exists t,
     journal w' = journal w ++ t
     /\ Forall (fun e => ~ is_llm_request e) t
     /\ (List.filter is_call t = [] \/ List.filter is_call t = [HttpGet url]))
  /\ (requests w' <= requests w + 1)%nat
  /\ geminiService w' = geminiService w
  /\ agentManager w' = agentManager w
  /\ MemStorage.agents (storage w') = MemStorage.agents (storage w).
Proof.
  intros w'.
  destruct (wp_run _ _ _ (processRestaurantUrl_outcome url w))
    as ((Hagents & Hgemini & Hstored) & t & rs' & (_ & _ & Hj & Hr) & Hcases).
  fold w' in Hagents, Hgemini, Hstored, Hj, Hr, Hcases.
  assert (Ht : Forall (fun e => ~ is_llm_request e) t
               /\ (List.filter is_call t = [] \/ List.filter is_call t = [HttpGet url])).
  { destruct Hcases as [(_ & _ & _ & -> & _)
                       | [(_ & msg & _ & _ & _ & -> & _)
                         | (_ & dom & now & v & _ & _ & _ & -> & _)]].
    - split; [repeat constructor; auto | now left].
    - split; [repeat constructor; auto | now right].
    - split.
      + apply no_llm_request_in. destruct (isValid v); repeat constructor; auto.
      + right. destruct (isValid v); reflexivity. }
  destruct Ht as [Hno Hcalls].
  split; [exists t; auto |]. split; [| auto].
  rewrite Hr. destruct Hcalls as [-> | ->]; simpl; lia.
Qed.

(** X5: what decides the result of a run of [processRestaurantUrl].
    Without a scraper agent the run throws that there is none.  With one,
    the run returns when [axios.get] resolves with a body that cheerio
    loads and the scraper can query, which any string is; it throws the
    failure to scrape, with the message of axios, when [axios.get] rejects
    with an axios error, and a scraping error when anything else is thrown
    at the fetch, at the load of a body that is not a string or at the
    queries on it.  Nothing later in the run makes it throw. *)
Theorem processRestaurantUrl_result (url : string) (w : World) :
  fst (PipelineOrchestrator.processRestaurantUrl url w)
  = match scrapers w with
    | [] => Throw (JsError "No web scraper agents available")
    | _ :: _ =>
        match axios_get (requests w) url with
        | AxiosOk _ => Normal tt
        | AxiosJson data =>
            match cheerio_load_value data with
            | inl _ => Normal tt
            | inr msg => Throw (JsError ("Scraping error: " +:+ msg))
            end
        | AxiosError msg =>
            Throw (JsError ("Failed to scrape " +:+ url +:+ ": " +:+ msg))
        | OtherError msg => Throw (JsError ("Scraping error: " +:+ msg))
        end
    end.
Proof.
  destruct (wp_run _ _ _ (processRestaurantUrl_outcome url w))
    as (_ & t & rs' & _ & Hcases).
  destruct Hcases as [(Hnone & -> & _)
                     | [(Hsome & msg & Hmsg & -> & _)
                       | (Hsome & dom & now & v & Hpage & _ & -> & _)]].
  - now rewrite Hnone.
  - destruct (scrapers w); [contradiction |]. unfold fetch_error in Hmsg.
    destruct (axios_get (requests w) url) as [data | data | m | m];
      [discriminate | destruct (cheerio_load_value data); [discriminate |] | |];
      now injection Hmsg as <-.
  - destruct (scrapers w); [contradiction |]. unfold fetched_page in Hpage.
    destruct (axios_get (requests w) url) as [data | data | m | m];
      [reflexivity | destruct (cheerio_load_value data); [reflexivity | discriminate]
      | discriminate | discriminate].
Qed.

(** X6: the life of the queue entry of a run.  The statuses written to it
    are queued, scraping, extracting, validating, then llm_processing if
    the record is invalid, then completed; or queued, scraping, failed.
    The entry ends completed, with a completion date, exactly when the run
    returns, and failed, with the message of the error, when it throws. *)
Theorem queue_entry_of_a_run (url : string) (w : World) :
  let r := fst (PipelineOrchestrator.processRestaurantUrl url w) in
  let w' := snd (PipelineOrchestrator.processRestaurantUrl url w) in
  let id := randomUUID (uuids w) in
  exists t,
    journal w' = journal w ++ t
    /\ match r with
       | Normal _ =>
           (statuses t = ["queued"; "scraping"; "extracting"; "validating";
                          "completed"]
            \/ statuses t = ["queued"; "scraping"; "extracting"; "validating";
                             "llm_processing"; "completed"])
           /\ completed_entry id w'
       | Throw e =>
           statuses t = ["queued"; "scraping"; "failed"]
           /\ failed_entry id e w'
       end.
Proof.
  intros r w' id.
  destruct (wp_run _ _ _ (processRestaurantUrl_outcome url w))
    as (_ & t & rs' & (_ & _ & Hj & _) & Hcases).
  fold r w' in Hj, Hcases. exists t. split; [exact Hj |].
  destruct Hcases as [(_ & -> & _ & -> & Hentry)
                     | [(_ & msg & _ & -> & _ & -> & Hentry)
                       | (_ & dom & now & v & _ & _ & -> & -> & Hentry & _)]].
  - split; [reflexivity | exact Hentry].
  - split; [reflexivity | exact Hentry].
  - split; [| exact Hentry]. destruct (isValid v); [left | right]; reflexivity.
Qed.

(** The scores of a result of the validator, as [toString] prints them. *)
Lemma printed_scores (data : JSValue) (v : ValidationResult) :
  validateRestaurantData data = Normal v ->
  (isValid v = true /\ pretty (completeness v) = "100"
   /\ (70 <= accuracy v <= 100)%Z)
  \/ (isValid v = false /\ pretty (accuracy v) = "0"
      /\ (pretty (completeness v) = "0" \/ pretty (completeness v) = "100")).
Proof.
  intros E.
  destruct (Zod.parse restaurantDataSchema [] data) as [x | issues] eqn:Hparse.
  - destruct (validate_parsed data x Hparse) as (a & ws & Ha & E').
    rewrite E' in E. injection E as <-. left. simpl. auto.
  - destruct (validate_rejected data issues Hparse) as (c & Hc & E').
    rewrite E' in E. injection E as <-. right. simpl.
    split; [reflexivity |]. split; [reflexivity |].
    destruct Hc as [-> | ->]; [left | right]; reflexivity.
Qed.

(** X7: the restaurant that a run stores.  A run that returns has added
    one entry to the restaurants, under its own id; its cuisine tags are the
    non-empty list of the extractor; its status is validated, with
    completeness 100 and accuracy at least 70, or pending, with accuracy 0
    and completeness 0 or 100; it has no validation date in either case. *)
Theorem stored_restaurant_of_a_run (url : string) (w : World) :
  fst (PipelineOrchestrator.processRestaurantUrl url w) = Normal tt ->
  exists rid restaurant,
    MemStorage.restaurants
      (storage (snd (PipelineOrchestrator.processRestaurantUrl url w)))
    = <[rid := restaurant]> (MemStorage.restaurants (storage w))
    /\ MemStorage.r_id restaurant = rid
    /\ MemStorage.r_validatedAt restaurant = None
    /\ (exists l, MemStorage.r_cuisineTypes restaurant = JArr l /\ l <> [])
    /\ ((MemStorage.r_status restaurant = "validated"
         /\ MemStorage.r_completeness restaurant = "100"
         /\ exists a, (70 <= a <= 100)%Z
                      /\ MemStorage.r_accuracy restaurant = pretty a)
        \/ (MemStorage.r_status restaurant = "pending"
            /\ MemStorage.r_accuracy restaurant = "0"
            /\ (MemStorage.r_completeness restaurant = "0"
                \/ MemStorage.r_completeness restaurant = "100"))).
Proof.
  intros Hr.
  destruct (wp_run _ _ _ (processRestaurantUrl_outcome url w))
    as (_ & t & rs' & (Hrs & _) & Hcases).
  rewrite Hr in Hcases.
  destruct Hcases as [(_ & [=] & _)
                     | [(_ & msg & _ & [=] & _)
                       | (_ & dom & now & v & _ & Ev & _ & _ & _ & rid & at_ & ->)]].
  eexists; eexists. split; [exact Hrs |]. split; [reflexivity |].
  split; [reflexivity |]. split.
  - destruct (extracted_cuisine_non_empty (html dom) url now)
      as (l & El & Hl).
    exists l. split; [| exact Hl]. now apply stored_cuisine.
  - destruct (printed_scores _ v Ev) as [(Hv & Hc & Ha) | (Hv & Ha & Hc)]; simpl;
      rewrite Hv; [left | right]; eauto.
Qed.

End Runs.

(** ** The storage: reading back, the queue and the metrics *)

Section StorageLaws.
Import MemStorage StorageOps.

(** X8: a restaurant can be read back under the id it was created with,
    and under no other; reading the other ids is not affected; the store
    grows by one when the id is new and keeps its size when the id was
    taken; after [deleteRestaurant] the id reads as absent, and a create
    followed by a delete of a new id gives back the restaurants of before. *)
Theorem restaurant_round_trip (id : string) (now : Z) (restaurant : InsertRestaurant)
  (s : State) :
  let created := fst (createRestaurant id now restaurant s) in
  let s1 := snd (createRestaurant id now restaurant s) in
  getRestaurant id s1 = Some created
  /\ r_id created = id
  /\ (forall other, other <> id -> getRestaurant other s1 = getRestaurant other s)
  /\ (getRestaurant id s = None -> size (restaurants s1) = S (size (restaurants s)))
  /\ (is_Some (getRestaurant id s) -> size (restaurants s1) = size (restaurants s))
  /\ getRestaurant id (deleteRestaurant id s1) = None
  /\ (forall other, other <> id ->
        getRestaurant other (deleteRestaurant id s1) = getRestaurant other s)
  /\ (getRestaurant id s = None -> restaurants (deleteRestaurant id s1) = restaurants s).
Proof.
  intros created s1. unfold getRestaurant. simpl.
  split; [apply lookup_insert_eq |]. split; [reflexivity |].
  split; [intros other Hne; now apply lookup_insert_ne |].
  split; [intros Hnew; now apply map_size_insert_None |].
  split; [intros Hold; now apply map_size_insert_Some |].
  split; [apply lookup_delete_eq |].
  split.
  - intros other Hne. rewrite lookup_delete_ne by auto. now apply lookup_insert_ne.
  - intros Hnew. now apply delete_insert_id.
Qed.

(** X9: the life of a queue entry in the storage.  [updateQueueItem] on an
    id that is not queued throws and leaves the storage as it was; on the
    entry that [addToQueue] has just made it returns the entry as stored,
    with the id, the source URL, the location and the creation date of the
    entry and the status of the patch; after [removeFromQueue] the same
    update throws. *)
Theorem queue_entry_round_trip (id : string) (now : Z) (item : InsertProcessingQueue)
  (update : QueuePatch) (s : State) :
  (processingQueue s !! id = None ->
   updateQueueItem id update s = (Throw (JsError "Queue item not found"), s))
  /\ (let s1 := snd (addToQueue id now item s) in
      exists q,
        fst (updateQueueItem id update s1) = Normal q
        /\ processingQueue (snd (updateQueueItem id update s1)) !! id = Some q
        /\ q_id q = id /\ q_sourceUrl q = iq_sourceUrl item
        /\ q_location q = iq_location item /\ q_createdAt q = now
        /\ q_status q = default (iq_status item) (p_status update)
        /\ restaurants (snd (updateQueueItem id update s1)) = restaurants s)
  /\ (let s2 := removeFromQueue id (snd (addToQueue id now item s)) in
      updateQueueItem id update s2 = (Throw (JsError "Queue item not found"), s2))
  /\ (processingQueue s !! id = None -> removeFromQueue id s = s).
Proof.
  split; [| split; [| split]].
  - intros Hnone. unfold updateQueueItem. now rewrite Hnone.
  - simpl. unfold updateQueueItem. simpl. rewrite lookup_insert_eq. simpl.
    eexists. split; [reflexivity |]. rewrite lookup_insert_eq.
    repeat split.
  - simpl. unfold updateQueueItem, removeFromQueue. simpl.
    now rewrite lookup_delete_eq.
  - intros Hnone. unfold removeFromQueue. rewrite delete_id by exact Hnone.
    now destruct s.
Qed.

(** [Math.floor((n * 60) / 10)] *)
Lemma rate_per_hour (n : Z) : Qfloor (inject_Z (n * 60) / 10) = (6 * n)%Z.
Proof.
  replace (n * 60)%Z with (6 * n * 10)%Z by lia.
  rewrite inject_Z_mult. unfold Qdiv. rewrite <- Qmult_assoc.
  rewrite Qmult_inv_r by discriminate. rewrite Qmult_1_r. apply Qfloor_Z.
Qed.

(** X10: the orchestrator's [updateSystemMetrics] counts the new
    restaurants a second time.  After any calls of [createRestaurant] and
    [deleteRestaurant] the metric [totalRestaurants] is the size of the
    store; [updateSystemMetrics] then adds the successful extractions of the
    result to it, so the metric exceeds the number of stored restaurants by
    that count; the restaurants are not touched, the processing rate is six
    times the number of processed URLs, and the success rate is kept. *)
Theorem updateSystemMetrics_counts_twice (cs : list StoreCall) (s0 : State)
  (now1 now2 : Z) (result : PipelineMetrics.ExtractionResult) :
  cs <> [] ->
  let s := calls cs s0 in
  let s' := PipelineMetrics.updateSystemMetrics now1 now2 result s in
  restaurants s' = restaurants s
  /\ totalRestaurants (systemMetrics s')
     = (Z.of_nat (size (restaurants s'))
        + PipelineMetrics.successfulExtractions result)%Z
  /\ processingRate (systemMetrics s')
     = (6 * PipelineMetrics.totalProcessed result)%Z
  /\ successRate (systemMetrics s') = successRate (systemMetrics s)
  /\ activeAgents (systemMetrics s') = activeAgents (systemMetrics s).
Proof.
  intros Hne s s'. pose proof (calls_count cs s0 Hne) as Hcount.
  fold s in Hcount. subst s'. clearbody s.
  split; [reflexivity |]. split; [| split; [| split; reflexivity]].
  - simpl. now rewrite Hcount.
  - exact (rate_per_hour _).
Qed.

End StorageLaws.

Lemma updateSystemMetrics_counts_twice_witness :
  MemStorage.totalRestaurants
    (MemStorage.systemMetrics
       (PipelineMetrics.updateSystemMetrics 1 2
          {| PipelineMetrics.success := true; PipelineMetrics.totalProcessed := 1;
             PipelineMetrics.successfulExtractions := 1;
             PipelineMetrics.failedExtractions := 0; PipelineMetrics.errors := [];
             PipelineMetrics.results := [] |}
          (calls [Create "r1" 0
                    (PipelineOrchestrator.to_insert "u" SchemaValidationService.initial [])]
             (MemStorage.constructor (H := Sample.env)))))
  = 2%Z.
Proof.
  refine (proj1 (proj2 (updateSystemMetrics_counts_twice
            [Create "r1" 0
               (PipelineOrchestrator.to_insert "u" SchemaValidationService.initial [])]
            (MemStorage.constructor (H := Sample.env)) 1 2
            {| PipelineMetrics.success := true; PipelineMetrics.totalProcessed := 1;
               PipelineMetrics.successfulExtractions := 1;
               PipelineMetrics.failedExtractions := 0; PipelineMetrics.errors := [];
             PipelineMetrics.results := [] |}
            _))).
  discriminate.
Defined.

(** ** The agents and the Gemini service *)

Section AgentLaws.
Context `{Host} `{Heuristics} `{Env}.

Lemma updates_counts (calls : list MetricsCall) (m : Agents.AgentMetrics) :
  Agents.totalProcessed (updates calls m)
  = (Agents.totalProcessed m + Z.of_nat (List.length calls))%Z
  /\ Agents.requestsToday (updates calls m)
     = (Agents.requestsToday m + Z.of_nat (List.length calls))%Z
  /\ Agents.errorCount (updates calls m)
     = (Agents.errorCount m + Z.of_nat (failures calls))%Z
  /\ (calls <> [] ->
      Agents.successRate (updates calls m)
      = Agents.rate (Agents.totalProcessed (updates calls m))
                    (Agents.errorCount (updates calls m))).
Proof.
  revert m. induction calls as [| [[success rt] err] calls IH]; intros m.
  - simpl. unfold failures. simpl. repeat split; try lia. congruence.
  - unfold updates in *. cbn [fold_left fst snd].
    destruct (IH (Agents.updateMetrics success rt err m)) as (Ht & Hr & He & Hs).
    split; [rewrite Ht; simpl; lia |]. split; [rewrite Hr; simpl; lia |]. split.
    + rewrite He. unfold failures. cbn [List.filter fst snd List.length].
      destruct success; simpl; lia.
    + intros _. destruct calls as [| c calls]; [reflexivity |].
      apply Hs. discriminate.
Qed.

Lemma failures_le (calls : list MetricsCall) : (failures calls <= List.length calls)%nat.
Proof. apply List.filter_length_le. Qed.

(** X11: the metrics of an agent after any series of calls of
    [updateMetrics], from the metrics of a new agent: the calls and the
    failures are counted, the failures never exceed the calls, and the
    success rate is 100 before the first call and from then on the double
    that the formula of the source gives on the counters as they are now. *)
Theorem updateMetrics_keeps_the_books (calls : list MetricsCall) :
  let m := updates calls new_metrics in
  Agents.totalProcessed m = Z.of_nat (List.length calls)
  /\ Agents.requestsToday m = Z.of_nat (List.length calls)
  /\ Agents.errorCount m = Z.of_nat (failures calls)
  /\ (0 <= Agents.errorCount m <= Agents.totalProcessed m)%Z
  /\ Agents.successRate m
     = (if Nat.eqb (List.length calls) 0 then 100%float
        else Agents.rate (Z.of_nat (List.length calls)) (Z.of_nat (failures calls))).
Proof.
  intros m. destruct (updates_counts calls new_metrics) as (Ht & Hr & He & Hs).
  fold m in Ht, Hr, He, Hs.
  change (Agents.totalProcessed new_metrics) with 0%Z in Ht.
  change (Agents.requestsToday new_metrics) with 0%Z in Hr.
  change (Agents.errorCount new_metrics) with 0%Z in He.
  rewrite Z.add_0_l in Ht, Hr, He.
  pose proof (failures_le calls) as Hle.
  split; [exact Ht |]. split; [exact Hr |]. split; [exact He |].
  split; [lia |].
  destruct calls as [| c calls]; [reflexivity |].
  rewrite Hs by discriminate. rewrite Ht, He. reflexivity.
Qed.

(** The rate is the double of the source, not the exact percentage: after
    two successes and one failure it is (2 / 3) * 100 with the quotient
    rounded first, which JavaScript prints as 66.66666666666666, and not the
    double nearest to 200 / 3. *)
Example successRate_is_rounded_twice :
  Agents.successRate
    (updates [(true, 12%Z, None); (true, 7%Z, None); (false, 9%Z, Some "timeout")]
             new_metrics)
  = 0x1.0aaaaaaaaaaaap+6%float
  /\ (JS.double 200 / JS.double 3)%float = 0x1.0aaaaaaaaaaabp+6%float.
Proof. split; vm_compute; reflexivity. Qed.

(** X13: the counters of the Gemini service over one request, for any of
    the three methods.  The request is counted in every case.  When the
    prompt cannot be built, nothing is sent and nothing is journalled.
    Otherwise one request is sent; it is counted as a success as soon as the
    model has answered, also when the answer is not JSON and the call
    throws, and the response time is then added twice.  Whatever fails is
    thrown with the prefix of the operation before its own message, and the
    successes never exceed the requests. *)
Theorem gemini_call_counters (operation : string) (prompt : JSValue -> Completion unit)
  (fallback failure : string) (request : JSValue) (w : World) :
  let r := fst (gemini_call operation prompt fallback failure request w) in
  let w' := snd (gemini_call operation prompt fallback failure request w) in
  let g := geminiService w in
  let g' := geminiService w' in
  let t0 := Date_now (clock w) in
  let t1 := Date_now (S (clock w)) in
  let t2 := Date_now (S (S (clock w))) in
  requestCount g' = S (requestCount g)
  /\ match prompt request with
     | Throw e =>
         requests w' = requests w /\ journal w' = journal w
         /\ successCount g' = successCount g
         /\ r = Throw (JsError (failure +:+ error_message e))
         /\ totalResponseTime g' = (totalResponseTime g + (t1 - t0))%Z
     | Normal _ =>
         requests w' = S (requests w)
         /\ journal w' = journal w ++ [LlmRequest operation request]
         /\ match generateContent (requests w) operation request with
            | Normal response =>
                successCount g' = S (successCount g)
                /\ match JSON_parse (response_text fallback response) with
                   | Some v =>
                       r = Normal v
                       /\ totalResponseTime g' = (totalResponseTime g + (t1 - t0))%Z
                   | None =>
                       r = Throw (JsError
                                    (failure
                                     +:+ SyntaxError_message
                                           (response_text fallback response)))
                       /\ totalResponseTime g'
                          = (totalResponseTime g + (t1 - t0) + (t2 - t0))%Z
                   end
            | Throw e =>
                successCount g' = successCount g
                /\ r = Throw (JsError (failure +:+ error_message e))
                /\ totalResponseTime g' = (totalResponseTime g + (t1 - t0))%Z
            end
     end
  /\ ((successCount g <= requestCount g)%nat ->
      (successCount g' <= requestCount g')%nat).
Proof.
  intros r w' g g' t0 t1 t2. subst r w' g g' t0 t1 t2.
  unfold gemini_call, add_response_time, try_catch, mbind, Eff_bind, read_clock,
    modify_gemini, next_request, record, lift, response_text.
  cbn -[String.append].
  destruct (prompt request) as [[] | e]; cbn -[String.append].
  - destruct (generateContent (requests w) operation request) as [response | e];
      cbn -[String.append].
    + destruct (JSON_parse _) as [v |]; cbn -[String.append];
        repeat split; lia.
    + repeat split; lia.
  - repeat split; lia.
Qed.

(** The prompts on requests that the methods cannot read: the synthesis
    calls [map] on [conflictingData], which a request without that property
    does not have; the cuisine classification calls [join] on a [menuItems]
    that is truthy, which a string that is not empty does not have; the
    address validation converts four properties to text, which throws on an
    object with a [toString] of its own and on no value that converts.  The
    call then throws before a request is sent. *)
Lemma prompts_that_throw (props : list (string * JSValue)) :
  (JS.assoc "restaurantName" props = None ->
   JS.assoc "conflictingData" props = None ->
   synthesis_prompt (JObj props)
   = Throw (JsError "Cannot read properties of undefined (reading 'map')"))
  /\ (forall s,
        JS.assoc "restaurantName" props = None ->
        JS.assoc "description" props = None ->
        JS.assoc "menuItems" props = Some (JStr s) -> s <> "" ->
        cuisine_prompt (JObj props)
        = Throw (JsError "request.menuItems.join is not a function"))
  /\ (JS.assoc "rawAddress" props = Some (JObj [("toString", JNull)]) ->
      address_prompt (JObj props)
      = Throw (JsError "Cannot convert object to primitive value"))
  /\ ((forall key, JS.converts (JS.prop (JObj props) key) = true) ->
      address_prompt (JObj props) = Normal tt).
Proof.
  split; [| split; [| split]].
  - intros Hname Hnone. unfold synthesis_prompt. cbn. unfold JS.prop.
    rewrite Hname, Hnone. reflexivity.
  - intros s Hname Hdescription Hs Hne. unfold cuisine_prompt. cbn. unfold JS.prop.
    rewrite Hname, Hdescription, Hs. cbn. destruct s; [congruence | reflexivity].
  - intros Hraw. unfold address_prompt. cbn. unfold JS.prop. rewrite Hraw. reflexivity.
  - intros Hall.
    pose proof (Hall "rawAddress") as Hraw. pose proof (Hall "restaurantName") as Hname.
    pose proof (Hall "city") as Hcity. pose proof (Hall "state") as Hstate.
    unfold address_prompt, JSExn.to_text. cbn in *.
    now rewrite Hraw, Hname, Hcity, Hstate.
Qed.

(** What a step of an agent leaves as it was: the agents of the manager
    and the storage. *)
Lemma gemini_call_keeps (operation : string) (prompt : JSValue -> Completion unit)
  (fallback failure : string) (request : JSValue) (w : World) :
  agentManager (snd (gemini_call operation prompt fallback failure request w))
  = agentManager w
  /\ storage (snd (gemini_call operation prompt fallback failure request w)) = storage w.
Proof.
  unfold gemini_call, add_response_time, try_catch, mbind, Eff_bind, read_clock,
    modify_gemini, next_request, record, lift.
  cbn -[String.append].
  destruct (prompt request) as [[] | e]; cbn -[String.append]; [| split; reflexivity].
  destruct (generateContent (requests w) operation request) as [response | e];
    cbn -[String.append]; [| split; reflexivity].
  destruct (JSON_parse _); split; reflexivity.
Qed.

Lemma altered (f : Agents.BaseAgent -> Agents.BaseAgent) (handle : nat)
  (l : list Agents.BaseAgent) (a : Agents.BaseAgent) :
  l !! handle = Some a -> alter f handle l !! handle = Some (f a).
Proof.
  intros Ha. rewrite list_lookup_alter, Ha.
  destruct (decide (handle = handle)); [reflexivity | congruence].
Qed.

Lemma altered_other (f : Agents.BaseAgent -> Agents.BaseAgent) (handle other : nat)
  (l : list Agents.BaseAgent) :
  other <> handle -> alter f handle l !! other = l !! other.
Proof.
  intros Hne. rewrite list_lookup_alter.
  destruct (decide (handle = other)); [congruence | reflexivity].
Qed.

Lemma updateStatus_runs (handle : nat) (st : string) (w : World) (a : Agents.BaseAgent) :
  agentManager w !! handle = Some a ->
  fst (updateStatus handle st w) = Normal tt
  /\ agentManager (snd (updateStatus handle st w))
     = alter (Agents.with_status st) handle (agentManager w)
  /\ stored_status (Agents.id a) st (snd (updateStatus handle st w)).
Proof.
  intros Ha. unfold updateStatus, mbind, Eff_bind, modify_agent.
  cbn [agentManager with_agentManager].
  rewrite (altered _ _ _ _ Ha). cbn [Agents.with_status Agents.id].
  unfold storage_updateAgentStatus. cbn [storage with_agentManager].
  unfold stored_status.
  destruct (MemStorage.agents (storage w) !! Agents.id a) as [sa |] eqn:Es.
  - unfold mbind, Eff_bind, read_clock, on_storage, MemStorage.updateAgentStatus.
    cbn. rewrite Es. cbn. split; [reflexivity |]. split; [reflexivity |].
    intros sa'. rewrite lookup_insert_eq. now intros [= <-].
  - cbn. split; [reflexivity |]. split; [reflexivity |].
    intros sa'. rewrite Es. discriminate.
Qed.

Lemma run_bind {A B} (c : Eff A) (f : A -> Eff B) (w : World) (a : A) :
  fst (c w) = Normal a -> (c ≫= f) w = f a (snd (c w)).
Proof.
  unfold mbind, Eff_bind. destruct (c w) as [[x | e] w1]; simpl; intros [= ->].
  reflexivity.
Qed.

Lemma try_catch_run {A} (body : Eff A) (handler : Exn -> Eff A) (w : World) :
  try_catch body handler w
  = match body w with
    | (Normal a, w') => (Normal a, w')
    | (Throw e, w') => handler e w'
    end.
Proof. reflexivity. Qed.

Lemma bind_run_eq {A B} (c : Eff A) (f : A -> Eff B) (w : World) :
  (c ≫= f) w
  = match c w with
    | (Normal a, w') => f a w'
    | (Throw e, w') => (Throw e, w')
    end.
Proof. reflexivity. Qed.

(** The end of a call of an agent: the metrics, then the status. *)
Lemma agent_finishes {A} (handle : nat) (success : bool) (startTime : Z)
  (error : option string) (st : string) (k : Eff A) (w : World) (b : Agents.BaseAgent) :
  agentManager w !! handle = Some b ->
  exists w',
    (now ← read_clock;
     _ ← updateMetrics handle success (now - startTime) error;
     _ ← updateStatus handle st;
     k) w = k w'
    /\ (exists rt,
          agentManager w' !! handle
          = Some {| Agents.id := Agents.id b; Agents.name := Agents.name b;
                    Agents.type := Agents.type b;
                    Agents.metrics :=
                      Agents.updateMetrics success rt error (Agents.metrics b);
                    Agents.status := st |})
    /\ (forall other, other <> handle ->
          agentManager w' !! other = agentManager w !! other)
    /\ stored_status (Agents.id b) st w'.
Proof.
  intros Hb.
  set (w1 := snd (read_clock w)).
  set (w2 := snd (updateMetrics handle success (Date_now (clock w) - startTime) error w1)).
  assert (Hb2 : agentManager w2 !! handle
                = Some (Agents.with_metrics
                          (Agents.updateMetrics success
                             (Date_now (clock w) - startTime) error (Agents.metrics b))
                          b)).
  { subst w2 w1. unfold updateMetrics, modify_agent, read_clock.
    cbn [snd agentManager with_agentManager].
    exact (altered (fun a => Agents.with_metrics
                               (Agents.updateMetrics success
                                  (Date_now (clock w) - startTime) error
                                  (Agents.metrics a)) a) _ _ _ Hb). }
  destruct (updateStatus_runs handle st w2 _ Hb2) as (Hr & Hl & Hs).
  exists (snd (updateStatus handle st w2)).
  split; [| split; [| split]].
  - change ((now ← read_clock;
             _ ← updateMetrics handle success (now - startTime) error;
             _ ← updateStatus handle st; k) w)
      with ((_ ← updateStatus handle st; k) w2).
    now rewrite (run_bind _ _ _ _ Hr).
  - exists (Date_now (clock w) - startTime)%Z. rewrite Hl.
    now rewrite (altered _ _ _ _ Hb2).
  - intros other Hne. rewrite Hl, altered_other by exact Hne.
    subst w2 w1. unfold updateMetrics, modify_agent, read_clock.
    cbn [snd agentManager with_agentManager]. now apply altered_other.
  - exact Hs.
Qed.

Lemma GeminiLLMAgent_process_runs (handle : nat) (data : JSValue) (w : World)
  (a : Agents.BaseAgent) :
  agentManager w !! handle = Some a ->
  let r := fst (GeminiLLMAgent_process handle data w) in
  let w' := snd (GeminiLLMAgent_process handle data w) in
  (exists a', agentManager w' !! handle = Some a' /\ agent_after a r a')
  /\ (forall other, other <> handle ->
        agentManager w' !! other = agentManager w !! other)
  /\ stored_status (Agents.id a) (match r with Normal _ => "idle" | Throw _ => "error" end)
       w'.
Proof.
  intros Ha r w'. subst r w'. unfold GeminiLLMAgent_process.
  set (t0 := Date_now (clock w)).
  set (w1 := snd (read_clock w)).
  assert (Ha1 : agentManager w1 !! handle = Some a) by exact Ha.
  destruct (updateStatus_runs handle "active" w1 a Ha1) as (Hr & Hl & _).
  set (w2 := snd (updateStatus handle "active" w1)) in *.
  assert (Ha2 : agentManager w2 !! handle = Some (Agents.with_status "active" a)).
  { rewrite Hl. now apply altered. }
  assert (Hother2 : forall other, other <> handle ->
                      agentManager w2 !! other = agentManager w !! other).
  { intros other Hne. rewrite Hl. now apply altered_other. }
  rewrite (run_bind read_clock _ w t0 eq_refl). fold w1.
  rewrite (run_bind _ _ _ _ Hr). fold w2.
  match goal with
  | |- context [try_catch ?body ?handler] =>
      set (body_ := body); set (handler_ := handler)
  end.
  (* the handler, from a state that has the agent as the call left it *)
  assert (Hfail : forall e w3,
             agentManager w3 = agentManager w2 -> storage w3 = storage w2 ->
             let r := fst (handler_ e w3) in
             let w' := snd (handler_ e w3) in
             r = Throw e
             /\ (exists a', agentManager w' !! handle = Some a' /\ agent_after a r a')
             /\ (forall other, other <> handle ->
                   agentManager w' !! other = agentManager w !! other)
             /\ stored_status (Agents.id a)
                  (match r with Normal _ => "idle" | Throw _ => "error" end) w').
  { intros e w3 Hagents Hstorage. cbv zeta. subst handler_. cbv beta.
    assert (Ha3 : agentManager w3 !! handle = Some (Agents.with_status "active" a))
      by now rewrite Hagents.
    destruct (agent_finishes handle false t0 (Some (error_message e)) "error"
                (throw e : Eff JSValue) w3 _ Ha3) as (w4 & -> & (rt & Ha4) & Ho4 & Hs4).
    unfold throw. cbn [fst snd]. split; [reflexivity |]. split; [| split].
    - eexists. split; [exact Ha4 |]. exists rt. reflexivity.
    - intros other Hne. rewrite Ho4, Hagents by exact Hne. now apply Hother2.
    - exact Hs4. }
  (* the end of the body, after a result *)
  assert (Hdone : forall result w3,
             agentManager w3 = agentManager w2 -> storage w3 = storage w2 ->
             let c := (now ← read_clock;
                       _ ← updateMetrics handle true (now - t0) None;
                       _ ← updateStatus handle "idle";
                       mret result) : Eff JSValue in
             fst (c w3) = Normal result
             /\ (exists a', agentManager (snd (c w3)) !! handle = Some a'
                            /\ agent_after a (Normal result) a')
             /\ (forall other, other <> handle ->
                   agentManager (snd (c w3)) !! other = agentManager w !! other)
             /\ stored_status (Agents.id a) "idle" (snd (c w3))).
  { intros result w3 Hagents Hstorage. cbv zeta.
    assert (Ha3 : agentManager w3 !! handle = Some (Agents.with_status "active" a))
      by now rewrite Hagents.
    destruct (agent_finishes handle true t0 None "idle"
                (mret result : Eff JSValue) w3 _ Ha3) as (w4 & -> & (rt & Ha4) & Ho4 & Hs4).
    cbn [fst snd mret Eff_ret]. split; [reflexivity |]. split; [| split].
    - eexists. split; [exact Ha4 |]. exists rt. reflexivity.
    - intros other Hne. rewrite Ho4, Hagents by exact Hne. now apply Hother2.
    - exact Hs4. }
  (* a call of the service, then the end of the body or the handler *)
  assert (Hcall : forall (call : Eff JSValue),
             (forall w0, agentManager (snd (call w0)) = agentManager w0
                         /\ storage (snd (call w0)) = storage w0) ->
             let c := try_catch
                        (result ← call;
                         now ← read_clock;
                         _ ← updateMetrics handle true (now - t0) None;
                         _ ← updateStatus handle "idle";
                         mret result) handler_ in
             (exists a', agentManager (snd (c w2)) !! handle = Some a'
                         /\ agent_after a (fst (c w2)) a')
             /\ (forall other, other <> handle ->
                   agentManager (snd (c w2)) !! other = agentManager w !! other)
             /\ stored_status (Agents.id a)
                  (match fst (c w2) with Normal _ => "idle" | Throw _ => "error" end)
                  (snd (c w2))).
  { intros call Hkeeps. cbv zeta. destruct (Hkeeps w2) as [Hag Hst].
    rewrite try_catch_run, bind_run_eq.
    destruct (call w2) as [[result | e] w3] eqn:Ecall; cbn [fst snd] in Hag, Hst.
    - destruct (Hdone result w3 Hag Hst) as (Hr3 & Hrest).
      cbv zeta in Hr3, Hrest.
      destruct ((now ← read_clock;
                 _ ← updateMetrics handle true (now - t0) None;
                 _ ← updateStatus handle "idle"; mret result) w3)
        as [[x | e] w4]; cbn [fst snd] in *; [| discriminate].
      injection Hr3 as ->. exact Hrest.
    - destruct (Hfail e w3 Hag Hst) as (Hr3 & Hrest). cbv zeta in Hr3, Hrest.
      rewrite Hr3 in Hrest. rewrite Hr3. exact Hrest. }
  assert (Hthrown : forall e,
             (exists a', agentManager (snd (handler_ e w2)) !! handle = Some a'
                         /\ agent_after a (fst (handler_ e w2)) a')
             /\ (forall other, other <> handle ->
                   agentManager (snd (handler_ e w2)) !! other = agentManager w !! other)
             /\ stored_status (Agents.id a)
                  (match fst (handler_ e w2) with
                   | Normal _ => "idle" | Throw _ => "error" end)
                  (snd (handler_ e w2))).
  { intros e. destruct (Hfail e w2 eq_refl eq_refl) as (_ & Hrest). exact Hrest. }
  subst body_. unfold lift.
  destruct (JSExn.get data "type") as [type | e] eqn:Etype.
  2: { rewrite try_catch_run, bind_run_eq. cbn [fst snd]. apply Hthrown. }
  destruct (JSExn.get data "request") as [request | e] eqn:Erequest.
  2: { rewrite try_catch_run, !bind_run_eq. cbn [fst snd]. apply Hthrown. }
  change (try_catch _ handler_)
    with (try_catch
            (result ← (if JS.is_string "synthesis" type
                       then synthesizeRestaurantData request
                       else if JS.is_string "cuisine" type
                            then classifyCuisine request
                            else if JS.is_string "address" type
                                 then validateAddress request
                                 else throw (JsError ("Unknown processing type: "
                                                      +:+ JS.ToString type)));
             now ← read_clock;
             _ ← updateMetrics handle true (now - t0) None;
             _ ← updateStatus handle "idle";
             mret result) handler_).
  apply Hcall. intros w0.
  unfold synthesizeRestaurantData, classifyCuisine, validateAddress.
  destruct (JS.is_string "synthesis" type); [exact (gemini_call_keeps _ _ _ _ _ w0) |].
  destruct (JS.is_string "cuisine" type); [exact (gemini_call_keeps _ _ _ _ _ w0) |].
  destruct (JS.is_string "address" type); [exact (gemini_call_keeps _ _ _ _ _ w0) |].
  split; reflexivity.
Qed.

(** X12: what a call of the Gemini agent leaves of the agent.  Whatever the
    request and the answer, the agent is idle after a call that returns and
    in error after a call that throws, never active; the call is counted in
    its metrics, as a failure with the message of the error when it throws;
    the other agents of the manager are untouched; and the agent in storage,
    if there is one under the id, has the same status. *)
Theorem GeminiLLMAgent_process_settles (handle : nat) (data : JSValue) (w : World)
  (a : Agents.BaseAgent) :
  agentManager w !! handle = Some a ->
  let r := fst (GeminiLLMAgent_process handle data w) in
  let w' := snd (GeminiLLMAgent_process handle data w) in
  exists a',
    agentManager w' !! handle = Some a'
    /\ Agents.id a' = Agents.id a /\ Agents.type a' = Agents.type a
    /\ Agents.status a' = (match r with Normal _ => "idle" | Throw _ => "error" end)
    /\ Agents.totalProcessed (Agents.metrics a')
       = (Agents.totalProcessed (Agents.metrics a) + 1)%Z
    /\ Agents.errorCount (Agents.metrics a')
       = (match r with
          | Normal _ => Agents.errorCount (Agents.metrics a)
          | Throw _ => Agents.errorCount (Agents.metrics a) + 1
          end)%Z
    /\ (forall e, r = Throw e ->
          Agents.lastError (Agents.metrics a') = Some (error_message e))
    /\ (forall other, other <> handle ->
          agentManager w' !! other = agentManager w !! other)
    /\ stored_status (Agents.id a) (Agents.status a') w'.
Proof.
  intros Ha r w'.
  destruct (GeminiLLMAgent_process_runs handle data w a Ha)
    as ((a' & Ha' & rt & ->) & Hother & Hstored).
  fold r w' in Ha', Hother, Hstored |- *.
  eexists. split; [exact Ha' |]. cbn.
  destruct r as [v | e]; cbn; repeat split; auto; try discriminate.
  now intros e' [= <-].
Qed.

End AgentLaws.

Lemma GeminiLLMAgent_process_settles_witness :
  agentManager Sample.world !! 3%nat
  = Some (Sample.agent 4 "Gemini LLM Agent" "gemini-llm")
  /\ exists a',
       agentManager
         (snd (GeminiLLMAgent_process (H := Sample.host) (H1 := Sample.env) 3
                 (JObj [("type", JStr "cuisine"); ("request", JObj [])]) Sample.world))
       !! 3%nat = Some a'
       /\ Agents.status a' = "idle"
       /\ Agents.totalProcessed (Agents.metrics a') = 1%Z.
Proof.
  split; [reflexivity |].
  destruct (GeminiLLMAgent_process_settles (H := Sample.host) (H1 := Sample.env) 3
              (JObj [("type", JStr "cuisine"); ("request", JObj [])]) Sample.world
              (Sample.agent 4 "Gemini LLM Agent" "gemini-llm") eq_refl)
    as (a' & Ha' & _ & _ & Hstatus & Htotal & _).
  exists a'. split; [exact Ha' |]. split; [exact Hstatus | exact Htotal].
Defined.

(** A synthesis request without [conflictingData] fails while the prompt is
    built: the request is counted, nothing is sent, and the error is that of
    the call of [map]. *)
Example synthesis_of_an_empty_request :
  let run := synthesizeRestaurantData (H := Sample.host) (H1 := Sample.env) (JObj [])
               Sample.world in
  fst run
  = Throw (JsError ("Gemini synthesis failed: "
                    +:+ "Cannot read properties of undefined (reading 'map')"))
  /\ requests (snd run) = requests Sample.world
  /\ journal (snd run) = journal Sample.world
  /\ requestCount (geminiService (snd run))
     = S (requestCount (geminiService Sample.world))
  /\ successCount (geminiService (snd run)) = successCount (geminiService Sample.world).
Proof. repeat split. Qed.

(** ** What the extractors return *)

Section Extractors.
Import DataExtractionService.

Lemma first_match_accepted (dom : Dom) (accept : string -> bool)
  (selectors : list string) (text : string) :
  first_match dom accept selectors = Some text -> accept text = true.
Proof.
  intros E. destruct (first_match_first dom accept selectors text E)
    as (_ & _ & _ & _ & _ & _ & _ & Ha & _). exact Ha.
Qed.

Lemma non_empty_length (s : string) :
  negb (String.eqb s "") = true -> (1 <= String.length s)%nat.
Proof. destruct s; [discriminate | simpl; lia]. Qed.

Lemma extractDescription_long (dom : Dom) (selectors : list string) (d : string) :
  WebScrapingService.extractDescription_from dom selectors = Some d ->
  (20 < String.length d)%nat.
Proof.
  induction selectors as [| selector selectors IH]; simpl; [discriminate |].
  destruct (first_text dom selector) as [t |]; [| exact IH].
  match goal with
  | |- context [if ?c then _ else _] => destruct c eqn:E
  end; [| exact IH].
  intros [= <-]. apply andb_true_iff in E as [_ Hlong%Nat.ltb_lt]. exact Hlong.
Qed.

(** X14: the texts that the two services read off a page.  The name of
    the extractor is never empty and always shorter than 200 characters, so
    it passes the name check of the schema; the title of the scraper is
    never empty; a description, when the scraper finds one, is longer than
    20 characters. *)
Theorem page_texts_are_bounded (dom : Dom) :
  (1 <= String.length (extractName dom) < 200)%nat
  /\ (1 <= String.length (WebScrapingService.extractTitle dom))%nat
  /\ (forall d, WebScrapingService.extractDescription dom = Some d ->
                (20 < String.length d)%nat).
Proof.
  split; [| split].
  - unfold extractName.
    destruct (first_match dom _ name_selectors) as [text |] eqn:E;
      [| vm_compute; lia].
    apply first_match_accepted in E.
    apply andb_true_iff in E as [[Hne _]%andb_true_iff Hlt%Nat.ltb_lt].
    apply non_empty_length in Hne. lia.
  - unfold WebScrapingService.extractTitle.
    destruct (first_match dom _ WebScrapingService.title_selectors) as [text |] eqn:E.
    + apply first_match_accepted in E.
      apply andb_true_iff in E as [Hne _]. now apply non_empty_length.
    + destruct (negb (String.eqb (all_text dom "title") "")) eqn:Hne;
        [now apply non_empty_length | vm_compute; lia].
  - intros d. apply extractDescription_long.
Qed.

Lemma seen_spec (x : string) (seen : list string) :
  existsb (String.eqb x) seen = true <-> In x seen.
Proof.
  rewrite existsb_exists. split.
  - intros (y & Hin & ->%String.eqb_eq). exact Hin.
  - intros Hin. exists x. split; [exact Hin | apply String.eqb_refl].
Qed.

Lemma unique_spec (l seen : list string) (x : string) :
  In x (unique seen l) <-> In x l /\ ~ In x seen.
Proof.
  revert seen. induction l as [| y l IH]; intros seen; simpl; [tauto |].
  destruct (existsb (String.eqb y) seen) eqn:Hseen.
  - apply seen_spec in Hseen. rewrite IH. split.
    + intros [Hin Hnot]. auto.
    + intros [[-> | Hin] Hnot]; [contradiction | auto].
  - assert (Hnot : ~ In y seen).
    { intros Hin%seen_spec. congruence. }
    simpl. rewrite IH. simpl. split.
    + intros [-> | [Hin Hn]]; [auto |]. split; [auto |]. intros Hs. apply Hn. auto.
    + intros [[-> | Hin] Hn]; [auto |].
      destruct (String.eqb_spec y x) as [-> | Hne]; [auto |].
      right. split; [exact Hin |]. intros [E | Hs]; [congruence | contradiction].
Qed.

Lemma unique_NoDup (l seen : list string) : List.NoDup (unique seen l).
Proof.
  revert seen. induction l as [| y l IH]; intros seen; simpl; [constructor |].
  destruct (existsb (String.eqb y) seen); [apply IH |].
  constructor; [| apply IH]. rewrite unique_spec. simpl. tauto.
Qed.

Lemma unique_length (l seen : list string) :
  (List.length (unique seen l) <= List.length l)%nat.
Proof.
  revert seen. induction l as [| y l IH]; intros seen; simpl; [lia |].
  destruct (existsb (String.eqb y) seen); [specialize (IH seen) | specialize (IH (y :: seen))];
    simpl; lia.
Qed.

(** X15: the amenities of a page are the capitalized amenity keywords
    that occur in the lower-cased text of the body, each once, at most 20. *)
Theorem extractAmenities_are_the_found_keywords (dom : Dom) :
  List.NoDup (extractAmenities dom)
  /\ (forall amenity,
        In amenity (extractAmenities dom)
        <-> exists keyword,
              In keyword amenityKeywords
              /\ JS.includes (JS.toLowerCase (all_text dom "body")) keyword = true
              /\ amenity = JS.capitalize keyword)
  /\ (List.length (extractAmenities dom) <= 20)%nat.
Proof.
  unfold extractAmenities. split; [apply unique_NoDup |]. split.
  - intros amenity. rewrite unique_spec, in_map_iff. split.
    + intros [(keyword & <- & [Hin Hfound]%filter_In) _]. eauto.
    + intros (keyword & Hin & Hfound & ->). split; [| simpl; tauto].
      exists keyword. split; [reflexivity |]. apply filter_In. auto.
  - etransitivity; [apply unique_length |]. rewrite length_map.
    etransitivity; [apply List.filter_length_le |]. vm_compute. lia.
Qed.

Lemma NoDup_map_filter {A B} (f : A -> B) (p : A -> bool) (l : list A) :
  List.NoDup (map f l) -> List.NoDup (map f (List.filter p l)).
Proof.
  induction l as [| a l IH]; simpl; [auto |].
  intros Hnd. apply List.NoDup_cons_iff in Hnd as [Hnot Hnd].
  destruct (p a); simpl; [| auto]. constructor; [| auto].
  intros Hin. apply Hnot. apply in_map_iff in Hin as (b & E & [Hb _]%filter_In).
  apply in_map_iff. eauto.
Qed.

(** X16: the cuisine tags of a page are the cuisines of the dictionary
    one of whose keywords occurs in the lower-cased text of the body and the
    name, in the order of the dictionary and each once; the tag Indian is
    the whole list exactly when no keyword occurs. *)
Theorem extractCuisineTypes_are_the_found_cuisines (dom : Dom) (restaurantName : string) :
  let text := JS.toLowerCase (all_text dom "body" +:+ " " +:+ restaurantName) in
  let found := fun entry : string * list string =>
                 existsb (fun keyword => JS.includes text keyword) (snd entry) in
  let tags := extractCuisineTypes dom restaurantName in
  List.NoDup tags
  /\ (1 <= List.length tags <= 10)%nat
  /\ (forall cuisine,
        In cuisine (map fst cuisineKeywords) ->
        (In cuisine tags
         <-> exists keywords, In (cuisine, keywords) cuisineKeywords
                              /\ found (cuisine, keywords) = true))
  /\ (tags = ["Indian"] <-> forall entry, In entry cuisineKeywords -> found entry = false)
  /\ (forall tag, In tag tags -> tag = "Indian" \/ In tag (map fst cuisineKeywords)).
Proof.
  intros text found tags. subst tags. unfold extractCuisineTypes. fold text. fold found.
  set (cuisines := map fst (List.filter found cuisineKeywords)).
  assert (Hnd : List.NoDup cuisines).
  { apply NoDup_map_filter. apply NoDup_ListNoDup. compute_done. }
  assert (Hlen : (List.length cuisines <= 10)%nat).
  { unfold cuisines. rewrite length_map.
    etransitivity; [apply List.filter_length_le |]. vm_compute. lia. }
  assert (Hin : forall cuisine,
             In cuisine cuisines
             <-> exists keywords, In (cuisine, keywords) cuisineKeywords
                                  /\ found (cuisine, keywords) = true).
  { intros cuisine. unfold cuisines. rewrite in_map_iff. split.
    - intros ([c keywords] & E & [Hin Hf]%filter_In). simpl in E. subst c. eauto.
    - intros (keywords & Hin & Hf). exists (cuisine, keywords).
      split; [reflexivity |]. apply filter_In. auto. }
  assert (Hnot : ~ In "Indian" (map fst cuisineKeywords)).
  { vm_compute. intuition discriminate. }
  destruct cuisines as [| c cs] eqn:Ec.
  - cbn [List.length Nat.ltb Nat.leb].
    split; [repeat constructor; simpl; tauto |]. split; [simpl; lia |].
    split; [| split].
    + intros cuisine Hdict. rewrite <- Hin. simpl. split; [| tauto].
      intros [<- | []]. contradiction.
    + split; [| reflexivity]. intros _ [cuisine keywords] Hentry.
      destruct (found (cuisine, keywords)) eqn:Hf; [| reflexivity].
      exfalso. apply (proj2 (Hin cuisine)). eauto.
    + intros tag [<- | []]. now left.
  - cbn [List.length Nat.ltb Nat.leb].
    split; [exact Hnd |]. split; [simpl in *; lia |]. split; [| split].
    + intros cuisine _. apply Hin.
    + split.
      * intros E. exfalso. apply Hnot. rewrite E in Hin.
        destruct (proj1 (Hin "Indian")) as (keywords & Hentry & _); [now left |].
        apply in_map_iff. exists ("Indian", keywords). auto.
      * intros Hnone. exfalso.
        destruct (proj1 (Hin c)) as (keywords & Hentry & Hf); [now left |].
        rewrite (Hnone _ Hentry) in Hf. discriminate.
    + intros tag Htag. right. apply Hin in Htag as (keywords & Hentry & _).
      apply in_map_iff. exists (tag, keywords). auto.
Qed.

End Extractors.

(** ** The parsed address and the schema *)

Section ParsedAddresses.
Context `{Host}.
Import IndianAddress SchemaValidationService.

Lemma take_length (n : nat) (s : string) : (String.length (take n s) <= n)%nat.
Proof.
  revert s. induction n as [| n IH]; intros [| c s]; simpl; try lia.
  specialize (IH s). lia.
Qed.

Lemma startsWith_take (n : nat) (s : string) : JS.startsWith s (take n s) = true.
Proof.
  revert s. induction n as [| n IH]; intros [| c s]; simpl; try reflexivity.
  now rewrite Ascii.eqb_refl, IH.
Qed.

Lemma includes_suffix (c : ascii) (s sub : string) :
  JS.includes s sub = true -> JS.includes (String c s) sub = true.
Proof.
  intros E. cbn [JS.includes]. rewrite E. apply orb_true_r.
Qed.

Lemma includes_prefix (s sub : string) :
  JS.startsWith s sub = true -> JS.includes s sub = true.
Proof. intros E. destruct s; cbn [JS.includes]; now rewrite E. Qed.

(** The PIN code is a run of six digits of the text, with no character of
    the class [\w] on either side. *)
Lemma pinMatch_digits (prev : bool) (s pin : string) :
  pinMatch prev s = Some pin ->
  String.length pin = 6%nat /\ JS.forall_chars JS.is_digit pin = true
  /\ JS.includes s pin = true.
Proof.
  revert prev. induction s as [| c s IH]; intros prev; [discriminate |].
  cbn [pinMatch]. destruct (negb prev && six_digits (String c s)) eqn:E.
  - intros Hpin. clear IH. apply andb_true_iff in E as [_ E]. unfold six_digits in E.
    apply andb_true_iff in E as [[Hlen%Nat.eqb_eq Hdigits]%andb_true_iff _].
    assert (Hstart : JS.startsWith (String c s) (take 6 (String c s)) = true)
      by apply startsWith_take.
    set (p := take 6 (String c s)) in *. clearbody p.
    injection Hpin as <-.
    split; [exact Hlen |]. split; [exact Hdigits |].
    now apply includes_prefix.
  - intros E'. destruct (IH _ E') as (? & ? & ?).
    split; [assumption |]. split; [assumption |]. now apply includes_suffix.
Qed.

Lemma named_spec (names : list string) (lowerAddress : string) :
  match named names lowerAddress with
  | Some name =>
      exists found, In found names /\ JS.includes lowerAddress found = true
                    /\ name = JS.capitalize found
  | None => forall name, In name names -> JS.includes lowerAddress name = false
  end.
Proof.
  unfold named. destruct (List.find _ names) as [found |] eqn:E; simpl.
  - apply List.find_some in E as [Hin Hfound]. eauto.
  - intros name Hin. exact (List.find_none _ _ E name Hin).
Qed.

Lemma named_non_empty (names : list string) (lowerAddress name : string) :
  Forall (fun n => n <> "") names ->
  named names lowerAddress = Some name -> name <> "".
Proof.
  intros Hall E. pose proof (named_spec names lowerAddress) as Hs. rewrite E in Hs.
  destruct Hs as (found & Hin & _ & ->).
  assert (found <> "") as Hne.
  { clear - Hall Hin. induction Hall as [| n names Hn _ IH]; [destruct Hin |].
    destruct Hin as [<- | Hin]; auto. }
  destruct found; [congruence | discriminate].
Qed.

Lemma second_to_last_non_empty (addressText part : string) :
  second_to_last addressText = Some part -> part <> "".
Proof.
  unfold second_to_last. destruct (Nat.ltb 1 _); [| discriminate].
  destruct (nth_error _ _) as [p |]; [| intros [= <-]; discriminate].
  destruct (String.eqb_spec p ""); intros [= <-]; [discriminate | assumption].
Qed.

Lemma names_non_empty : Forall (fun n => n <> "") states /\ Forall (fun n => n <> "") cities.
Proof. split; repeat constructor; discriminate. Qed.

Lemma address_of_fields (pin state city : option string) (addressText : string) :
  let a := address_of pin state city addressText in
  let field := fun value : option string =>
                 match value with Some s => JStr s | None => JUndefined end in
  JS.prop a "country" = JStr "India"
  /\ JS.prop a "street" = JStr addressText
  /\ JS.prop a "formatted" = JStr addressText
  /\ JS.prop a "postalCode" = field pin
  /\ JS.prop a "state" = field state
  /\ JS.prop a "city" = field city.
Proof. destruct pin, state, city; repeat split. Qed.

Lemma address_of_parses (pin state city : option string) (addressText : string)
  (p : list string) :
  (exists v, Zod.parse addressSchema p (address_of pin state city addressText)
             = Zod.Success v)
  <-> (exists s, state = Some s /\ s <> "") /\ (exists c, city = Some c /\ c <> "").
Proof.
  split.
  - intros [v E].
    destruct state as [[| ch s] |], city as [[| ch' c] |], pin as [pin |];
      try (cbn in E; discriminate);
      (split; eexists; (split; [reflexivity | discriminate])).
  - intros [(s & -> & Hs) (c & -> & Hc)].
    destruct s as [| ch s]; [congruence |]. destruct c as [| ch' c]; [congruence |].
    destruct pin as [pin |]; eexists; cbn; reflexivity.
Qed.

Lemma parseIndianAddress_eq (addressText : string) :
  parseIndianAddress addressText
  = address_of (pinMatch false addressText)
      (named states (JS.toLowerCase addressText))
      (match named cities (JS.toLowerCase addressText) with
       | Some city => Some city
       | None => second_to_last addressText
       end)
      addressText.
Proof. reflexivity. Qed.

Lemma named_Some (names : list string) (addressText : string) :
  Forall (fun n => n <> "") names ->
  (exists s, named names (JS.toLowerCase addressText) = Some s /\ s <> "")
  <-> names_one names addressText.
Proof.
  intros Hall. pose proof (named_spec names (JS.toLowerCase addressText)) as Hs. split.
  - intros (s & E & _). rewrite E in Hs. destruct Hs as (found & ? & ? & _).
    exists found. auto.
  - intros (name & Hin & Hfound).
    destruct (named names _) as [s |] eqn:E.
    + exists s. split; [reflexivity |].
      exact (named_non_empty names _ s Hall E).
    + rewrite (Hs name Hin) in Hfound. discriminate.
Qed.

Lemma append_cons (c : ascii) (s t : string) : String c s +:+ t = String c (s +:+ t).
Proof. reflexivity. Qed.

Lemma take_drop (n : nat) (s : string) : s = take n s +:+ JS.drop n s.
Proof.
  revert s. induction n as [| n IH]; intros [| c s]; try reflexivity.
  cbn [take JS.drop]. rewrite append_cons. f_equal. apply IH.
Qed.

Lemma take_append (pin post : string) : take (String.length pin) (pin +:+ post) = pin.
Proof.
  induction pin as [| c pin IH]; [now destruct post |].
  rewrite append_cons. cbn [String.length take]. now rewrite IH.
Qed.

Lemma drop_append (pin post : string) : JS.drop (String.length pin) (pin +:+ post) = post.
Proof.
  induction pin as [| c pin IH]; [reflexivity |].
  rewrite append_cons. cbn [String.length JS.drop]. exact IH.
Qed.

Lemma six_digits_at (pin post : string) :
  String.length pin = 6%nat ->
  JS.forall_chars JS.is_digit pin = true ->
  starts_word post = false ->
  six_digits (pin +:+ post) = true.
Proof.
  intros Hlen Hdigits Hpost. unfold six_digits.
  rewrite <- Hlen, take_append, drop_append, Hlen, Hdigits. simpl.
  destruct post as [| c post]; [reflexivity |]. simpl in Hpost. now rewrite Hpost.
Qed.

Lemma ends_word_snoc (pre : string) (c : ascii) :
  ends_word (pre +:+ String c "") = is_word c.
Proof.
  induction pre as [| c' pre IH]; [reflexivity |].
  rewrite append_cons. cbn [ends_word]. rewrite IH.
  destruct pre; [reflexivity |]. now rewrite append_cons.
Qed.

Lemma append_snoc (pre rest : string) (c : ascii) :
  (pre +:+ String c "") +:+ rest = pre +:+ String c rest.
Proof.
  induction pre as [| c' pre IH]; [reflexivity |]. rewrite !append_cons. now rewrite IH.
Qed.

Lemma append_empty (pre : string) : pre +:+ "" = pre.
Proof.
  induction pre as [| c pre IH]; [reflexivity |]. rewrite append_cons. now rewrite IH.
Qed.

(** [pinMatch] finds the leftmost match of [/\b\d{6}\b/], if there is one;
    [pre0] is the text before [s]. *)
Lemma pinMatch_leftmost (s pre0 : string) :
  match pinMatch (ends_word pre0) s with
  | Some pin =>
      exists pre post,
        s = pre +:+ pin +:+ post
        /\ pin_at (pre0 +:+ pre) pin post
        /\ forall pre' pin' post',
             s = pre' +:+ pin' +:+ post' ->
             pin_at (pre0 +:+ pre') pin' post' ->
             (String.length pre <= String.length pre')%nat
  | None =>
      forall pre' pin' post',
        s = pre' +:+ pin' +:+ post' -> ~ pin_at (pre0 +:+ pre') pin' post'
  end.
Proof.
  revert pre0. induction s as [| c s IH]; intros pre0.
  - simpl. intros pre' pin' post' E (Hlen & _).
    destruct pre'; [| discriminate]. destruct pin'; [discriminate Hlen | discriminate E].
  - cbn [pinMatch].
    destruct (negb (ends_word pre0) && six_digits (String c s)) eqn:Ehere.
    + apply andb_true_iff in Ehere as [Hprev Hsix].
      apply negb_true_iff in Hprev.
      pose proof Hsix as Hsix'. unfold six_digits in Hsix'.
      apply andb_true_iff in Hsix' as [[Hlen%Nat.eqb_eq Hdigits]%andb_true_iff Hpost].
      exists "", (JS.drop 6 (String c s)). split; [apply (take_drop 6) |].
      split.
      * rewrite append_empty. repeat split; auto.
        destruct (JS.drop 6 (String c s)) as [| c' post]; [reflexivity |].
        simpl. now apply negb_true_iff.
      * intros pre' pin' post' _ _. simpl. lia.
    + assert (Hnot : forall pin' post',
                 String c s = pin' +:+ post' -> ~ pin_at (pre0 +:+ "") pin' post').
      { intros pin' post' E (Hlen & Hdigits & Hprev & Hpost).
        rewrite append_empty in Hprev.
        rewrite E, (six_digits_at pin' post' Hlen Hdigits Hpost), Hprev in Ehere.
        discriminate. }
      specialize (IH (pre0 +:+ String c "")). rewrite ends_word_snoc in IH.
      destruct (pinMatch (is_word c) s) as [pin |].
      * destruct IH as (pre & post & -> & Hpin & Hleft).
        exists (String c pre), post. split; [reflexivity |].
        rewrite append_snoc in Hpin. split; [exact Hpin |].
        intros [| c' pre'] pin' post' E Hpin'.
        -- exfalso. exact (Hnot pin' post' E Hpin').
        -- injection E as <- E. rewrite <- append_snoc in Hpin'.
           specialize (Hleft pre' pin' post' E Hpin'). simpl. lia.
      * intros [| c' pre'] pin' post' E Hpin'.
        -- exact (Hnot pin' post' E Hpin').
        -- injection E as <- E. rewrite <- append_snoc in Hpin'.
           exact (IH pre' pin' post' E Hpin').
Qed.

(** [named] finds the first name of the list that the text includes. *)
Lemma named_first (names : list string) (lowerAddress : string) :
  match named names lowerAddress with
  | Some name =>
      exists before found after,
        names = before ++ found :: after
        /\ JS.includes lowerAddress found = true
        /\ Forall (fun n => JS.includes lowerAddress n = false) before
        /\ name = JS.capitalize found
  | None => Forall (fun n => JS.includes lowerAddress n = false) names
  end.
Proof.
  unfold named. induction names as [| n names IH]; simpl; [constructor |].
  destruct (JS.includes lowerAddress n) eqn:En; simpl.
  - exists [], n, names. repeat split; auto.
  - destruct (List.find _ names) as [found |]; simpl in *.
    + destruct IH as (before & found' & after & -> & Hfound & Hbefore & E).
      exists (n :: before), found', after. repeat split; auto.
    + constructor; assumption.
Qed.

Lemma last_two {A} (l : list A) :
  (1 < List.length l)%nat -> exists front part last, l = front ++ [part; last].
Proof.
  induction l as [| a l IH]; simpl; [lia |]. intros Hlen.
  destruct l as [| b [| c l]].
  - simpl in Hlen. lia.
  - exists [], a, b. reflexivity.
  - destruct IH as (front & part & last & E); [simpl; lia |].
    exists (a :: front), part, last. now rewrite E.
Qed.

(** The fallback of the city: the part before the last comma, trimmed, or
    Unknown when it is empty; none when the text has no comma. *)
Lemma second_to_last_spec (addressText : string) :
  match second_to_last addressText with
  | Some city =>
      exists front part last,
        JS.split "," addressText = front ++ [part; last]
        /\ city = (if String.eqb (JS.trim part) "" then "Unknown" else JS.trim part)
  | None => (List.length (JS.split "," addressText) <= 1)%nat
  end.
Proof.
  unfold second_to_last. rewrite List.length_map.
  destruct (Nat.ltb_spec 1 (List.length (JS.split "," addressText))) as [Hlen | Hlen];
    [| exact Hlen].
  destruct (last_two _ Hlen) as (front & part & last & E). rewrite E.
  rewrite List.map_app, List.length_app. simpl List.length.
  replace (List.length front + 2 - 2)%nat with (List.length (map JS.trim front) + 0)%nat
    by (rewrite List.length_map; lia).
  rewrite List.nth_error_app2 by lia.
  replace (List.length (map JS.trim front) + 0 - List.length (map JS.trim front))%nat
    with 0%nat by lia.
  simpl.
  destruct (String.eqb (JS.trim part) "") eqn:Epart;
    exists front, part, last; rewrite Epart; split; reflexivity.
Qed.

(** X17: the fields of a parsed address.  The country is India, the
    street and the formatted address are the whole text.  The postal code
    is the leftmost run of six digits of the text that has no character of
    the class [\w] on either side, and is absent when the text has no such
    run.  The state is the first listed state that the lower-cased text
    includes, capitalized, and is absent when the text includes none.  The
    city is the first listed city of the text, capitalized; else the part
    before the last comma, trimmed, or Unknown if that part is empty; it is
    absent when the text has neither a listed city nor a comma. *)
Theorem parseIndianAddress_fields (addressText : string) :
  let a := parseIndianAddress addressText in
  let lowerAddress := JS.toLowerCase addressText in
  JS.prop a "country" = JStr "India"
  /\ JS.prop a "street" = JStr addressText
  /\ JS.prop a "formatted" = JStr addressText
  /\ match JS.prop a "postalCode" with
     | JUndefined =>
         forall pre pin post,
           addressText = pre +:+ pin +:+ post -> ~ pin_at pre pin post
     | JStr pin =>
         exists pre post,
           addressText = pre +:+ pin +:+ post
           /\ pin_at pre pin post
           /\ forall pre' pin' post',
                addressText = pre' +:+ pin' +:+ post' ->
                pin_at pre' pin' post' ->
                (String.length pre <= String.length pre')%nat
     | _ => False
     end
  /\ match JS.prop a "state" with
     | JUndefined => Forall (fun name => JS.includes lowerAddress name = false) states
     | JStr state =>
         exists before name after,
           states = before ++ name :: after
           /\ JS.includes lowerAddress name = true
           /\ Forall (fun n => JS.includes lowerAddress n = false) before
           /\ state = JS.capitalize name
     | _ => False
     end
  /\ match JS.prop a "city" with
     | JUndefined =>
         Forall (fun name => JS.includes lowerAddress name = false) cities
         /\ (List.length (JS.split "," addressText) <= 1)%nat
     | JStr city =>
         city <> ""
         /\ ((exists before name after,
                 cities = before ++ name :: after
                 /\ JS.includes lowerAddress name = true
                 /\ Forall (fun n => JS.includes lowerAddress n = false) before
                 /\ city = JS.capitalize name)
             \/ (Forall (fun name => JS.includes lowerAddress name = false) cities
                 /\ exists front part last,
                      JS.split "," addressText = front ++ [part; last]
                      /\ city = (if String.eqb (JS.trim part) "" then "Unknown"
                                 else JS.trim part)))
     | _ => False
     end.
Proof.
  intros a lowerAddress. subst a. rewrite parseIndianAddress_eq.
  destruct (address_of_fields (pinMatch false addressText)
              (named states (JS.toLowerCase addressText))
              (match named cities (JS.toLowerCase addressText) with
               | Some city => Some city
               | None => second_to_last addressText
               end) addressText) as (-> & -> & -> & -> & -> & ->).
  split; [reflexivity |]. split; [reflexivity |]. split; [reflexivity |].
  fold lowerAddress. destruct names_non_empty as [Hstates Hcities].
  split; [| split].
  - pose proof (pinMatch_leftmost addressText "") as Hpin.
    change (ends_word "") with false in Hpin.
    destruct (pinMatch false addressText) as [pin |]; exact Hpin.
  - pose proof (named_first states lowerAddress) as Hs.
    destruct (named states lowerAddress) as [state |]; exact Hs.
  - pose proof (named_first cities lowerAddress) as Hs.
    destruct (named cities lowerAddress) as [city |] eqn:Ecity.
    + split; [exact (named_non_empty cities lowerAddress city Hcities Ecity) | now left].
    + pose proof (second_to_last_spec addressText) as Hpart.
      destruct (second_to_last addressText) as [part |] eqn:Epart.
      * split; [exact (second_to_last_non_empty addressText part Epart) |]. right.
        split; [exact Hs | exact Hpart].
      * split; [exact Hs | exact Hpart].
Qed.

(** The addresses that the schema accepts. *)
Lemma parsed_address_accepted (addressText : string) (p : list string) :
  (exists v, Zod.parse addressSchema p (parseIndianAddress addressText) = Zod.Success v)
  <-> names_one states addressText
      /\ (names_one cities addressText
          \/ (1 < List.length (JS.split "," addressText))%nat).
Proof.
  rewrite parseIndianAddress_eq, address_of_parses.
  destruct names_non_empty as [Hstates Hcities].
  rewrite (named_Some states addressText Hstates).
  apply and_iff_compat_l.
  pose proof (named_Some cities addressText Hcities) as Hc.
  destruct (named cities (JS.toLowerCase addressText)) as [city |] eqn:Ecity.
  - assert (Hcity : exists c, Some city = Some c /\ c <> "").
    { exists city. split; [reflexivity |].
      exact (named_non_empty cities _ city Hcities Ecity). }
    split; [intros _; left; now apply Hc | intros _; exact Hcity].
  - assert (Hnone : ~ names_one cities addressText).
    { intros Hn. apply Hc in Hn as (s & [=] & _). }
    split.
    + intros (part & Epart & _). right. unfold second_to_last in Epart.
      rewrite length_map in Epart.
      destruct (Nat.ltb_spec 1 (List.length (JS.split "," addressText)));
        [assumption | discriminate].
    + intros [Hn | Hparts]; [contradiction |].
      unfold second_to_last. rewrite length_map.
      destruct (Nat.ltb_spec 1 (List.length (JS.split "," addressText))); [| lia].
      destruct (nth_error _ _) as [part |]; [| eexists; split; [reflexivity | discriminate]].
      destruct (String.eqb_spec part "");
        (eexists; split; [reflexivity | (discriminate || assumption)]).
Qed.

(** The address of a record reported valid has passed the address schema. *)
Lemma valid_address_parses (data : JSValue) (result : ValidationResult) :
  validateRestaurantData data = Normal result -> isValid result = true ->
  exists va, Zod.parse addressSchema ["address"] (JS.prop data "address")
             = Zod.Success va.
Proof.
  intros E Hvalid.
  destruct (valid_then_parsed data result E Hvalid) as [v Hv].
  unfold restaurantDataSchema in Hv.
  destruct (parse_object_inv _ _ _ _ Hv) as [[props ->] _].
  eapply (parsed_field _ _ _ _ "address") in Hv; [| compute_done | simpl; tauto].
  destruct Hv as (va & Hva & _). simpl app in Hva. eauto.
Qed.

(** X18: which address texts give a record that can be valid.  The schema
    accepts the address that [parseIndianAddress] makes of a text exactly
    when the text names one of the eleven listed states and either names a
    listed city or has a comma; so a record with the parsed address of a
    text that names no listed state is never reported valid. *)
Theorem parsed_address_needs_a_listed_state (addressText : string) :
  ((exists v, Zod.parse addressSchema ["address"] (parseIndianAddress addressText)
              = Zod.Success v)
   <-> names_one states addressText
       /\ (names_one cities addressText
           \/ (1 < List.length (JS.split "," addressText))%nat))
  /\ (forall data result,
        JS.prop data "address" = parseIndianAddress addressText ->
        validateRestaurantData data = Normal result ->
        isValid result = true ->
        names_one states addressText
        /\ (names_one cities addressText
            \/ (1 < List.length (JS.split "," addressText))%nat)).
Proof.
  split; [apply parsed_address_accepted |].
  intros data result Haddress E Hvalid.
  destruct (valid_address_parses data result E Hvalid) as [va Hva].
  rewrite Haddress in Hva. apply (parsed_address_accepted addressText ["address"]).
  eauto.
Qed.

End ParsedAddresses.

(** ** Addresses without a listed state, end to end *)

Section PendingAddresses.
Import SchemaValidationService.
Context `{Host} `{Heuristics} `{Env}.



End PendingAddresses.


(** ** The validator agent *)

Section ValidatorAgentLaws.
Context `{Host} `{Heuristics} `{Env}.
Import SchemaValidationService.

(** X20: the validator agent never fails.  Whatever the data, a call of
    [SchemaValidatorAgent.process] on an agent of the manager returns the
    result of the validator and leaves the agent idle, with the call counted
    and the error count as it was; the other agents are untouched, and
    nothing is stored, journalled or sent. *)
Theorem SchemaValidatorAgent_process_returns (handle : nat) (data : JSValue) (w : World)
  (a : Agents.BaseAgent) :
  agentManager w !! handle = Some a ->
  let r := fst (SchemaValidatorAgent_process handle data w) in
  let w' := snd (SchemaValidatorAgent_process handle data w) in
  r = validateRestaurantData data
  /\ (exists result, r = Normal result)
  /\ (exists rt,
        agentManager w' !! handle
        = Some {| Agents.id := Agents.id a; Agents.name := Agents.name a;
                  Agents.type := Agents.type a;
                  Agents.metrics :=
                    Agents.updateMetrics true rt None (Agents.metrics a);
                  Agents.status := "idle" |})
  /\ (forall other, other <> handle ->
        agentManager w' !! other = agentManager w !! other)
  /\ stored_status (Agents.id a) "idle" w'
  /\ MemStorage.restaurants (storage w') = MemStorage.restaurants (storage w)
  /\ journal w' = journal w /\ requests w' = requests w.
Proof.
  intros Ha r w'. subst r w'. unfold SchemaValidatorAgent_process.
  set (t0 := Date_now (clock w)).
  set (w1 := snd (read_clock w)).
  assert (Ha1 : agentManager w1 !! handle = Some a) by exact Ha.
  destruct (updateStatus_runs handle "processing" w1 a Ha1) as (Hr & Hl & _).
  pose proof (silent_updateStatus handle "processing" w1) as Hsilent.
  set (w2 := snd (updateStatus handle "processing" w1)) in *.
  assert (Ha2 : agentManager w2 !! handle = Some (Agents.with_status "processing" a)).
  { rewrite Hl. now apply altered. }
  rewrite (run_bind read_clock _ w t0 eq_refl). fold w1.
  rewrite (run_bind _ _ _ _ Hr). fold w2.
  destruct (validateRestaurantData_returns data) as [result Eresult].
  rewrite try_catch_run, bind_run_eq. unfold lift. rewrite Eresult.
  destruct (agent_finishes handle true t0 None "idle"
              (mret result : Eff ValidationResult) w2 _ Ha2)
    as (w3 & E3 & (rt & Ha3) & Ho3 & Hs3).
  pose proof E3 as Hrun.
  assert (Hstage : same_stage w2 w3).
  { assert (Hsil : silent (now ← read_clock;
                           _ ← updateMetrics handle true (now - t0) None;
                           _ ← updateStatus handle "idle";
                           (mret result : Eff ValidationResult))).
    { apply silent_bind; [apply silent_read_clock |]. intros now.
      apply silent_bind; [apply silent_updateMetrics |]. intros _.
      apply silent_bind; [apply silent_updateStatus |]. intros _.
      apply silent_ret. }
    exact (Hsil w2 _ _ Hrun). }
  cbv beta iota. rewrite E3. unfold mret, Eff_ret. cbn [fst snd].
  split; [reflexivity |]. split; [eauto |]. split; [exists rt; exact Ha3 |].
  split.
  - intros other Hne. rewrite Ho3 by exact Hne. rewrite Hl. now apply altered_other.
  - split; [exact Hs3 |].
    assert (H12 : same_stage w1 w2).
    { apply (Hsilent (fst (updateStatus handle "processing" w1)) w2).
      subst w2. now destruct (updateStatus handle "processing" w1). }
    assert (H01 : same_stage w w1) by (repeat split).
    destruct H01 as (R01 & _ & J01 & Q01), H12 as (R12 & _ & J12 & Q12),
      Hstage as (R23 & _ & J23 & Q23).
    repeat split; congruence.
Qed.

End ValidatorAgentLaws.

Lemma SchemaValidatorAgent_process_returns_witness :
  agentManager Sample.world !! 2%nat
  = Some (Sample.agent 3 "Schema Validator Agent" "schema-validator")
  /\ exists result,
       fst (SchemaValidatorAgent_process (H := Sample.host) (H1 := Sample.env) 2
              (JObj Sample.record_without_name_and_city) Sample.world)
       = Normal result.
Proof.
  split; [reflexivity |].
  exact (proj1 (proj2 (SchemaValidatorAgent_process_returns
           (H := Sample.host) (H1 := Sample.env) 2
           (JObj Sample.record_without_name_and_city) Sample.world
           (Sample.agent 3 "Schema Validator Agent" "schema-validator") eq_refl))).
Defined.

(** ** The pipeline on the sample world *)

Import Sample.

Lemma fetch_failure_fails_the_item_witness :
  fetch_error unreachable_url (axios_get (requests world) unreachable_url)
  = Some "Failed to scrape https://no-such-host.example: getaddrinfo ENOTFOUND"
  /\ exists e,
       fst (PipelineOrchestrator.processRestaurantUrl unreachable_url world) = Throw e
       /\ (e = JsError
                 "Failed to scrape https://no-such-host.example: getaddrinfo ENOTFOUND"
           \/ e = JsError "No web scraper agents available")
       /\ failed_entry (randomUUID (uuids world)) e
            (snd (PipelineOrchestrator.processRestaurantUrl unreachable_url world))
       /\ MemStorage.restaurants
            (storage (snd (PipelineOrchestrator.processRestaurantUrl unreachable_url
                             world)))
          = MemStorage.restaurants (storage world).
Proof.
  split; [reflexivity |].
  apply (fetch_failure_fails_the_item unreachable_url world). reflexivity.
Defined.

Lemma stored_cuisineTypes_non_empty_witness :
  (JS.assoc "cuisineTypes" [] = None
   \/ JS.assoc "cuisineTypes" [] = Some JUndefined
   \/ JS.assoc "cuisineTypes" [] = Some JNull)
  /\ MemStorage.i_cuisineTypes
       (PipelineOrchestrator.to_insert reachable_url SchemaValidationService.initial [])
     = JArr [JStr "Indian"].
Proof.
  split; [left; reflexivity |].
  apply (proj1 (proj2 stored_cuisineTypes_non_empty)). left. reflexivity.
Defined.

Lemma llm_stage_iff_invalid_or_incomplete_witness :
  exists t v,
    journal (snd (PipelineOrchestrator.processRestaurantUrl reachable_url world))
    = journal world ++ t
    /\ In (Validated (randomUUID (uuids world)) v) t
    /\ SchemaValidationService.isValid v = true
    /\ (80 <= SchemaValidationService.completeness v)%Z
    /\ ~ In (QueueStatus (randomUUID (uuids world)) "llm_processing") t
    /\ (forall operation request, ~ In (LlmRequest operation request) t)
    /\ fst (PipelineOrchestrator.processRestaurantUrl reachable_url world) = Normal tt.
Proof.
  destruct (llm_stage_iff_invalid_or_incomplete reachable_url world)
    as (t & Ht & _ & Hall).
  exists t.
  assert (Hin : exists v,
             In (Validated (randomUUID (uuids world)) v) t
             /\ SchemaValidationService.isValid v = true
             /\ (80 <= SchemaValidationService.completeness v)%Z).
  { vm_compute in Ht. subst t. eexists. split; [do 5 right; left; reflexivity |].
    split; [reflexivity | discriminate]. }
  destruct Hin as (v & Hin & Hvalid & Hcomplete). exists v.
  destruct (Hall v Hin) as [Hiff Hrest].
  destruct (Hrest Hvalid Hcomplete) as (Hnone & Hreturn & _).
  repeat split; auto.
  intros Hllm. apply Hiff in Hllm as [Hinvalid | Hlow]; [congruence | lia].
Defined.

Lemma stored_restaurant_of_a_run_witness :
  fst (PipelineOrchestrator.processRestaurantUrl reachable_url world) = Normal tt
  /\ exists rid restaurant,
       MemStorage.restaurants
         (storage (snd (PipelineOrchestrator.processRestaurantUrl reachable_url world)))
       = <[rid := restaurant]> (MemStorage.restaurants (storage world))
       /\ MemStorage.r_id restaurant = rid
       /\ MemStorage.r_validatedAt restaurant = None
       /\ (exists l, MemStorage.r_cuisineTypes restaurant = JArr l /\ l <> [])
       /\ ((MemStorage.r_status restaurant = "validated"
            /\ MemStorage.r_completeness restaurant = "100"
            /\ exists a, (70 <= a <= 100)%Z
                         /\ MemStorage.r_accuracy restaurant = pretty a)
           \/ (MemStorage.r_status restaurant = "pending"
               /\ MemStorage.r_accuracy restaurant = "0"
               /\ (MemStorage.r_completeness restaurant = "0"
                   \/ MemStorage.r_completeness restaurant = "100"))).
Proof.
  split; [vm_compute; reflexivity |].
  apply (stored_restaurant_of_a_run reachable_url world). vm_compute. reflexivity.
Defined.
